(** * smartbuyreviews: navigation widget (v3.1, v4.0) and review sync script

    A shallow embedding of [scripts/update-reviews.js] and of the two
    [SmartNavigationMenu] classes, followed by the properties of the
    specification proved (or refuted) on it.

    JavaScript strings are sequences of UTF-16 code units: a string is a
    [list N], a character its code unit.  Regular expressions are kept as
    syntax trees and run by a small backtracking matcher that follows the
    ECMAScript semantics for the constructs the sources use. *)

From Stdlib Require Import ZArith NArith Ascii String DecimalString List Lia Bool Sorted.
From stdpp Require Import base list gmap.

Set Default Proof Using "Type".

(** ** Strings *)

Abbreviation jsstring := (list N).

(** A literal of the source, written as a Rocq string (ASCII only). *)
Definition js (s : string) : jsstring :=
  map N_of_ascii (list_ascii_of_string s).
Arguments js s%_string.

(** A literal of the source that contains double quotes: in the text below
    the apostrophe stands for the double quote (no template or literal of
    the sources contains an apostrophe of its own). *)
Definition dq (s : string) : jsstring :=
  map (fun c => if N.eqb c 39 then 34%N else c) (js s).
Arguments dq s%_string.

Definition str_eqb (a b : jsstring) : bool := bool_decide (a = b).

(** [\s] of a regular expression, which is also what [trim] removes:
    WhiteSpace and LineTerminator code points. *)
Definition isWhiteSpace (c : N) : bool :=
  ((9 <=? c) && (c <=? 13) || (c =? 32) || (c =? 160) || (c =? 5760)
   || (8192 <=? c) && (c <=? 8202) || (c =? 8232) || (c =? 8233)
   || (c =? 8239) || (c =? 8287) || (c =? 12288) || (c =? 65279))%N.

Definition isLineTerminator (c : N) : bool :=
  ((c =? 10) || (c =? 13) || (c =? 8232) || (c =? 8233))%N.

(** [.] without the [s] flag. *)
Definition isDot (c : N) : bool := negb (isLineTerminator c).

(** [[\s\S]]. *)
Definition isAny (_ : N) : bool := true.

(** [[a-z]]. *)
Definition isLower (c : N) : bool := ((97 <=? c) && (c <=? 122))%N.

Definition isDigit (c : N) : bool := ((48 <=? c) && (c <=? 57))%N.

(** [[^x]]. *)
Definition isNot (x : N) (c : N) : bool := negb (c =? x)%N.

(** Canonicalize of a case-insensitive, non-unicode regular expression.
    Every pattern character of the sources is ASCII; a non-ASCII code unit
    never canonicalizes to an ASCII one, so folding the ASCII letters is
    exact for these patterns. *)
Definition canonicalize (c : N) : N := if isLower c then (c - 32)%N else c.

Fixpoint dropWhile (p : N -> bool) (s : jsstring) : jsstring :=
  match s with
  | c :: s' => if p c then dropWhile p s' else s
  | [] => []
  end.

Fixpoint takeWhile (p : N -> bool) (s : jsstring) : jsstring :=
  match s with
  | c :: s' => if p c then c :: takeWhile p s' else []
  | [] => []
  end.

(** [String.prototype.trim]. *)
Definition trim (s : jsstring) : jsstring :=
  rev (dropWhile isWhiteSpace (rev (dropWhile isWhiteSpace s))).

Fixpoint startsWith (p s : jsstring) : bool :=
  match p, s with
  | [], _ => true
  | a :: p', b :: s' => (a =? b)%N && startsWith p' s'
  | _ :: _, [] => false
  end.

(** [String.prototype.endsWith]. *)
Definition endsWith (s suffix : jsstring) : bool :=
  startsWith (rev suffix) (rev s).

(** [String.prototype.indexOf], [None] for -1. *)
Fixpoint indexOf (s needle : jsstring) : option nat :=
  if startsWith needle s then Some 0
  else match s with
       | [] => None
       | _ :: s' => option_map S (indexOf s' needle)
       end.

(** [String.prototype.includes]. *)
Definition includes (s needle : jsstring) : bool :=
  match indexOf s needle with Some _ => true | None => false end.

(** [s.split(c)[0]] for a one-character separator. *)
Definition splitHead (sep : N) (s : jsstring) : jsstring :=
  takeWhile (isNot sep) s.

(** [Array.prototype.join]. *)
Fixpoint join (sep : jsstring) (l : list jsstring) : jsstring :=
  match l with
  | [] => []
  | [x] => x
  | x :: rest => x ++ sep ++ join sep rest
  end.

(** ** JSON.stringify of a string (QuoteJSONString) *)

Definition hexDigit (n : N) : N := if (n <? 10)%N then (48 + n)%N else (87 + n)%N.

Definition unicodeEscape (c : N) : jsstring :=
  [92; 117; hexDigit (c / 4096 mod 16); hexDigit (c / 256 mod 16);
   hexDigit (c / 16 mod 16); hexDigit (c mod 16)]%N.

Definition isHighSurrogate (c : N) : bool := ((55296 <=? c) && (c <=? 56319))%N.
Definition isLowSurrogate (c : N) : bool := ((56320 <=? c) && (c <=? 57343))%N.

Definition quoteUnit (c : N) : jsstring :=
  if (c =? 8)%N then js "\b"
  else if (c =? 9)%N then js "\t"
  else if (c =? 10)%N then js "\n"
  else if (c =? 12)%N then js "\f"
  else if (c =? 13)%N then js "\r"
  else if (c =? 34)%N then [92; 34]%N
  else if (c =? 92)%N then [92; 92]%N
  else if (c <? 32)%N then unicodeEscape c
  else [c].

Fixpoint quoteBody (s : jsstring) : jsstring :=
  match s with
  | [] => []
  | c :: s' =>
      if isHighSurrogate c then
        match s' with
        | d :: s'' =>
            if isLowSurrogate d then c :: d :: quoteBody s''
            else unicodeEscape c ++ quoteBody s'
        | [] => unicodeEscape c
        end
      else if isLowSurrogate c then unicodeEscape c ++ quoteBody s'
      else quoteUnit c ++ quoteBody s'
  end.

Definition JSON_stringify (s : jsstring) : jsstring :=
  [34%N] ++ quoteBody s ++ [34%N].

(** ** Regular expressions *)

Module Regex.

(** The constructs of the patterns in the sources.  A quantifier is always
    applied to a single character class there ([\s*], [[^<]+], [.+?],
    [[\s\S]*?]), so [RStar] takes the class; [x+] is [x] followed by [x*],
    [x{2}] is [x] twice. *)
Inductive regex : Type :=
| REmpty
| RChar (c : N)
| RClass (p : N -> bool)
| RSeq (r1 r2 : regex)
| RStar (greedy : bool) (p : N -> bool)
| RGroup (i : nat) (r : regex)
| RBol
| REol.

(** A pattern with its flags; [ncaps] is the number of capturing groups. *)
Record RegExp : Type := mkRegExp {
  body : regex;
  ignoreCase : bool;
  global : bool;
  ncaps : nat
}.

(** A run of pattern characters. *)
Fixpoint lit (s : jsstring) : regex :=
  match s with
  | [] => REmpty
  | c :: s' => RSeq (RChar c) (lit s')
  end.

Definition plus (greedy : bool) (p : N -> bool) : regex :=
  RSeq (RClass p) (RStar greedy p).

Fixpoint rseq (l : list regex) : regex :=
  match l with
  | [] => REmpty
  | r :: l' => RSeq r (rseq l')
  end.

(** Matcher state: index in the input, rest of the input from there, and the
    captures set so far (latest first). *)
Record mstate : Type := MS {
  ms_pos : nat;
  ms_rest : jsstring;
  ms_caps : list (nat * jsstring)
}.

Definition charMatches (ic : bool) (c x : N) : bool :=
  if ic then (canonicalize c =? canonicalize x)%N else (c =? x)%N.

(** [p*] and [p*?] followed by the continuation [k]: the greedy form tries
    the longest run first, the lazy form the shortest. *)
Fixpoint star (greedy : bool) (p : N -> bool) (k : mstate -> option mstate)
    (pos : nat) (s : jsstring) (caps : list (nat * jsstring)) : option mstate :=
  match s with
  | c :: s' =>
      if p c then
        if greedy then
          match star greedy p k (S pos) s' caps with
          | Some r => Some r
          | None => k (MS pos s caps)
          end
        else
          match k (MS pos s caps) with
          | Some r => Some r
          | None => star greedy p k (S pos) s' caps
          end
      else k (MS pos s caps)
  | [] => k (MS pos [] caps)
  end.

(** The backtracking matcher, in continuation-passing style. *)
Fixpoint rmatch (ic : bool) (r : regex) (st : mstate)
    (k : mstate -> option mstate) : option mstate :=
  match r with
  | REmpty => k st
  | RChar c =>
      match ms_rest st with
      | x :: tl =>
          if charMatches ic c x then k (MS (S (ms_pos st)) tl (ms_caps st))
          else None
      | [] => None
      end
  | RClass p =>
      match ms_rest st with
      | x :: tl =>
          if p x then k (MS (S (ms_pos st)) tl (ms_caps st)) else None
      | [] => None
      end
  | RSeq a b => rmatch ic a st (fun st' => rmatch ic b st' k)
  | RStar g p => star g p k (ms_pos st) (ms_rest st) (ms_caps st)
  | RGroup i a =>
      rmatch ic a st (fun st' =>
        k (MS (ms_pos st') (ms_rest st')
              ((i, take (ms_pos st' - ms_pos st) (ms_rest st)) :: ms_caps st')))
  | RBol => if Nat.eqb (ms_pos st) 0 then k st else None
  | REol => match ms_rest st with [] => k st | _ :: _ => None end
  end.

(** The result of a successful match. *)
Record MatchResult : Type := mkMatch {
  index : nat;
  matched : jsstring;
  captures : list (option jsstring)
}.

Fixpoint lookupCap (i : nat) (caps : list (nat * jsstring)) : option jsstring :=
  match caps with
  | [] => None
  | (j, v) :: caps' => if Nat.eqb i j then Some v else lookupCap i caps'
  end.

Definition capturesOf (n : nat) (caps : list (nat * jsstring))
    : list (option jsstring) :=
  map (fun i => lookupCap i caps) (List.seq 1 n).

(** Search for the leftmost match at or after [pos]; [s] is the input from
    [pos] on. *)
Fixpoint execFrom (re : RegExp) (pos : nat) (s : jsstring)
    : option MatchResult :=
  match rmatch (ignoreCase re) (body re) (MS pos s []) Some with
  | Some st =>
      Some (mkMatch pos (take (ms_pos st - pos) s)
                    (capturesOf (ncaps re) (ms_caps st)))
  | None =>
      match s with
      | [] => None
      | _ :: s' => execFrom re (S pos) s'
      end
  end.

(** [RegExp.prototype.exec] on a fresh (or non-global) expression, which is
    also [String.prototype.match] without the [g] flag. *)
Definition exec (re : RegExp) (s : jsstring) : option MatchResult :=
  execFrom re 0 s.

(** [RegExp.prototype.test]. *)
Definition test (re : RegExp) (s : jsstring) : bool :=
  match exec re s with Some _ => true | None => false end.

(** The [i]-th capture of a match ([m[i]], [i >= 1]); [None] for undefined. *)
Definition group (m : MatchResult) (i : nat) : option jsstring :=
  match captures m !! (i - 1) with
  | Some (Some v) => Some v
  | _ => None
  end.

Definition digitVal (c : N) : nat := N.to_nat (c - 48).

Definition nthCapture (caps : list (option jsstring)) (i : nat) : jsstring :=
  match caps !! (i - 1) with
  | Some (Some v) => v
  | _ => []
  end.

(** GetSubstitution: expansion of a replacement string.  There are no named
    groups in the sources, so [$<] is literal. *)
Fixpoint GetSubstitution (matched str : jsstring) (position : nat)
    (caps : list (option jsstring)) (t : jsstring) : jsstring :=
  match t with
  | [] => []
  | c :: t1 =>
      if negb (c =? 36)%N then c :: GetSubstitution matched str position caps t1
      else
        match t1 with
        | [] => [c]
        | d :: t2 =>
            if (d =? 36)%N then
              36%N :: GetSubstitution matched str position caps t2
            else if (d =? 96)%N then
              take position str ++ GetSubstitution matched str position caps t2
            else if (d =? 38)%N then
              matched ++ GetSubstitution matched str position caps t2
            else if (d =? 39)%N then
              drop (position + length matched) str
                ++ GetSubstitution matched str position caps t2
            else if isDigit d then
              let one :=
                (if (1 <=? digitVal d)%nat && (digitVal d <=? length caps)%nat
                 then nthCapture caps (digitVal d) else [c; d])
                  ++ GetSubstitution matched str position caps t2 in
              match t2 with
              | e :: t3 =>
                  if isDigit e then
                    let idx := (10 * digitVal d + digitVal e)%nat in
                    if (length caps <? idx)%nat then one
                    else if (1 <=? idx)%nat then
                      nthCapture caps idx
                        ++ GetSubstitution matched str position caps t3
                    else [c; d; e] ++ GetSubstitution matched str position caps t3
                  else one
              | [] => one
              end
            else c :: GetSubstitution matched str position caps t1
        end
  end.

(** One replacement step: the text before the match and the expansion. *)
Definition substituted (m : MatchResult) (whole repl : jsstring) : jsstring :=
  GetSubstitution (matched m) whole (index m) (captures m) repl.

(** Global replacement from index [pos] on ([s] is the input from there);
    the fuel bounds the number of matches by the length of the input.  An
    empty match advances by one character, as [lastIndex] does. *)
Fixpoint replaceFrom (fuel : nat) (re : RegExp) (repl whole : jsstring)
    (pos : nat) (s : jsstring) : jsstring :=
  match fuel with
  | O => s
  | S fuel' =>
      match execFrom re pos s with
      | None => s
      | Some m =>
          let skip := (index m - pos)%nat in
          let out := take skip s ++ substituted m whole repl in
          match matched m with
          | [] =>
              match drop skip s with
              | [] => out
              | c :: tl =>
                  out ++ c :: replaceFrom fuel' re repl whole (S (index m)) tl
              end
          | _ :: _ =>
              out ++ replaceFrom fuel' re repl whole
                       (index m + length (matched m))
                       (drop (skip + length (matched m)) s)
          end
      end
  end.

(** [String.prototype.replace] with a regular expression and a replacement
    string: the first match only, or every match under the [g] flag. *)
Definition replace (re : RegExp) (repl s : jsstring) : jsstring :=
  if global re then replaceFrom (S (length s)) re repl s 0 s
  else
    match exec re s with
    | None => s
    | Some m =>
        take (index m) s ++ substituted m s repl
          ++ drop (index m + length (matched m)) s
    end.

End Regex.

(** ** The page a navigation widget runs in *)

Module Page.

(** The menu configuration resource ([/data/menu.json]). *)
Record ReviewEntry : Type := mkReview {
  label : jsstring;
  url : jsstring
}.

Record Language : Type := mkLanguage {
  code : jsstring;
  lang_label : jsstring;
  flag : jsstring
}.

(** [None] is an absent [reviews] or [languages] property. *)
Record MenuConfiguration : Type := mkConfig {
  reviews : option (list ReviewEntry);
  languages : option (list Language)
}.

(** What the widget reads and writes of the browser: the path of the page,
    the local storage, the elements of the document by id with their
    [innerHTML], the warnings on the console, the last assignment to
    [window.location.href], and how often the event listeners have been
    attached. *)
Record Browser : Type := mkBrowser {
  pathname : jsstring;
  localStorage : gmap jsstring jsstring;
  dom : gmap jsstring jsstring;
  console : list jsstring;
  href : option jsstring;
  listeners : nat
}.

Definition setItem (k v : jsstring) (b : Browser) : Browser :=
  mkBrowser (pathname b) (<[k := v]> (localStorage b)) (dom b) (console b)
            (href b) (listeners b).

Definition setInnerHTML (id html : jsstring) (b : Browser) : Browser :=
  mkBrowser (pathname b) (localStorage b) (<[id := html]> (dom b)) (console b)
            (href b) (listeners b).

Definition warn (msg : jsstring) (b : Browser) : Browser :=
  mkBrowser (pathname b) (localStorage b) (dom b) (console b ++ [msg])
            (href b) (listeners b).

Definition navigate (target : jsstring) (b : Browser) : Browser :=
  mkBrowser (pathname b) (localStorage b) (dom b) (console b)
            (Some target) (listeners b).

Definition addListeners (b : Browser) : Browser :=
  mkBrowser (pathname b) (localStorage b) (dom b) (console b)
            (href b) (S (listeners b)).

(** How the promise of [fetch(...).then(response => response.json())]
    settles: the request is rejected, the body is not JSON, or the body
    parses to a configuration. *)
Inductive FetchOutcome : Type :=
| FetchRejected
| BodyNotJson
| Loaded (data : MenuConfiguration).

(** The [options] argument of the constructor. *)
Record Options : Type := mkOptions {
  opt_menuContainerId : option jsstring;
  opt_menuDataUrl : option jsstring
}.

(** [x || d] for a string or undefined [x]: the empty string is falsy. *)
Definition orDefault (x : option jsstring) (d : jsstring) : jsstring :=
  match x with
  | Some (c :: s) => c :: s
  | _ => d
  end.

(** [a || []] for an array or undefined [a]. *)
Definition orEmpty {A : Type} (a : option (list A)) : list A :=
  match a with
  | Some l => l
  | None => []
  end.

End Page.

(** ** Smart Navigation Menu v3.1 *)

Module V31.
Import Page.

Record SmartNavigationMenu : Type := mkMenu {
  menuContainerId : jsstring;
  menuDataUrl : jsstring;
  menuData : option MenuConfiguration;
  currentLang : jsstring
}.

Definition setCurrentLang (l : jsstring) (w : SmartNavigationMenu)
    : SmartNavigationMenu :=
  mkMenu (menuContainerId w) (menuDataUrl w) (menuData w) l.

Definition setMenuData (d : MenuConfiguration) (w : SmartNavigationMenu)
    : SmartNavigationMenu :=
  mkMenu (menuContainerId w) (menuDataUrl w) (Some d) (currentLang w).

(** [/\/regions\/([a-z]{2})\//] *)
Definition pathRe : Regex.RegExp :=
  Regex.mkRegExp
    (Regex.rseq [Regex.lit (js "/regions/");
                 Regex.RGroup 1 (Regex.RSeq (Regex.RClass isLower)
                                            (Regex.RClass isLower));
                 Regex.lit (js "/")])
    false false 1.

Definition detectLanguage (b : Browser) : jsstring :=
  match Regex.exec pathRe (pathname b) with
  | Some pathMatch => Regex.nthCapture (Regex.captures pathMatch) 1
  | None =>
      match localStorage b !! js "preferredLanguage" with
      | Some (c :: s) => c :: s
      | _ => js "en"
      end
  end.

(** The constructor up to the call of [init]; the fetch that [init] starts
    settles later, see [loadMenuData]. *)
Definition new (options : Options) (b : Browser) : SmartNavigationMenu :=
  mkMenu (orDefault (opt_menuContainerId options) (js "dynamic-menu"))
         (orDefault (opt_menuDataUrl options) (js "/data/menu.json"))
         None
         (detectLanguage b).

(** [/\/regions\/[a-z]{2}\//] *)
Definition regionRe : Regex.RegExp :=
  Regex.mkRegExp
    (Regex.rseq [Regex.lit (js "/regions/");
                 Regex.RClass isLower; Regex.RClass isLower;
                 Regex.lit (js "/")])
    false false 0.

Definition getLocalizedUrl (w : SmartNavigationMenu) (url : jsstring)
    : jsstring :=
  Regex.replace regionRe (js "/regions/" ++ currentLang w ++ js "/") url.

Definition buildFallbackHtml : jsstring :=
  dq "
      <ul class='menu-list flex flex-wrap items-center gap-4 lg:gap-6'>
        <li class='menu-item'><a href='/' class='menu-link text-white hover:text-slate-200'>Home</a></li>
        <li class='menu-item'><a href='/about.html' class='menu-link text-white hover:text-slate-200'>About</a></li>
        <li class='menu-item'><a href='/privacy-policy.html' class='menu-link text-white hover:text-slate-200'>Privacy Policy</a></li>
      </ul>
    ".

Definition reviewsOpen : jsstring :=
  dq "<li class='menu-item menu-item--with-children relative'>
        <button class='menu-link menu-link--parent text-white hover:text-slate-200 transition-colors flex items-center gap-1'>
          Reviews
          <svg class='w-4 h-4' fill='none' stroke='currentColor' viewBox='0 0 24 24'><path stroke-linecap='round' stroke-linejoin='round' stroke-width='2' d='M19 9l-7 7-7-7'></path></svg>
        </button>
        <ul class='menu-submenu absolute top-full left-0 mt-2 bg-slate-800 rounded-lg shadow-xl py-2 min-w-[250px] hidden z-50'>".

Definition reviewItem (localizedUrl reviewLabel : jsstring) : jsstring :=
  dq "<li class='menu-submenu-item'>
          <a href='" ++ localizedUrl ++ dq "' class='menu-submenu-link block px-4 py-2 text-slate-200 hover:bg-slate-700 hover:text-white transition-colors'>" ++ reviewLabel ++ dq "</a>
        </li>".

Definition languageItem (activeClass langCode langFlag langLabel : jsstring)
    : jsstring :=
  dq "<li class='menu-submenu-item'>
        <a href='#' class='menu-submenu-link block px-4 py-2 text-slate-200 hover:bg-slate-700 hover:text-white transition-colors" ++ activeClass ++ dq "' data-lang='" ++ langCode ++ dq "'>" ++ langFlag ++ js " " ++ langLabel ++ dq "</a>
      </li>".

Section Platform.

(** [String.prototype.toUpperCase], left to the platform: its Unicode case
    mapping is not part of the model. *)
Variable toUpperCase : jsstring -> jsstring.

Definition languageOpen (currentLangData : Language) : jsstring :=
  dq "<li class='menu-item menu-item--with-children relative ml-4'>
      <button class='menu-link menu-link--parent text-white hover:text-slate-200 transition-colors flex items-center gap-1 border border-white/20 rounded px-3 py-1'>
        <span class='text-sm'>" ++ flag currentLangData ++ js " " ++ toUpperCase (code currentLangData) ++ dq "</span>
        <svg class='w-4 h-4' fill='none' stroke='currentColor' viewBox='0 0 24 24'><path stroke-linecap='round' stroke-linejoin='round' stroke-width='2' d='M19 9l-7 7-7-7'></path></svg>
      </button>
      <ul class='menu-submenu absolute top-full right-0 mt-2 bg-slate-800 rounded-lg shadow-xl py-2 min-w-[140px] hidden z-50'>".

(** Only called with more than one language, so [languages[0]] exists. *)
Definition buildLanguageDropdown (w : SmartNavigationMenu)
    (langs : list Language) : jsstring :=
  match langs with
  | [] => []
  | first :: _ =>
      let currentLangData :=
        match List.find (fun l => str_eqb (code l) (currentLang w)) langs with
        | Some l => l
        | None => first
        end in
      let html := languageOpen currentLangData in
      let html :=
        fold_left
          (fun html lang =>
             let isActive := str_eqb (code lang) (currentLang w) in
             let activeClass := if isActive then js " bg-slate-700" else [] in
             html ++ languageItem activeClass (code lang) (flag lang)
                                  (lang_label lang))
          langs html in
      html ++ js "</ul></li>"
  end.

Definition buildMenuHtml (w : SmartNavigationMenu) : jsstring :=
  match menuData w with
  | None => buildFallbackHtml
  | Some data =>
      let reviews := orEmpty (reviews data) in
      let languages := orEmpty (languages data) in
      let html := dq "<ul class='menu-list flex flex-wrap items-center gap-4 lg:gap-6'>" in
      let html := html ++ dq "<li class='menu-item'><a href='/' class='menu-link text-white hover:text-slate-200 transition-colors'>Home</a></li>" in
      let html :=
        if (0 <? length reviews)%nat then
          let html := html ++ reviewsOpen in
          let html :=
            fold_left
              (fun html review =>
                 let localizedUrl := getLocalizedUrl w (url review) in
                 html ++ reviewItem localizedUrl (label review))
              reviews html in
          html ++ js "</ul></li>"
        else html in
      let html := html ++ dq "<li class='menu-item'><a href='/about.html' class='menu-link text-white hover:text-slate-200 transition-colors'>About</a></li>" in
      let html := html ++ dq "<li class='menu-item'><a href='/privacy-policy.html' class='menu-link text-white hover:text-slate-200 transition-colors'>Privacy Policy</a></li>" in
      let html :=
        if (1 <? length languages)%nat
        then html ++ buildLanguageDropdown w languages
        else html in
      html ++ js "</ul>"
  end.

(** Registers the click handlers of the dropdowns and of the language
    links.  The handlers are interaction with the document; the model only
    records that they were attached. *)
Definition attachEventListeners (b : Browser) : Browser := addListeners b.

Definition renderMenu (w : SmartNavigationMenu) (b : Browser) : Browser :=
  match dom b !! menuContainerId w with
  | None => b
  | Some _ =>
      attachEventListeners (setInnerHTML (menuContainerId w) (buildMenuHtml w) b)
  end.

Definition renderFallbackMenu (w : SmartNavigationMenu) (b : Browser)
    : Browser :=
  match dom b !! menuContainerId w with
  | Some _ => setInnerHTML (menuContainerId w) buildFallbackHtml b
  | None => b
  end.

(** The settlement of the promise chain started by [loadMenuData]. *)
Definition loadMenuData (w : SmartNavigationMenu) (b : Browser)
    (outcome : FetchOutcome) : SmartNavigationMenu * Browser :=
  match outcome with
  | Loaded data =>
      let w := setMenuData data w in
      (w, renderMenu w b)
  | FetchRejected | BodyNotJson =>
      (w, renderFallbackMenu w (warn (js "Failed to load menu data:") b))
  end.

Definition switchLanguage (w : SmartNavigationMenu) (b : Browser)
    (newLang : jsstring) : SmartNavigationMenu * Browser :=
  let b := setItem (js "preferredLanguage") newLang b in
  let currentPath := pathname b in
  if includes currentPath (js "/regions/") then
    let newPath :=
      Regex.replace regionRe (js "/regions/" ++ newLang ++ js "/") currentPath in
    (w, navigate newPath b)
  else
    let w := setCurrentLang newLang w in
    (w, renderMenu w b).

End Platform.

End V31.

(** ** Smart Navigation Menu v4.0 *)

Module V40.
Import Page.

(** [closeTimeout] is the pending timer of the hover handlers, [None] for
    null. *)
Record SmartNavigationMenu : Type := mkMenu {
  menuContainerId : jsstring;
  menuDataUrl : jsstring;
  menuData : option MenuConfiguration;
  currentLang : jsstring;
  closeTimeout : option nat
}.

Definition setCurrentLang (l : jsstring) (w : SmartNavigationMenu)
    : SmartNavigationMenu :=
  mkMenu (menuContainerId w) (menuDataUrl w) (menuData w) l (closeTimeout w).

Definition setMenuData (d : MenuConfiguration) (w : SmartNavigationMenu)
    : SmartNavigationMenu :=
  mkMenu (menuContainerId w) (menuDataUrl w) (Some d) (currentLang w)
         (closeTimeout w).

(** [/\/regions\/([a-z]{2})\//] *)
Definition pathRe : Regex.RegExp :=
  Regex.mkRegExp
    (Regex.rseq [Regex.lit (js "/regions/");
                 Regex.RGroup 1 (Regex.RSeq (Regex.RClass isLower)
                                            (Regex.RClass isLower));
                 Regex.lit (js "/")])
    false false 1.

Definition detectLanguage (b : Browser) : jsstring :=
  match Regex.exec pathRe (pathname b) with
  | Some pathMatch => Regex.nthCapture (Regex.captures pathMatch) 1
  | None =>
      match localStorage b !! js "preferredLanguage" with
      | Some (c :: s) => c :: s
      | _ => js "en"
      end
  end.

Definition new (options : Options) (b : Browser) : SmartNavigationMenu :=
  mkMenu (orDefault (opt_menuContainerId options) (js "dynamic-menu"))
         (orDefault (opt_menuDataUrl options) (js "/data/menu.json"))
         None
         (detectLanguage b)
         None.

(** [/\/regions\/[a-z]{2}\//] *)
Definition regionRe : Regex.RegExp :=
  Regex.mkRegExp
    (Regex.rseq [Regex.lit (js "/regions/");
                 Regex.RClass isLower; Regex.RClass isLower;
                 Regex.lit (js "/")])
    false false 0.

Definition getLocalizedUrl (w : SmartNavigationMenu) (url : jsstring)
    : jsstring :=
  Regex.replace regionRe (js "/regions/" ++ currentLang w ++ js "/") url.

(** A flag emoji is two regional indicator symbols, each a surrogate pair:
    the letters [a] and [b] (as offsets from A) give the four code units. *)
Definition regionalFlag (a b : N) : jsstring :=
  [55356; 56806 + a; 55356; 56806 + b]%N.

(** The table of [getCountryFlag], with the globe U+1F310 as default.  Keys
    inherited from [Object.prototype] are outside the model. *)
Definition getCountryFlag (langCode : jsstring) : jsstring :=
  if str_eqb langCode (js "en") then regionalFlag 6 1
  else if str_eqb langCode (js "de") then regionalFlag 3 4
  else if str_eqb langCode (js "es") then regionalFlag 4 18
  else if str_eqb langCode (js "fr") then regionalFlag 5 17
  else if str_eqb langCode (js "it") then regionalFlag 8 19
  else if str_eqb langCode (js "nl") then regionalFlag 13 11
  else if str_eqb langCode (js "pt") then regionalFlag 15 19
  else [55356; 57104]%N.

Definition buildFallbackHtml : jsstring :=
  dq "
      <nav class='flex items-center gap-6'>
        <a href='/' class='text-gray-600 hover:text-gray-900 text-sm font-medium no-underline'>Home</a>
        <a href='/about.html' class='text-gray-600 hover:text-gray-900 text-sm font-medium no-underline'>About</a>
      </nav>
    ".

Definition reviewsOpen : jsstring :=
  dq "<div class='relative group'>
        <button class='text-gray-600 hover:text-gray-900 text-sm font-medium transition-colors flex items-center gap-1'>
          Reviews
          <svg class='w-4 h-4 transition-transform group-hover:rotate-180' fill='none' stroke='currentColor' viewBox='0 0 24 24'><path stroke-linecap='round' stroke-linejoin='round' stroke-width='2' d='M19 9l-7 7-7-7'></path></svg>
        </button>
        <div class='menu-dropdown absolute top-full right-0 pt-2 hidden z-50'>
          <div class='bg-white rounded-xl shadow-lg border border-gray-100 py-2 min-w-[260px]'>".

Definition reviewItem (localizedUrl reviewLabel : jsstring) : jsstring :=
  dq "<a href='" ++ localizedUrl ++ dq "' class='block px-4 py-2 text-gray-600 hover:bg-gray-50 hover:text-gray-900 text-sm no-underline transition-colors'>" ++ reviewLabel ++ dq "</a>".

Definition languageOpen (flagEmoji : jsstring) : jsstring :=
  dq "<div class='relative group ml-2'>
      <button class='text-gray-500 hover:text-gray-700 text-sm font-medium transition-colors flex items-center gap-1 px-2 py-1 rounded border border-gray-200 hover:border-gray-300'>
        <span>" ++ flagEmoji ++ dq "</span>
        <svg class='w-3 h-3' fill='none' stroke='currentColor' viewBox='0 0 24 24'><path stroke-linecap='round' stroke-linejoin='round' stroke-width='2' d='M19 9l-7 7-7-7'></path></svg>
      </button>
      <div class='menu-dropdown absolute top-full right-0 pt-2 hidden z-50'>
        <div class='bg-white rounded-xl shadow-lg border border-gray-100 py-2 min-w-[140px]'>".

Definition languageItem (activeClass langCode langFlag langLabel : jsstring)
    : jsstring :=
  dq "<a href='#' class='block px-4 py-2 text-gray-600 hover:bg-gray-50 hover:text-gray-900 text-sm no-underline transition-colors" ++ activeClass ++ dq "' data-lang='" ++ langCode ++ dq "'>" ++ langFlag ++ js " " ++ langLabel ++ dq "</a>".

(** Only called with more than one language, so [languages[0]] exists. *)
Definition buildLanguageDropdown (w : SmartNavigationMenu)
    (langs : list Language) : jsstring :=
  match langs with
  | [] => []
  | first :: _ =>
      let currentLangData :=
        match List.find (fun l => str_eqb (code l) (currentLang w)) langs with
        | Some l => l
        | None => first
        end in
      let flagEmoji := getCountryFlag (code currentLangData) in
      let html := languageOpen flagEmoji in
      let html :=
        fold_left
          (fun html lang =>
             let isActive := str_eqb (code lang) (currentLang w) in
             let activeClass :=
               if isActive then js " bg-gray-50 font-medium" else [] in
             let flag := getCountryFlag (code lang) in
             html ++ languageItem activeClass (code lang) flag (lang_label lang))
          langs html in
      html ++ js "</div></div></div>"
  end.

Definition buildMenuHtml (w : SmartNavigationMenu) : jsstring :=
  match menuData w with
  | None => buildFallbackHtml
  | Some data =>
      let reviews := orEmpty (reviews data) in
      let languages := orEmpty (languages data) in
      let html := dq "<nav class='flex items-center gap-6'>" in
      let html := html ++ dq "<a href='/' class='text-gray-600 hover:text-gray-900 text-sm font-medium transition-colors no-underline'>Home</a>" in
      let html :=
        if (0 <? length reviews)%nat then
          let html := html ++ reviewsOpen in
          let html :=
            fold_left
              (fun html review =>
                 let localizedUrl := getLocalizedUrl w (url review) in
                 html ++ reviewItem localizedUrl (label review))
              reviews html in
          html ++ js "</div></div></div>"
        else html in
      let html := html ++ dq "<a href='/about.html' class='text-gray-600 hover:text-gray-900 text-sm font-medium transition-colors no-underline'>About</a>" in
      let html :=
        if (1 <? length languages)%nat
        then html ++ buildLanguageDropdown w languages
        else html in
      html ++ js "</nav>"
  end.

(** Registers the hover and click handlers of the dropdowns and the click
    handlers of the language links; the model only records that they were
    attached. *)
Definition attachEventListeners (b : Browser) : Browser := addListeners b.

Definition renderMenu (w : SmartNavigationMenu) (b : Browser) : Browser :=
  match dom b !! menuContainerId w with
  | None => b
  | Some _ =>
      attachEventListeners (setInnerHTML (menuContainerId w) (buildMenuHtml w) b)
  end.

Definition renderFallbackMenu (w : SmartNavigationMenu) (b : Browser)
    : Browser :=
  match dom b !! menuContainerId w with
  | Some _ => setInnerHTML (menuContainerId w) buildFallbackHtml b
  | None => b
  end.

Definition loadMenuData (w : SmartNavigationMenu) (b : Browser)
    (outcome : FetchOutcome) : SmartNavigationMenu * Browser :=
  match outcome with
  | Loaded data =>
      let w := setMenuData data w in
      (w, renderMenu w b)
  | FetchRejected | BodyNotJson =>
      (w, renderFallbackMenu w (warn (js "Failed to load menu data:") b))
  end.

Definition switchLanguage (w : SmartNavigationMenu) (b : Browser)
    (newLang : jsstring) : SmartNavigationMenu * Browser :=
  let b := setItem (js "preferredLanguage") newLang b in
  let currentPath := pathname b in
  if includes currentPath (js "/regions/") then
    let newPath :=
      Regex.replace regionRe (js "/regions/" ++ newLang ++ js "/") currentPath in
    (w, navigate newPath b)
  else
    let w := setCurrentLang newLang w in
    (w, renderMenu w b).

End V40.

(** ** scripts/update-reviews.js *)

Module Sync.

Definition SITE_URL : jsstring := js "https://smartbuyreviews.co.uk".

Definition nl : jsstring := [10%N].

(** A number in a template literal. *)
Definition showNat (n : nat) : jsstring :=
  js (DecimalString.NilEmpty.string_of_uint (Nat.to_uint n)).

(** An entry of [REVIEWS_DIR]: its name, the text [readFileSync] returns for
    it, and the output of [git log -1 --format=%aI] for it ([None] when
    [execSync] throws).  The path [path.join(REVIEWS_DIR, name)] of a review
    file is represented by its entry; [path.basename] of it is the name. *)
Record DirEntry : Type := mkEntry {
  d_name : jsstring;
  d_html : jsstring;
  d_gitlog : option jsstring
}.

Inductive Target : Type := INDEX_FILE | SITEMAP_FILE.

(** The state of a run: the directory listing (in [readdirSync] order), the
    text of the two target files, the clock ([new Date().toISOString()],
    one reading for the run), the two output streams and the calls of
    [writeFileSync] so far.  The listing page itself is the field
    [indexHtml]; an entry named index.html in the listing is filtered out. *)
Record World : Type := mkWorld {
  reviewsDir : list DirEntry;
  indexHtml : jsstring;
  sitemapXml : jsstring;
  now : jsstring;
  stdout : list jsstring;
  stderr : list jsstring;
  writes : list (Target * jsstring)
}.

Record ReviewMetadata : Type := mkMeta {
  title : jsstring;
  url : jsstring;
  category : jsstring;
  excerpt : jsstring;
  image : jsstring;
  date : jsstring
}.

(** A computation of the script either returns or ends the process
    ([process.exit]). *)
Inductive Outcome (A : Type) : Type :=
| Returned (a : A) (w : World)
| Exited (status : nat) (w : World).
Arguments Returned {A} a w.
Arguments Exited {A} status w.

Definition Proc (A : Type) : Type := World -> Outcome A.

Definition ret {A : Type} (a : A) : Proc A := fun w => Returned a w.

Definition bind {A B : Type} (c : Proc A) (k : A -> Proc B) : Proc B :=
  fun w =>
    match c w with
    | Returned a w' => k a w'
    | Exited status w' => Exited status w'
    end.

Notation "x <- c ;; k" := (bind c (fun x => k))
  (at level 100, c at next level, right associativity).
Notation "c ;; k" := (bind c (fun _ => k))
  (at level 100, right associativity).

Definition console_log (msg : jsstring) : Proc unit :=
  fun w => Returned tt
    (mkWorld (reviewsDir w) (indexHtml w) (sitemapXml w) (now w)
             (stdout w ++ [msg]) (stderr w) (writes w)).

Definition console_error (msg : jsstring) : Proc unit :=
  fun w => Returned tt
    (mkWorld (reviewsDir w) (indexHtml w) (sitemapXml w) (now w)
             (stdout w) (stderr w ++ [msg]) (writes w)).

Definition process_exit {A : Type} (status : nat) : Proc A :=
  fun w => Exited status w.

Definition readFileSync (t : Target) : Proc jsstring :=
  fun w => Returned (match t with
                     | INDEX_FILE => indexHtml w
                     | SITEMAP_FILE => sitemapXml w
                     end) w.

Definition writeFileSync (t : Target) (content : jsstring) : Proc unit :=
  fun w => Returned tt
    (match t with
     | INDEX_FILE =>
         mkWorld (reviewsDir w) content (sitemapXml w) (now w)
                 (stdout w) (stderr w) (writes w ++ [(t, content)])
     | SITEMAP_FILE =>
         mkWorld (reviewsDir w) (indexHtml w) content (now w)
                 (stdout w) (stderr w) (writes w ++ [(t, content)])
     end).

(** [new Date().toISOString().split('T')[0]] *)
Definition today : Proc jsstring :=
  fun w => Returned (splitHead 84 (now w)) w.

Definition getReviewFiles : Proc (list DirEntry) :=
  fun w => Returned
    (filter (fun f => endsWith (d_name f) (js ".html")
                      && negb (str_eqb (d_name f) (js "index.html")))
            (reviewsDir w)) w.

(** [/<title>([^<]+)<\/title>/is] *)
Definition titleRe : Regex.RegExp :=
  Regex.mkRegExp
    (Regex.rseq [Regex.lit (js "<title>");
                 Regex.RGroup 1 (Regex.plus true (isNot 60));
                 Regex.lit (js "</title>")])
    true false 1.

(** [/\s+/g] *)
Definition spacesRe : Regex.RegExp :=
  Regex.mkRegExp (Regex.plus true isWhiteSpace) false true 0.

(** [/\s*Review\s*-\s*Smart Buy Reviews UK 2026\s*$/i] *)
Definition suffixRe : Regex.RegExp :=
  Regex.mkRegExp
    (Regex.rseq [Regex.RStar true isWhiteSpace; Regex.lit (js "Review");
                 Regex.RStar true isWhiteSpace; Regex.lit (js "-");
                 Regex.RStar true isWhiteSpace;
                 Regex.lit (js "Smart Buy Reviews UK 2026");
                 Regex.RStar true isWhiteSpace; Regex.REol])
    true false 0.

(** [/class='badge[^']*'[^>]*>\s*([^<]+?)\s*<\/span>/i], the apostrophe
    standing for the double quote as in [dq]. *)
Definition badgeRe : Regex.RegExp :=
  Regex.mkRegExp
    (Regex.rseq [Regex.lit (dq "class='badge"); Regex.RStar true (isNot 34);
                 Regex.lit (dq "'"); Regex.RStar true (isNot 62);
                 Regex.lit (js ">"); Regex.RStar true isWhiteSpace;
                 Regex.RGroup 1 (Regex.plus false (isNot 60));
                 Regex.RStar true isWhiteSpace; Regex.lit (js "</span>")])
    true false 1.

(** [/src='(https:\/\/smartbuyreviews-instructions-2026\.s3[^']+)'/i], the
    apostrophe standing for the double quote. *)
Definition imgRe : Regex.RegExp :=
  Regex.mkRegExp
    (Regex.rseq [Regex.lit (dq "src='");
                 Regex.RGroup 1
                   (Regex.RSeq
                      (Regex.lit (js "https://smartbuyreviews-instructions-2026.s3"))
                      (Regex.plus true (isNot 34)));
                 Regex.lit (dq "'")])
    true false 1.

(** [/<meta\s+name='description'\s+content='([^']+)'/i], the apostrophe
    standing for the double quote. *)
Definition descRe : Regex.RegExp :=
  Regex.mkRegExp
    (Regex.rseq [Regex.lit (js "<meta"); Regex.plus true isWhiteSpace;
                 Regex.lit (dq "name='description'");
                 Regex.plus true isWhiteSpace;
                 Regex.lit (dq "content='");
                 Regex.RGroup 1 (Regex.plus true (isNot 34));
                 Regex.lit (dq "'")])
    true false 1.

(** [/^Honest review of .+?\.\s*/i] *)
Definition honestRe : Regex.RegExp :=
  Regex.mkRegExp
    (Regex.rseq [Regex.RBol; Regex.lit (js "Honest review of ");
                 Regex.plus false isDot; Regex.lit (js ".");
                 Regex.RStar true isWhiteSpace])
    true false 0.

(** The excerpt computed from the content of the meta description. *)
Definition excerptOf (content : jsstring) : jsstring :=
  let excerpt := trim (Regex.replace spacesRe (js " ") content) in
  let excerpt := Regex.replace honestRe [] excerpt in
  let excerpt :=
    match excerpt with
    | [] => trim (Regex.replace spacesRe (js " ") content)
    | _ :: _ => excerpt
    end in
  if (120 <? length excerpt)%nat then take 117 excerpt ++ js "..."
  else excerpt.

(** [extractMeta]; [today] is the date of the clock, [None] is null. *)
Definition extractMeta (today : jsstring) (filePath : DirEntry)
    : option ReviewMetadata :=
  let html := d_html filePath in
  let fileName := d_name filePath in
  let title :=
    match Regex.exec titleRe html with
    | Some titleMatch =>
        trim (Regex.replace suffixRe []
                (Regex.replace spacesRe (js " ")
                   (Regex.nthCapture (Regex.captures titleMatch) 1)))
    | None => []
    end in
  match title with
  | [] => None
  | _ :: _ =>
      let category :=
        match Regex.exec badgeRe html with
        | Some catMatch => trim (Regex.nthCapture (Regex.captures catMatch) 1)
        | None => js "General"
        end in
      let image :=
        match Regex.exec imgRe html with
        | Some imgMatch => Regex.nthCapture (Regex.captures imgMatch) 1
        | None => []
        end in
      let excerpt :=
        match Regex.exec descRe html with
        | Some descMatch =>
            excerptOf (Regex.nthCapture (Regex.captures descMatch) 1)
        | None => []
        end in
      let date :=
        match d_gitlog filePath with
        | Some out =>
            match trim out with
            | [] => today
            | gitDate => splitHead 84 gitDate
            end
        | None => today
        end in
      let url := js "/regions/en/reviews/" ++ fileName in
      Some (mkMeta title url category excerpt image date)
  end.

(** [/const reviewsData = \[[\s\S]*?\];\s*\/\/ END REVIEWS DATA/] *)
Definition marker : Regex.RegExp :=
  Regex.mkRegExp
    (Regex.rseq [Regex.lit (js "const reviewsData = [");
                 Regex.RStar false isAny; Regex.lit (js "];");
                 Regex.RStar true isWhiteSpace;
                 Regex.lit (js "// END REVIEWS DATA")])
    false false 0.

Definition formatReview (r : ReviewMetadata) : jsstring :=
  js "      {
        title: " ++ JSON_stringify (title r) ++ js ",
        url: " ++ JSON_stringify (url r) ++ js ",
        category: " ++ JSON_stringify (category r) ++ js ",
        excerpt: " ++ JSON_stringify (excerpt r) ++ js ",
        image: " ++ JSON_stringify (image r) ++ js ",
        date: " ++ JSON_stringify (date r) ++ js "
      }".

Definition updateIndex (reviews : list ReviewMetadata) : Proc bool :=
  content <- readFileSync INDEX_FILE ;;
  (if negb (Regex.test marker content) then
     console_error (js "ERROR: Could not find reviewsData marker in index.html") ;;
     process_exit 1
   else ret tt) ;;
  let formatted := join (js "," ++ nl) (map formatReview reviews) in
  let newBlock :=
    js "const reviewsData = [" ++ nl ++ formatted ++ nl
      ++ js "    ]; // END REVIEWS DATA" in
  let updated := Regex.replace marker newBlock content in
  if negb (str_eqb updated content) then
    writeFileSync INDEX_FILE updated ;;
    console_log (js "Updated index.html with " ++ showNat (length reviews)
                   ++ js " reviews") ;;
    ret true
  else
    console_log (js "index.html already up to date") ;;
    ret false.

(** [/(<loc>https:\/\/smartbuyreviews\.co\.uk\/regions\/en\/reviews\/<\/loc>\s*<lastmod>)[^<]+(<\/lastmod>)/] *)
Definition lastmodRe : Regex.RegExp :=
  Regex.mkRegExp
    (Regex.rseq
       [Regex.RGroup 1
          (Regex.rseq
             [Regex.lit (js "<loc>https://smartbuyreviews.co.uk/regions/en/reviews/</loc>");
              Regex.RStar true isWhiteSpace; Regex.lit (js "<lastmod>")]);
        Regex.plus true (isNot 60);
        Regex.RGroup 2 (Regex.lit (js "</lastmod>"))])
    false false 2.

Definition formatEntry (r : ReviewMetadata) : jsstring :=
  js "  <url>
    <loc>" ++ SITE_URL ++ url r ++ js "</loc>
    <lastmod>" ++ date r ++ js "</lastmod>
    <changefreq>monthly</changefreq>
    <priority>0.7</priority>
  </url>".

Definition startMarker : jsstring :=
  js "<!-- Reviews - AUTO-GENERATED SECTION START -->".
Definition endMarker : jsstring :=
  js "<!-- Reviews - AUTO-GENERATED SECTION END -->".

Definition updateSitemap (reviews : list ReviewMetadata) : Proc bool :=
  content <- readFileSync SITEMAP_FILE ;;
  match indexOf content startMarker, indexOf content endMarker with
  | Some startIdx, Some endIdx =>
      let entries := join nl (map formatEntry reviews) in
      let before := take (startIdx + length startMarker) content in
      let after := drop endIdx content in
      let updated := before ++ nl ++ entries ++ nl ++ js "  " ++ after in
      today <- today ;;
      let finalContent :=
        Regex.replace lastmodRe (js "$1" ++ today ++ js "$2") updated in
      if negb (str_eqb finalContent content) then
        writeFileSync SITEMAP_FILE finalContent ;;
        console_log (js "Updated sitemap.xml with " ++ showNat (length reviews)
                       ++ js " review URLs") ;;
        ret true
      else
        console_log (js "sitemap.xml already up to date") ;;
        ret false
  | _, _ =>
      console_error (js "ERROR: Could not find sitemap markers") ;;
      process_exit 1
  end.

(** [Array.prototype.sort] with a comparator: a stable sort, here by
    insertion (for a consistent comparator every stable sort returns the
    same array). *)
Fixpoint insertSorted {A : Type} (cmp : A -> A -> Z) (x : A) (l : list A)
    : list A :=
  match l with
  | [] => [x]
  | y :: l' =>
      if (cmp x y <=? 0)%Z then x :: y :: l' else y :: insertSorted cmp x l'
  end.

Definition sort {A : Type} (cmp : A -> A -> Z) (l : list A) : list A :=
  fold_right (insertSorted cmp) [] l.

Section Script.

(** [String.prototype.localeCompare] is left to the platform (the collation
    of the host); the script applies it to dates only. *)
Variable localeCompare : jsstring -> jsstring -> Z.

(** The records the two artifacts are built from. *)
Definition collectReviews (today : jsstring) (files : list DirEntry)
    : list ReviewMetadata :=
  sort (fun a b => localeCompare (date b) (date a))
       (omap (extractMeta today) files).

(** The body of the script. *)
Definition main : Proc unit :=
  files <- getReviewFiles ;;
  console_log (js "Found " ++ showNat (length files) ++ js " review files") ;;
  today <- today ;;
  let reviews := collectReviews today files in
  console_log (js "Extracted metadata for " ++ showNat (length reviews)
                 ++ js " reviews") ;;
  indexChanged <- updateIndex reviews ;;
  sitemapChanged <- updateSitemap reviews ;;
  if indexChanged || sitemapChanged then
    console_log (js "Files updated successfully")
  else
    console_log (js "No changes needed").

(** A run of the script: the exit status of the process and the final
    state. *)
Definition run (w : World) : nat * World :=
  match main w with
  | Returned _ w' => (0, w')
  | Exited status w' => (status, w')
  end.

End Script.

End Sync.

(** ** The handlers registered by [attachEventListeners]

    The dropdowns of the document are its [.menu-submenu] elements (v3.1)
    or its [.menu-dropdown] elements (v4.0), in document order; the state
    of a dropdown is whether its class list has [hidden].  An item that
    has both its button and its dropdown gets handlers; it is named by the
    index of its dropdown. *)

Module V31Events.

(** A click on the button of an item, or a click that reaches the document
    ([insideItem]: [e.target.closest('.menu-item--with-children')] is not
    null).  The button handler stops the propagation, so a click on a
    button does not reach the document. *)
Inductive Event : Type :=
| ButtonClick (submenu : nat)
| DocumentClick (insideItem : bool).

Definition buttonClick (submenu : nat) (hidden : list bool) : list bool :=
  let hidden :=
    imap (fun sm h => if Nat.eqb sm submenu then h else true) hidden in
  alter negb submenu hidden.

Definition documentClick (insideItem : bool) (hidden : list bool)
    : list bool :=
  if negb insideItem then (fun _ => true) <$> hidden else hidden.

Definition handle (hidden : list bool) (e : Event) : list bool :=
  match e with
  | ButtonClick submenu => buttonClick submenu hidden
  | DocumentClick insideItem => documentClick insideItem hidden
  end.

End V31Events.

Module V40Events.

(** The document with the timers of [setTimeout] that have not fired and
    have not been cleared (identifier and the dropdown the callback hides),
    and the next identifier.  Identifiers are positive, so a stored
    identifier is truthy. *)
Record Document : Type := mkDocument {
  hidden : list bool;
  timers : gmap nat nat;
  nextTimer : nat
}.

Inductive Event : Type :=
| MouseEnter (dropdown : nat)
| MouseLeave (dropdown : nat)
| ButtonClick (dropdown : nat)
| DocumentClick (insideItem : bool)
| TimerFires (id : nat).

Definition setCloseTimeout (t : option nat) (self : V40.SmartNavigationMenu)
    : V40.SmartNavigationMenu :=
  V40.mkMenu (V40.menuContainerId self) (V40.menuDataUrl self)
             (V40.menuData self) (V40.currentLang self) t.

Definition mouseenter (dropdown : nat) (self : V40.SmartNavigationMenu)
    (d : Document) : V40.SmartNavigationMenu * Document :=
  let '(self, d) :=
    match V40.closeTimeout self with
    | Some t =>
        (setCloseTimeout None self,
         mkDocument (hidden d) (delete t (timers d)) (nextTimer d))
    | None => (self, d)
    end in
  let others :=
    imap (fun i h => if Nat.eqb i dropdown then h else true) (hidden d) in
  (self, mkDocument (<[dropdown := false]> others) (timers d) (nextTimer d)).

Definition mouseleave (dropdown : nat) (self : V40.SmartNavigationMenu)
    (d : Document) : V40.SmartNavigationMenu * Document :=
  (setCloseTimeout (Some (nextTimer d)) self,
   mkDocument (hidden d) (<[nextTimer d := dropdown]> (timers d))
              (S (nextTimer d))).

(** The callback of a timer: [dropdown.classList.add('hidden')]. *)
Definition timerFires (id : nat) (d : Document) : Document :=
  match timers d !! id with
  | Some dropdown =>
      mkDocument (<[dropdown := true]> (hidden d)) (delete id (timers d))
                 (nextTimer d)
  | None => d
  end.

Definition buttonClick (dropdown : nat) (d : Document) : Document :=
  let isHidden :=
    match hidden d !! dropdown with
    | Some h => h
    | None => false
    end in
  let all := (fun _ => true) <$> hidden d in
  mkDocument (if isHidden then <[dropdown := false]> all else all)
             (timers d) (nextTimer d).

Definition documentClick (insideItem : bool) (d : Document) : Document :=
  if negb insideItem
  then mkDocument ((fun _ => true) <$> hidden d) (timers d) (nextTimer d)
  else d.

Definition handle (s : V40.SmartNavigationMenu * Document) (e : Event)
    : V40.SmartNavigationMenu * Document :=
  match e with
  | MouseEnter dropdown => mouseenter dropdown (fst s) (snd s)
  | MouseLeave dropdown => mouseleave dropdown (fst s) (snd s)
  | ButtonClick dropdown => (fst s, buttonClick dropdown (snd s))
  | DocumentClick insideItem => (fst s, documentClick insideItem (snd s))
  | TimerFires id => (fst s, timerFires id (snd s))
  end.

End V40Events.

(** * Vocabulary of the specification

    Notions the properties below are stated with.  They are independent of
    the matcher: occurrences of a text are given by decompositions of the
    string. *)

(** [needle] occurs in [s]. *)
Definition occurs (needle s : jsstring) : Prop :=
  exists pre post, s = pre ++ needle ++ post.

(** The rest of [s] after the pattern characters [l], if [s] starts with
    them. *)
Fixpoint litMatch (ic : bool) (l s : jsstring) : option jsstring :=
  match l, s with
  | [], _ => Some s
  | c :: l', x :: s' =>
      if Regex.charMatches ic c x then litMatch ic l' s' else None
  | _ :: _, [] => None
  end.

(** A path segment [/regions/ab/] with the language code [ab]. *)
Definition segment (a b : N) : jsstring := js "/regions/" ++ [a; b] ++ js "/".

(** Does [s] start with a segment whose code is two lower-case letters?
    Returns the code and the text after the segment. *)
Definition segmentAt (s : jsstring) : option (N * N * jsstring) :=
  match litMatch false (js "/regions/") s with
  | Some (a :: b :: c :: rest) =>
      if isLower a && isLower b && (47 =? c)%N then Some (a, b, rest) else None
  | _ => None
  end.

(** The leftmost such segment of [s]: its index, code and the text after. *)
Fixpoint findSegment (s : jsstring) : option (nat * (N * N * jsstring)) :=
  match segmentAt s with
  | Some r => Some (0, r)
  | None =>
      match s with
      | [] => None
      | _ :: s' => option_map (fun '(i, r) => (S i, r)) (findSegment s')
      end
  end.

(** [s] has the segment [/regions/ab/], [a] and [b] lower-case letters, at
    index [i]. *)
Definition segment_at (s : jsstring) (i : nat) (a b : N) : Prop :=
  isLower a = true /\ isLower b = true /\
  exists pre post, s = pre ++ segment a b ++ post /\ length pre = i.

(** ... and no such segment starts earlier. *)
Definition first_segment_at (s : jsstring) (i : nat) (a b : N) : Prop :=
  segment_at s i a b /\ forall j a' b', segment_at s j a' b' -> i <= j.

Definition no_segment (s : jsstring) : Prop :=
  forall i a b, ~ segment_at s i a b.

(** A text without the dollar sign: as a replacement string it stands for
    itself.  Every language code made of letters is plain. *)
Definition plain (t : jsstring) : Prop := Forall (fun c => c <> 36%N) t.

(** [s] with the twelve characters at index [i] replaced by the segment of
    the language [lang]. *)
Definition withLanguage (s : jsstring) (i : nat) (lang : jsstring) : jsstring :=
  take i s ++ js "/regions/" ++ lang ++ js "/" ++ drop (i + 12) s.

(** The links of a piece of markup: target and text of each anchor. *)
Fixpoint anchors (s : jsstring) : list (jsstring * jsstring) :=
  match s with
  | [] => []
  | _ :: s' =>
      (if startsWith (dq "<a href='") s then
         let r := drop 9 s in
         [(takeWhile (isNot 34) r,
           takeWhile (isNot 60) (drop 1 (dropWhile (isNot 62) r)))]
       else []) ++ anchors s'
  end.

(** The two variants side by side: the widgets hold the same data, and the
    pages agree on everything but the markup inside the elements. *)
Definition same_state (w31 : V31.SmartNavigationMenu)
    (w40 : V40.SmartNavigationMenu) : Prop :=
  V31.menuContainerId w31 = V40.menuContainerId w40 /\
  V31.menuDataUrl w31 = V40.menuDataUrl w40 /\
  V31.menuData w31 = V40.menuData w40 /\
  V31.currentLang w31 = V40.currentLang w40.

Definition same_page (b31 b40 : Page.Browser) : Prop :=
  Page.pathname b31 = Page.pathname b40 /\
  Page.localStorage b31 = Page.localStorage b40 /\
  Page.console b31 = Page.console b40 /\
  Page.href b31 = Page.href b40 /\
  Page.listeners b31 = Page.listeners b40 /\
  forall id, is_Some (Page.dom b31 !! id) <-> is_Some (Page.dom b40 !! id).

(** Markers of a dropdown or of the language switcher in the markup of
    either theme. *)
Definition dropdownMarkers : list jsstring :=
  [js "<button"; js "menu-item--with-children"; js "menu-submenu";
   js "menu-dropdown"; js "group"; js "data-lang"].

(** The listing page has its data block: the start token, later [];],
    white space, and the end comment. *)
Definition listing_markers (content : jsstring) : Prop :=
  exists pre mid ws post,
    content = pre ++ js "const reviewsData = [" ++ mid ++ js "];" ++ ws
                ++ js "// END REVIEWS DATA" ++ post /\
    Forall (fun c => isWhiteSpace c = true) ws.

(** The sitemap has both comments of its generated section. *)
Definition sitemap_markers (content : jsstring) : Prop :=
  occurs Sync.startMarker content /\ occurs Sync.endMarker content.

(** The review files of a run and the records the script builds from
    them (what [main] passes to [updateIndex] and [updateSitemap]). *)
Definition reviewFilesOf (w : Sync.World) : list Sync.DirEntry :=
  filter (fun f => endsWith (Sync.d_name f) (js ".html")
                   && negb (str_eqb (Sync.d_name f) (js "index.html")))
         (Sync.reviewsDir w).

Definition reviewsOf (localeCompare : jsstring -> jsstring -> Z)
    (w : Sync.World) : list Sync.ReviewMetadata :=
  Sync.collectReviews localeCompare (splitHead 84 (Sync.now w))
                      (reviewFilesOf w).

(** [w'] differs from [w] at most in the standard output. *)
Definition untouched (w w' : Sync.World) : Prop :=
  Sync.reviewsDir w' = Sync.reviewsDir w /\
  Sync.indexHtml w' = Sync.indexHtml w /\
  Sync.sitemapXml w' = Sync.sitemapXml w /\
  Sync.now w' = Sync.now w /\
  Sync.stderr w' = Sync.stderr w /\
  Sync.writes w' = Sync.writes w.

(** The text after the first full stop of [s], when no line terminator
    comes before it. *)
Fixpoint afterFullStop (s : jsstring) : option jsstring :=
  match s with
  | [] => None
  | c :: s' =>
      if (c =? 46)%N then Some s'
      else if isDot c then afterFullStop s' else None
  end.

(** [s] without a leading phrase [Honest review of <text>.] (in any case)
    and the white space after it; [<text>] is the shortest non-empty text
    on one line that a full stop follows.  [s] itself when it does not
    start with such a phrase. *)
Definition stripHonestPhrase (s : jsstring) : jsstring :=
  match litMatch true (js "Honest review of ") s with
  | Some (c :: rest) =>
      if isDot c then
        match afterFullStop rest with
        | Some r => dropWhile isWhiteSpace r
        | None => s
        end
      else s
  | _ => s
  end.

(** The description as the script normalises it: runs of white space
    collapsed to one space, trimmed. *)
Definition normalised (content : jsstring) : jsstring :=
  trim (Regex.replace Sync.spacesRe (js " ") content).

(** Lexicographic comparison of two strings by code units: -1, 0 or 1. *)
Fixpoint lexCompare (a b : jsstring) : Z :=
  match a, b with
  | [], [] => 0
  | [], _ :: _ => -1
  | _ :: _, [] => 1
  | x :: a', y :: b' =>
      if (x <? y)%N then -1 else if (y <? x)%N then 1 else lexCompare a' b'
  end%Z.

(** A date [YYYY-MM-DD]. *)
Definition isoDate (s : jsstring) : bool :=
  match s with
  | [y1; y2; y3; y4; h1; m1; m2; h2; d1; d2] =>
      forallb isDigit [y1; y2; y3; y4; m1; m2; d1; d2]
      && (h1 =? 45)%N && (h2 =? 45)%N
  | _ => false
  end.

(** What is assumed of the platform's [localeCompare]: on two dates it
    orders as the code units do. *)
Definition orders_dates (localeCompare : jsstring -> jsstring -> Z) : Prop :=
  forall a b, isoDate a = true -> isoDate b = true ->
    Z.sgn (localeCompare a b) = lexCompare a b.

(** Newest first: [b] is not later than [a]. *)
Definition notLater (a b : Sync.ReviewMetadata) : Prop :=
  (lexCompare (Sync.date b) (Sync.date a) <= 0)%Z.

(** The listing page and the sitemap as a run writes them for the records
    [rs], in their order. *)
Definition renderedListing (rs : list Sync.ReviewMetadata) (content : jsstring)
    : jsstring :=
  Regex.replace Sync.marker
    (js "const reviewsData = [" ++ Sync.nl
       ++ join (js "," ++ Sync.nl) (map Sync.formatReview rs) ++ Sync.nl
       ++ js "    ]; // END REVIEWS DATA")
    content.

Definition renderedSitemap (rs : list Sync.ReviewMetadata)
    (today content : jsstring) : jsstring :=
  match indexOf content Sync.startMarker, indexOf content Sync.endMarker with
  | Some startIdx, Some endIdx =>
      Regex.replace Sync.lastmodRe (js "$1" ++ today ++ js "$2")
        (take (startIdx + length Sync.startMarker) content ++ Sync.nl
           ++ join Sync.nl (map Sync.formatEntry rs) ++ Sync.nl ++ js "  "
           ++ drop endIdx content)
  | _, _ => content
  end.

(** [x] comes before [y] in [s]. *)
Definition before (x y s : jsstring) : Prop :=
  exists i j, indexOf s x = Some i /\ indexOf s y = Some j /\ i < j.

(** [needle] occurs in [s] in some letter case. *)
Definition occursAnyCase (needle s : jsstring) : Prop :=
  exists pre t post,
    s = pre ++ t ++ post /\ map canonicalize t = map canonicalize needle.

(** The state [w] with another directory listing. *)
Definition withDir (dir : list Sync.DirEntry) (w : Sync.World) : Sync.World :=
  Sync.mkWorld dir (Sync.indexHtml w) (Sync.sitemapXml w) (Sync.now w)
               (Sync.stdout w) (Sync.stderr w) (Sync.writes w).

(** Reading a string literal back, for the escapes [JSON.stringify]
    writes: the value of a hexadecimal digit, and the text between the
    quotes of a literal ([None] when it is not of that form). *)
Definition hexValue (d : N) : option N :=
  if isDigit d then Some (d - 48)%N
  else if ((97 <=? d) && (d <=? 102))%N then Some (d - 87)%N
  else None.

Fixpoint unquoteBody (s : jsstring) : option jsstring :=
  match s with
  | [] => Some []
  | c :: s1 =>
      if (c =? 34)%N then None
      else if negb (c =? 92)%N then option_map (cons c) (unquoteBody s1)
      else
        match s1 with
        | [] => None
        | e :: s2 =>
            if (e =? 98)%N then option_map (cons 8%N) (unquoteBody s2)
            else if (e =? 116)%N then option_map (cons 9%N) (unquoteBody s2)
            else if (e =? 110)%N then option_map (cons 10%N) (unquoteBody s2)
            else if (e =? 102)%N then option_map (cons 12%N) (unquoteBody s2)
            else if (e =? 114)%N then option_map (cons 13%N) (unquoteBody s2)
            else if (e =? 34)%N then option_map (cons 34%N) (unquoteBody s2)
            else if (e =? 92)%N then option_map (cons 92%N) (unquoteBody s2)
            else if (e =? 117)%N then
              match s2 with
              | h3 :: h2 :: h1 :: h0 :: s6 =>
                  match hexValue h3, hexValue h2, hexValue h1, hexValue h0 with
                  | Some v3, Some v2, Some v1, Some v0 =>
                      option_map (cons (4096 * v3 + 256 * v2 + 16 * v1 + v0)%N)
                                 (unquoteBody s6)
                  | _, _, _, _ => None
                  end
              | _ => None
              end
            else None
        end
  end.

Definition unquote (s : jsstring) : option jsstring :=
  match s with
  | 34%N :: s' =>
      match rev s' with
      | 34%N :: b => unquoteBody (rev b)
      | _ => None
      end
  | _ => None
  end.

(** ** Concrete pages *)

Module Samples.
Import Page.

Definition browser (path : jsstring) (storage : gmap jsstring jsstring)
    : Browser :=
  mkBrowser path storage {[js "dynamic-menu" := []]} [] None 0.

Definition prefers (lang : jsstring) : gmap jsstring jsstring :=
  {[js "preferredLanguage" := lang]}.

Definition menu31 (lang : jsstring) : V31.SmartNavigationMenu :=
  V31.mkMenu (js "dynamic-menu") (js "/data/menu.json") None lang.

Definition menu40 (lang : jsstring) : V40.SmartNavigationMenu :=
  V40.mkMenu (js "dynamic-menu") (js "/data/menu.json") None lang None.

Definition widgetConfig : MenuConfiguration :=
  mkConfig
    (Some [mkReview (js "Widget") (js "/regions/en/reviews/widget.html")])
    (Some [mkLanguage (js "en") (js "English") (V40.regionalFlag 6 1);
           mkLanguage (js "es") (js "Spanish") (V40.regionalFlag 4 18)]).

(** The widgets after the configuration above has been loaded. *)
Definition loaded31 (lang : jsstring) : V31.SmartNavigationMenu :=
  V31.setMenuData widgetConfig (menu31 lang).

Definition loaded40 (lang : jsstring) : V40.SmartNavigationMenu :=
  V40.setMenuData widgetConfig (menu40 lang).

(** Upper case of the ASCII letters, standing in for the platform's
    [toUpperCase] where a concrete page is evaluated. *)
Definition asciiUpper (s : jsstring) : jsstring := map canonicalize s.

End Samples.

(** ** A concrete repository *)

Module SampleRepo.
Import Sync.

(** A review page with the given title and meta description. *)
Definition page (t d : jsstring) : jsstring :=
  dq "<html><head><title>" ++ t ++ dq " Review - Smart Buy Reviews UK 2026</title>
<meta name='description' content='" ++ d ++ dq "'></head>
<body><span class='badge badge-blue'>Kitchen</span></body></html>".

Definition entry (name t d stamp : jsstring) : DirEntry :=
  mkEntry name (page t d) (Some stamp).

(** A listing page with an empty data block. *)
Definition listing : jsstring :=
  js "<script>
    const reviewsData = [
    ]; // END REVIEWS DATA
</script>".

(** A sitemap with the entry of the listing page and an empty generated
    section. *)
Definition sitemap : jsstring :=
  js "<urlset>
  <url>
    <loc>https://smartbuyreviews.co.uk/regions/en/reviews/</loc>
    <lastmod>2026-01-01</lastmod>
  </url>
  <!-- Reviews - AUTO-GENERATED SECTION START -->
  <!-- Reviews - AUTO-GENERATED SECTION END -->
</urlset>".


Definition world (dir : list DirEntry) (index sitemap : jsstring) : World :=
  mkWorld dir index sitemap (js "2026-11-01T12:00:00.000Z") [] [] [].

Definition kettle : DirEntry :=
  entry (js "kettle.html") (js "Acme Kettle")
        (js "Honest review of the Acme Kettle. Boils fast and pours well.")
        (js "2025-01-05T10:00:00+00:00").

(** A review page whose description has a dollar sign before an HTML
    entity. *)
Definition kettleDollar : DirEntry :=
  entry (js "kettle.html") (js "Acme Kettle")
        (js "Honest review of the Acme Kettle. Costs US$&nbsp;20 and boils fast.")
        (js "2025-01-05T10:00:00+00:00").

(** A review page whose description has more than 120 characters, the
    leading phrase included. *)
Definition blender : DirEntry :=
  entry (js "blender.html") (js "Acme Turbo Blender")
        (js "Honest review of the Acme Turbo Blender 3000 kitchen appliance. Powerful motor, easy to clean, but rather loud at full speed.")
        (js "2026-03-01T09:30:00+00:00").

(** A review page whose description stays longer than 120 characters. *)
Definition toaster : DirEntry :=
  entry (js "toaster.html") (js "Acme Toaster")
        (js "Honest review of the Acme Toaster. Four wide slots, seven browning levels, a defrost setting and a crumb tray that slides out for cleaning; it is not cheap.")
        (js "2024-11-30T18:00:00+00:00").

(** Three review files, last changed on 2025-01-05, 2026-03-01 and
    2024-11-30. *)
Definition threeReviews : World :=
  world [kettle; blender; toaster] listing sitemap.

(** A file of the reviews directory that is no review page yet. *)
Definition draft : DirEntry :=
  mkEntry (js "draft.html") (js "<h1>Draft</h1>") None.

(** The state a later run starts from: the files as the earlier run left
    them, fresh output streams. *)
Definition again (w : World) : World :=
  mkWorld (reviewsDir w) (indexHtml w) (sitemapXml w) (now w) [] [] [].

End SampleRepo.


(** The texts a pattern stands for: [accepts ic r pos c rest] says that [c],
    found at index [pos] and followed by [rest], is in the language of
    [r]. *)
Fixpoint accepts (ic : bool) (r : Regex.regex) (pos : nat)
    (c rest : jsstring) : Prop :=
  match r with
  | Regex.REmpty => c = []
  | Regex.RChar ch => exists x, c = [x] /\ Regex.charMatches ic ch x = true
  | Regex.RClass p => exists x, c = [x] /\ p x = true
  | Regex.RSeq a b =>
      exists c1 c2,
        c = c1 ++ c2 /\ accepts ic a pos c1 (c2 ++ rest) /\
        accepts ic b (pos + length c1) c2 rest
  | Regex.RStar _ p => Forall (fun x => p x = true) c
  | Regex.RGroup _ a => accepts ic a pos c rest
  | Regex.RBol => c = [] /\ pos = 0
  | Regex.REol => c = [] /\ rest = []
  end.


(** The text of the records in the data block ([formatted] in
    [updateIndex]). *)
Definition recordsText (rs : list Sync.ReviewMetadata) : jsstring :=
  join (js "," ++ Sync.nl) (map Sync.formatReview rs).

(** [s] with every run of white space replaced by one space; [inRun] says
    that the character before [s] was white space. *)
Fixpoint collapseFrom (inRun : bool) (s : jsstring) : jsstring :=
  match s with
  | [] => []
  | c :: s' =>
      if isWhiteSpace c then
        if inRun then collapseFrom true s' else 32%N :: collapseFrom true s'
      else c :: collapseFrom false s'
  end.

(** The only white space of [s] is the space character, and no two spaces
    follow each other. *)
Fixpoint singleSpaced (s : jsstring) : bool :=
  match s with
  | [] => true
  | c :: s' =>
      (if isWhiteSpace c
       then (c =? 32)%N
            && match s' with
               | d :: _ => negb (isWhiteSpace d)
               | [] => true
               end
       else true) && singleSpaced s'
  end.

(** At most one dropdown is shown. *)
Definition atMostOneOpen (hidden : list bool) : Prop :=
  forall i j, hidden !! i = Some false -> hidden !! j = Some false -> i = j.

(** The page as rendered: [n] dropdowns, all hidden, no timer pending. *)
Definition rendered40 (n : nat) : V40Events.Document :=
  V40Events.mkDocument (replicate n true) ∅ 1.

(** Event sequences of a pointer that is over at most one item at a time:
    it enters an item only from outside the items and leaves only an item
    it is over.  [over] says whether it is over an item at the start. *)
Fixpoint physical (over : bool) (es : list V40Events.Event) : bool :=
  match es with
  | [] => true
  | V40Events.MouseEnter _ :: es' => negb over && physical true es'
  | V40Events.MouseLeave _ :: es' => over && physical false es'
  | _ :: es' => physical over es'
  end.

(** [accepts] with the captures: [caps] are the groups set while [c] is
    matched, the latest first. *)
Fixpoint captured (ic : bool) (r : Regex.regex) (pos : nat)
    (c rest : jsstring) (caps : list (nat * jsstring)) : Prop :=
  match r with
  | Regex.REmpty => c = [] /\ caps = []
  | Regex.RChar ch =>
      (exists x, c = [x] /\ Regex.charMatches ic ch x = true) /\ caps = []
  | Regex.RClass p => (exists x, c = [x] /\ p x = true) /\ caps = []
  | Regex.RSeq a b =>
      exists c1 c2 k1 k2,
        c = c1 ++ c2 /\ captured ic a pos c1 (c2 ++ rest) k1 /\
        captured ic b (pos + length c1) c2 rest k2 /\ caps = k2 ++ k1
  | Regex.RStar _ p => Forall (fun x => p x = true) c /\ caps = []
  | Regex.RGroup i a => exists k, captured ic a pos c rest k /\ caps = (i, c) :: k
  | Regex.RBol => (c = [] /\ pos = 0) /\ caps = []
  | Regex.REol => (c = [] /\ rest = []) /\ caps = []
  end.

(** [x] is [a] up to the case of ASCII letters. *)
Definition sameAnyCase (a x : jsstring) : Prop :=
  Forall2 (fun p q => Regex.charMatches true p q = true) a x.

(** * Properties *)

Import Regex.

Lemma rmatch_lit ic l pos s caps k :
  rmatch ic (lit l) (MS pos s caps) k =
  match litMatch ic l s with
  | Some rest => k (MS (pos + length l) rest caps)
  | None => None
  end.
Proof.
  revert pos s. induction l as [|c l IH]; intros pos s; simpl.
  - by rewrite Nat.add_0_r.
  - destruct s as [|x s]; [done|].
    destruct (charMatches ic c x); [|done].
    rewrite IH. by replace (S pos + length l) with (pos + S (length l)) by lia.
Qed.

Lemma litMatch_exact l s rest :
  litMatch false l s = Some rest <-> s = l ++ rest.
Proof.
  revert s. induction l as [|c l IH]; intros s; simpl.
  - split; congruence.
  - destruct s as [|x s]; [split; [done|discriminate]|].
    unfold charMatches. destruct (N.eqb_spec c x) as [->|Hne].
    + rewrite IH. split; [by intros ->|by intros [= ->]].
    + split; [done|]. intros [= ? ?]. done.
Qed.

Lemma segment_app a b rest :
  segment a b ++ rest = js "/regions/" ++ a :: b :: 47%N :: rest.
Proof. reflexivity. Qed.

Lemma segmentAt_spec s a b rest :
  segmentAt s = Some (a, b, rest) <->
  isLower a = true /\ isLower b = true /\ s = segment a b ++ rest.
Proof.
  rewrite segment_app. unfold segmentAt.
  destruct (litMatch false (js "/regions/") s) as [t|] eqn:E.
  - apply litMatch_exact in E. subst s.
    split.
    + destruct t as [|a' [|b' [|c t]]]; try done.
      destruct (isLower a') eqn:Ea; destruct (isLower b') eqn:Eb;
        destruct (N.eqb_spec 47 c) as [<-|Hc]; simpl; try done.
      by intros [= -> -> ->].
    + intros (Ha & Hb & H). apply app_inv_head in H. subst t.
      by rewrite Ha, Hb, N.eqb_refl.
  - split; [done|]. intros (_ & _ & H).
    apply litMatch_exact in H. congruence.
Qed.

Lemma rmatch_seq ic a b st k :
  rmatch ic (RSeq a b) st k = rmatch ic a st (fun st' => rmatch ic b st' k).
Proof. reflexivity. Qed.

Lemma rmatch_regionRe pos s caps k :
  rmatch false (body V31.regionRe) (MS pos s caps) k =
  match segmentAt s with
  | Some (a, b, rest) => k (MS (pos + 12) rest caps)
  | None => None
  end.
Proof.
  unfold V31.regionRe, segmentAt. cbn [body rseq].
  rewrite rmatch_seq, rmatch_lit.
  destruct (litMatch false (js "/regions/") s) as [t|]; [|done].
  change (js "/") with [47%N]. change (length (js "/regions/")) with 9.
  destruct t as [|a [|b [|c t]]];
    cbn [rmatch ms_rest ms_pos ms_caps lit]; try done.
  - by repeat case_match.
  - by repeat case_match.
  - destruct (isLower a), (isLower b); cbn [andb]; try done.
    unfold charMatches. destruct (47 =? c)%N; [|done].
    do 2 f_equal. lia.
Qed.

Lemma rmatch_pathRe pos s k :
  rmatch false (body V31.pathRe) (MS pos s []) k =
  match segmentAt s with
  | Some (a, b, rest) => k (MS (pos + 12) rest [(1, [a; b])])
  | None => None
  end.
Proof.
  unfold V31.pathRe, segmentAt. cbn [body rseq].
  rewrite rmatch_seq, rmatch_lit.
  destruct (litMatch false (js "/regions/") s) as [t|]; [|done].
  change (js "/") with [47%N]. change (length (js "/regions/")) with 9.
  destruct t as [|a [|b [|c t]]];
    cbn [rmatch ms_rest ms_pos ms_caps lit]; try done.
  - by repeat case_match.
  - by repeat case_match.
  - destruct (isLower a), (isLower b); cbn [andb]; try done.
    unfold charMatches. destruct (47 =? c)%N; [|done].
    replace (S (S (pos + 9)) - (pos + 9)) with 2 by lia. cbn [take].
    do 2 f_equal. lia.
Qed.

Lemma segmentAt_take s a b rest :
  segmentAt s = Some (a, b, rest) -> take 12 s = segment a b /\ drop 12 s = rest.
Proof.
  intros H. apply segmentAt_spec in H as (_ & _ & ->). done.
Qed.

Lemma execFrom_regionRe pos s :
  execFrom V31.regionRe pos s =
  match findSegment s with
  | Some (i, (a, b, _)) => Some (mkMatch (pos + i) (segment a b) [])
  | None => None
  end.
Proof.
  revert pos. induction s as [|c s IH]; intros pos.
  - done.
  - cbn [execFrom findSegment]. change (ignoreCase V31.regionRe) with false.
    rewrite rmatch_regionRe.
    destruct (segmentAt (c :: s)) as [[[a b] rest]|] eqn:E.
    + cbn [ms_pos]. replace (pos + 12 - pos) with 12 by lia.
      apply segmentAt_take in E as [-> _]. by rewrite Nat.add_0_r.
    + rewrite IH. destruct (findSegment s) as [[i [[a b] r]]|]; [|done].
      simpl. do 2 f_equal. lia.
Qed.

Lemma execFrom_pathRe pos s :
  execFrom V31.pathRe pos s =
  match findSegment s with
  | Some (i, (a, b, _)) => Some (mkMatch (pos + i) (segment a b) [Some [a; b]])
  | None => None
  end.
Proof.
  revert pos. induction s as [|c s IH]; intros pos.
  - done.
  - cbn [execFrom findSegment]. change (ignoreCase V31.pathRe) with false.
    rewrite rmatch_pathRe.
    destruct (segmentAt (c :: s)) as [[[a b] rest]|] eqn:E.
    + cbn [ms_pos]. replace (pos + 12 - pos) with 12 by lia.
      apply segmentAt_take in E as [-> _]. by rewrite Nat.add_0_r.
    + rewrite IH. destruct (findSegment s) as [[i [[a b] r]]|]; [|done].
      simpl. do 2 f_equal. lia.
Qed.

Lemma segment_cons a b rest :
  segment a b ++ rest =
  [47; 114; 101; 103; 105; 111; 110; 115; 47]%N ++ a :: b :: 47%N :: rest.
Proof. reflexivity. Qed.

Lemma segment_length a b : length (segment a b) = 12.
Proof. reflexivity. Qed.

Lemma segmentAt_drop s i a b rest :
  segmentAt (drop i s) = Some (a, b, rest) <->
  segment_at s i a b /\ rest = drop (i + 12) s.
Proof.
  rewrite segmentAt_spec. unfold segment_at. split.
  - intros (Ha & Hb & Hd).
    assert (i <= length s) as Hi.
    { destruct (decide (i <= length s)); [done|].
      rewrite drop_ge in Hd by lia. discriminate. }
    split; [split; [done|split; [done|]]|].
    + exists (take i s), rest. rewrite <- Hd, take_drop.
      split; [done|]. rewrite length_take. lia.
    + rewrite <- drop_drop, Hd. by rewrite drop_app_length'.
  - intros ((Ha & Hb & pre & post & -> & <-) & ->).
    split; [done|split; [done|]].
    rewrite drop_app_length. f_equal.
    rewrite <- drop_drop, drop_app_length. by rewrite drop_app_length'.
Qed.

Lemma findSegment_spec s :
  match findSegment s with
  | Some (i, r) =>
      segmentAt (drop i s) = Some r /\
      forall j, j < i -> segmentAt (drop j s) = None
  | None => forall j, segmentAt (drop j s) = None
  end.
Proof.
  induction s as [|c s IH].
  - intros j. by rewrite drop_nil.
  - cbn [findSegment]. destruct (segmentAt (c :: s)) as [r|] eqn:E.
    + split; [done|]. intros j Hj. lia.
    + destruct (findSegment s) as [[i r]|]; cbn [option_map].
      * destruct IH as [H1 H2]. split; [done|].
        intros [|j] Hj; [done|]. apply H2. lia.
      * intros [|j]; [done|]. apply IH.
Qed.

Lemma findSegment_intro s i r :
  segmentAt (drop i s) = Some r ->
  (forall j, j < i -> segmentAt (drop j s) = None) ->
  findSegment s = Some (i, r).
Proof.
  intros H1 H2. pose proof (findSegment_spec s) as H.
  destruct (findSegment s) as [[i' r']|].
  - destruct H as [H3 H4].
    destruct (Nat.lt_trichotomy i i') as [Hlt|[->|Hgt]].
    + rewrite H4 in H1 by done. discriminate.
    + congruence.
    + rewrite H2 in H3 by done. discriminate.
  - rewrite H in H1. discriminate.
Qed.

Lemma findSegment_first s i a b rest :
  findSegment s = Some (i, (a, b, rest)) <->
  first_segment_at s i a b /\ rest = drop (i + 12) s.
Proof.
  split.
  - intros E. pose proof (findSegment_spec s) as H. rewrite E in H.
    destruct H as [H1 H2]. apply segmentAt_drop in H1 as [H1 ->].
    split; [split; [done|]|done].
    intros j a' b' Hj.
    destruct (decide (i <= j)); [done|].
    assert (segmentAt (drop j s) = Some (a', b', drop (j + 12) s)) as H3
      by by apply segmentAt_drop.
    rewrite H2 in H3 by lia. discriminate.
  - intros [[H1 H2] ->]. apply findSegment_intro.
    + by apply segmentAt_drop.
    + intros j Hj. destruct (segmentAt (drop j s)) as [[[a' b'] r]|] eqn:E; [|done].
      apply segmentAt_drop in E as [E _]. apply H2 in E. lia.
Qed.

Lemma findSegment_none s : findSegment s = None <-> no_segment s.
Proof.
  split.
  - intros E i a b H. pose proof (findSegment_spec s) as H'. rewrite E in H'.
    assert (segmentAt (drop i s) = Some (a, b, drop (i + 12) s)) as H3
      by by apply segmentAt_drop.
    rewrite H' in H3. discriminate.
  - intros H. pose proof (findSegment_spec s) as H'.
    destruct (findSegment s) as [[i [[a b] r]]|]; [|done].
    destruct H' as [H1 _]. apply segmentAt_drop in H1 as [H1 _].
    by apply H in H1.
Qed.

Lemma first_segment_compute s i a b rest :
  findSegment s = Some (i, (a, b, rest)) -> first_segment_at s i a b.
Proof. intros E. by apply findSegment_first in E as [H _]. Qed.

Lemma no_segment_compute s : findSegment s = None -> no_segment s.
Proof. apply findSegment_none. Qed.

Lemma findSegment_split s i a b rest :
  findSegment s = Some (i, (a, b, rest)) ->
  s = take i s ++ segment a b ++ rest /\ i + 12 <= length s /\
  isLower a = true /\ isLower b = true.
Proof.
  intros E. apply findSegment_first in E as [[(Ha & Hb & pre & post & -> & <-) _] ->].
  rewrite take_app_length. rewrite <- drop_drop, drop_app_length.
  rewrite drop_app_length'; [|done].
  rewrite !length_app, segment_length. split; [done|]. split; [lia|done].
Qed.

Lemma GetSubstitution_plain m s p caps t :
  plain t -> GetSubstitution m s p caps t = t.
Proof.
  induction 1 as [|c t Hc _ IH]; [done|].
  cbn [GetSubstitution]. destruct (N.eqb_spec c 36); [done|].
  cbn [negb]. by rewrite IH.
Qed.

Lemma replace_regionRe repl s :
  replace V31.regionRe repl s =
  match findSegment s with
  | Some (i, (a, b, rest)) =>
      take i s ++ GetSubstitution (segment a b) s i [] repl ++ rest
  | None => s
  end.
Proof.
  unfold replace, exec. change (global V31.regionRe) with false. cbv iota.
  rewrite execFrom_regionRe.
  destruct (findSegment s) as [[i [[a b] rest]]|] eqn:E; [|done].
  cbn [index matched Nat.add]. unfold substituted. cbn [index matched captures].
  apply findSegment_first in E as [_ ->]. by rewrite segment_length.
Qed.

Lemma segmentAt_take12 t :
  segmentAt t = None <-> segmentAt (take 12 t) = None.
Proof.
  split; intros H.
  - destruct (segmentAt (take 12 t)) as [[[a b] r]|] eqn:E; [|done].
    apply segmentAt_spec in E as (Ha & Hb & E).
    assert (segmentAt t = Some (a, b, r ++ drop 12 t)) as H'.
    { apply segmentAt_spec. split; [done|split; [done|]].
      rewrite app_assoc, <- E. by rewrite take_drop. }
    congruence.
  - destruct (segmentAt t) as [[[a b] r]|] eqn:E; [|done].
    apply segmentAt_spec in E as (Ha & Hb & ->).
    assert (segmentAt (take 12 (segment a b ++ r)) = Some (a, b, [])) as H'.
    { apply segmentAt_spec. split; [done|split; [done|]].
      rewrite take_app_length'; [by rewrite app_nil_r|done]. }
    congruence.
Qed.

Lemma isLower_not_slash c : isLower c = true -> c <> 47%N.
Proof. unfold isLower. intros H ->. discriminate. Qed.

(** Replacing the code of a segment by another lower-case code creates no
    match that starts before the segment. *)
Lemma segmentAt_stable u a b l1 l2 rest :
  u <> [] ->
  segmentAt (u ++ segment a b ++ rest) = None ->
  segmentAt (u ++ segment l1 l2 ++ rest) = None.
Proof.
  intros Hu H.
  destruct (segmentAt (u ++ segment l1 l2 ++ rest)) as [[[x y] r]|] eqn:E; [|done].
  exfalso. apply segmentAt_spec in E as (Hx & Hy & E).
  destruct u as [|c1 [|c2 [|c3 u]]]; [done| | |].
  - rewrite !segment_cons in E. cbn in E. congruence.
  - rewrite !segment_cons in E. cbn in E. congruence.
  - apply segmentAt_take12 in H.
    assert (take 12 ((c1 :: c2 :: c3 :: u) ++ segment a b ++ rest) =
            take 12 ((c1 :: c2 :: c3 :: u) ++ segment l1 l2 ++ rest)) as Ht.
    { rewrite !segment_cons. rewrite !(app_assoc _ _ (_ :: _ :: _ :: rest)).
      set (v := _ ++ [47; 114; 101; 103; 105; 111; 110; 115; 47]%N).
      assert (12 <= length v) by (subst v; rewrite length_app; cbn; lia).
      by rewrite !take_app_le. }
    rewrite Ht in H. apply segmentAt_take12 in H.
    assert (segmentAt ((c1 :: c2 :: c3 :: u) ++ segment l1 l2 ++ rest)
            = Some (x, y, r)) as H' by by apply segmentAt_spec.
    congruence.
Qed.

Lemma findSegment_recode s i a b rest l1 l2 :
  findSegment s = Some (i, (a, b, rest)) ->
  isLower l1 = true -> isLower l2 = true ->
  findSegment (take i s ++ segment l1 l2 ++ rest) = Some (i, (l1, l2, rest)).
Proof.
  intros E H1 H2. pose proof (findSegment_spec s) as H. rewrite E in H.
  destruct H as [_ Hmin]. apply findSegment_split in E as (Hs & Hlen & _ & _).
  assert (length (take i s) = i) as Hi by (rewrite length_take; lia).
  apply findSegment_intro.
  - rewrite <- Hi at 1. rewrite drop_app_length. by apply segmentAt_spec.
  - intros j Hj.
    rewrite drop_app_le by lia.
    apply segmentAt_stable with (a := a) (b := b).
    + intros Hnil. apply (f_equal length) in Hnil.
      rewrite length_drop in Hnil. cbn in Hnil. lia.
    + rewrite <- drop_app_le by lia. rewrite <- Hs. by apply Hmin.
Qed.

Lemma plain_localized lang :
  plain lang -> plain (js "/regions/" ++ lang ++ js "/").
Proof.
  intros H. unfold plain. rewrite !Forall_app. split; [|split; [done|]].
  - repeat constructor; done.
  - repeat constructor; done.
Qed.

(** ** Strings *)

Lemma startsWith_spec p s : startsWith p s = true <-> exists t, s = p ++ t.
Proof.
  revert s. induction p as [|a p IH]; intros s; cbn [startsWith].
  - split; [eauto|done].
  - destruct s as [|b s].
    + split; [done|]. intros [t H]. discriminate.
    + rewrite andb_true_iff, N.eqb_eq, IH. split.
      * intros [-> [t ->]]. eauto.
      * intros [t [= -> ->]]. eauto.
Qed.

Lemma indexOf_spec s needle :
  match indexOf s needle with
  | Some i =>
      startsWith needle (drop i s) = true /\ i <= length s /\
      forall j, j < i -> startsWith needle (drop j s) = false
  | None => forall j, startsWith needle (drop j s) = false
  end.
Proof.
  induction s as [|c s IH]; cbn [indexOf].
  - destruct (startsWith needle []) eqn:E.
    + split; [done|]. split; [done|]. intros j Hj. lia.
    + intros j. by rewrite drop_nil.
  - destruct (startsWith needle (c :: s)) eqn:E.
    + split; [done|]. split; [cbn; lia|]. intros j Hj. lia.
    + destruct (indexOf s needle) as [i|]; cbn [option_map].
      * destruct IH as (H1 & H2 & H3). split; [done|]. split; [cbn; lia|].
        intros [|j] Hj; [done|]. apply H3. lia.
      * intros [|j]; [done|]. apply IH.
Qed.

Lemma occurs_drop needle s :
  occurs needle s <-> exists j, startsWith needle (drop j s) = true.
Proof.
  split.
  - intros (pre & post & ->). exists (length pre).
    rewrite drop_app_length. apply startsWith_spec. eauto.
  - intros [j H]. apply startsWith_spec in H as [t H].
    exists (take j s), t. by rewrite <- H, take_drop.
Qed.

Lemma indexOf_None s needle : indexOf s needle = None <-> ~ occurs needle s.
Proof.
  rewrite occurs_drop. pose proof (indexOf_spec s needle) as H.
  destruct (indexOf s needle) as [i|].
  - split; [done|]. intros Hn. exfalso. apply Hn. exists i. apply H.
  - split; [|done]. intros _ [j Hj]. rewrite H in Hj. done.
Qed.


Lemma includes_spec s needle : includes s needle = true <-> occurs needle s.
Proof.
  unfold includes. pose proof (indexOf_None s needle) as H.
  pose proof (indexOf_spec s needle) as H'.
  destruct (indexOf s needle) as [i|].
  - split; [|done]. intros _. apply occurs_drop. exists i. apply H'.
  - split; [done|]. intros Ho. by apply H in Ho.
Qed.

(** ** The navigation widget: language of the path and localized links *)

Lemma replace_region_first s lang i a b :
  first_segment_at s i a b -> plain lang ->
  replace V31.regionRe (js "/regions/" ++ lang ++ js "/") s
  = withLanguage s i lang.
Proof.
  intros H Hl.
  assert (findSegment s = Some (i, (a, b, drop (i + 12) s))) as E
    by by apply findSegment_first.
  rewrite replace_regionRe, E.
  rewrite GetSubstitution_plain by by apply plain_localized.
  unfold withLanguage. by rewrite <- !app_assoc.
Qed.

Lemma replace_region_none s repl :
  no_segment s -> replace V31.regionRe repl s = s.
Proof.
  intros H. apply findSegment_none in H. by rewrite replace_regionRe, H.
Qed.

Lemma plain_lower l1 l2 :
  isLower l1 = true -> isLower l2 = true -> plain [l1; l2].
Proof.
  intros H1 H2. repeat constructor; intros ->; discriminate.
Qed.

Lemma replace_region_idempotent l1 l2 s :
  isLower l1 = true -> isLower l2 = true ->
  let repl := js "/regions/" ++ [l1; l2] ++ js "/" in
  replace V31.regionRe repl (replace V31.regionRe repl s)
  = replace V31.regionRe repl s.
Proof.
  intros H1 H2 repl.
  assert (plain repl) as Hp by by apply plain_localized, plain_lower.
  rewrite (replace_regionRe repl s).
  destruct (findSegment s) as [[i [[a b] rest]]|] eqn:E.
  - rewrite GetSubstitution_plain by done.
    pose proof (findSegment_recode _ _ _ _ _ l1 l2 E H1 H2) as E'.
    change repl with (segment l1 l2).
    rewrite replace_regionRe, E'.
    rewrite GetSubstitution_plain by done.
    apply findSegment_split in E as (_ & Hlen & _).
    rewrite take_app_le by (rewrite length_take; lia).
    by rewrite take_take, Nat.min_id.
  - by rewrite replace_regionRe, E.
Qed.

Lemma detectLanguage_findSegment b :
  V31.detectLanguage b =
  match findSegment (Page.pathname b) with
  | Some (_, (a, c, _)) => [a; c]
  | None =>
      match Page.localStorage b !! js "preferredLanguage" with
      | Some (x :: v) => x :: v
      | _ => js "en"
      end
  end.
Proof.
  unfold V31.detectLanguage, exec. rewrite execFrom_pathRe.
  by destruct (findSegment (Page.pathname b)) as [[i [[a c] rest]]|].
Qed.

Lemma detectLanguage_same b : V40.detectLanguage b = V31.detectLanguage b.
Proof. reflexivity. Qed.

Lemma getLocalizedUrl_same lang url c d1 d2 d3 :
  V40.getLocalizedUrl (V40.mkMenu c d1 d2 lang d3) url
  = V31.getLocalizedUrl (V31.mkMenu c d1 d2 lang) url.
Proof. reflexivity. Qed.

(** C10.  For an active language of exactly two lower-case ASCII letters,
    [getLocalizedUrl] (of either variant) is idempotent, and it returns
    unchanged every URL without a [/regions/xx/] segment ([xx] two
    lower-case letters). *)
Theorem getLocalizedUrl_idempotent :
  forall (w31 : V31.SmartNavigationMenu) (w40 : V40.SmartNavigationMenu)
         (l1 l2 : N) (url : jsstring),
    isLower l1 = true -> isLower l2 = true ->
    V31.currentLang w31 = [l1; l2] -> V40.currentLang w40 = [l1; l2] ->
    V31.getLocalizedUrl w31 (V31.getLocalizedUrl w31 url)
      = V31.getLocalizedUrl w31 url /\
    V40.getLocalizedUrl w40 (V40.getLocalizedUrl w40 url)
      = V40.getLocalizedUrl w40 url /\
    (no_segment url ->
       V31.getLocalizedUrl w31 url = url /\ V40.getLocalizedUrl w40 url = url).
Proof.
  intros w31 w40 l1 l2 url H1 H2 E31 E40.
  unfold V31.getLocalizedUrl, V40.getLocalizedUrl.
  change V40.regionRe with V31.regionRe. rewrite E31, E40.
  split; [by apply replace_region_idempotent|].
  split; [by apply replace_region_idempotent|].
  intros Hn. by rewrite !replace_region_none.
Qed.

Lemma getLocalizedUrl_idempotent_witness :
  V31.getLocalizedUrl (Samples.menu31 (js "es"))
    (V31.getLocalizedUrl (Samples.menu31 (js "es"))
       (js "/regions/en/reviews/widget.html"))
  = V31.getLocalizedUrl (Samples.menu31 (js "es"))
      (js "/regions/en/reviews/widget.html").
Proof.
  exact (proj1 (getLocalizedUrl_idempotent (Samples.menu31 (js "es"))
                  (Samples.menu40 (js "es")) 101 115
                  (js "/regions/en/reviews/widget.html")
                  eq_refl eq_refl eq_refl eq_refl)).
Defined.

Lemma first_segment_unique s i a b j a' b' :
  first_segment_at s i a b -> first_segment_at s j a' b' ->
  i = j /\ a = a' /\ b = b'.
Proof.
  intros H H'.
  assert (findSegment s = Some (i, (a, b, drop (i + 12) s))) as E
    by by apply findSegment_first.
  assert (findSegment s = Some (j, (a', b', drop (j + 12) s))) as E'
    by by apply findSegment_first.
  rewrite E in E'. by injection E' as -> -> ->.
Qed.

(** C3, as the code has it.  The active language is, in this order: the
    code of the first [/regions/xx/] segment of the page path ([xx] two
    lower-case letters); otherwise the stored [preferredLanguage] when it is
    present and not the empty string; otherwise [en].  The three examples of
    the specification hold. *)
Theorem detectLanguage_priority :
  forall b : Page.Browser,
    (forall i a c, first_segment_at (Page.pathname b) i a c ->
       V31.detectLanguage b = [a; c] /\ V40.detectLanguage b = [a; c]) /\
    (forall v, no_segment (Page.pathname b) ->
       Page.localStorage b !! js "preferredLanguage" = Some v -> v <> [] ->
       V31.detectLanguage b = v /\ V40.detectLanguage b = v) /\
    (no_segment (Page.pathname b) ->
       Page.localStorage b !! js "preferredLanguage" = None \/
       Page.localStorage b !! js "preferredLanguage" = Some [] ->
       V31.detectLanguage b = js "en" /\ V40.detectLanguage b = js "en") /\
    V31.detectLanguage
      (Samples.browser (js "/regions/fr/reviews/x.html") (Samples.prefers (js "de")))
      = js "fr" /\
    V31.detectLanguage (Samples.browser (js "/about.html") (Samples.prefers (js "de")))
      = js "de" /\
    V31.detectLanguage (Samples.browser (js "/about.html") ∅) = js "en".
Proof.
  intros b. rewrite (detectLanguage_same b), detectLanguage_findSegment.
  split; [|split; [|split]].
  - intros i a c H.
    assert (findSegment (Page.pathname b)
            = Some (i, (a, c, drop (i + 12) (Page.pathname b)))) as ->
      by by apply findSegment_first.
    done.
  - intros v Hn Hv Hne. apply findSegment_none in Hn. rewrite Hn, Hv.
    by destruct v.
  - intros Hn Hv. apply findSegment_none in Hn. rewrite Hn.
    by destruct Hv as [-> | ->].
  - split; [|split]; by vm_compute.
Qed.

Lemma no_segment_about : no_segment (js "/about.html").
Proof. apply no_segment_compute. vm_compute. reflexivity. Qed.

Lemma detectLanguage_priority_witness :
  V31.detectLanguage
    (Samples.browser (js "/regions/fr/reviews/x.html") (Samples.prefers (js "de")))
    = js "fr" /\
  V31.detectLanguage (Samples.browser (js "/about.html") (Samples.prefers (js "de")))
    = js "de" /\
  V31.detectLanguage (Samples.browser (js "/about.html") ∅) = js "en".
Proof.
  split; [|split].
  - apply (proj1 (detectLanguage_priority
             (Samples.browser (js "/regions/fr/reviews/x.html")
                (Samples.prefers (js "de")))) 0 102%N 114%N).
    eapply first_segment_compute. vm_compute. reflexivity.
  - apply (proj1 (proj2 (detectLanguage_priority
             (Samples.browser (js "/about.html") (Samples.prefers (js "de")))))
             (js "de")).
    + apply no_segment_about.
    + by vm_compute.
    + done.
  - apply (proj1 (proj2 (proj2 (detectLanguage_priority
             (Samples.browser (js "/about.html") ∅))))).
    + apply no_segment_about.
    + by left.
Defined.

(** C3 as stated fails: a stored preference that is present but empty is
    not used, the language is [en]. *)
Lemma detectLanguage_empty_preference :
  no_segment (Page.pathname (Samples.browser (js "/about.html") (Samples.prefers []))) /\
  Page.localStorage (Samples.browser (js "/about.html") (Samples.prefers []))
    !! js "preferredLanguage" = Some [] /\
  V31.detectLanguage (Samples.browser (js "/about.html") (Samples.prefers []))
    <> [] /\
  V40.detectLanguage (Samples.browser (js "/about.html") (Samples.prefers []))
    <> [].
Proof.
  split; [apply no_segment_about|]. split; [by vm_compute|].
  split; by vm_compute.
Qed.

(** ** The rendered menu *)

Lemma fold_left_append {A : Type} (f : A -> jsstring) (l : list A)
    (init : jsstring) :
  fold_left (fun html x => html ++ f x) l init = init ++ concat (map f l).
Proof.
  revert init. induction l as [|x l IH]; intros init; cbn.
  - by rewrite app_nil_r.
  - by rewrite IH, <- app_assoc.
Qed.

Lemma occurs_app_l needle s t : occurs needle s -> occurs needle (s ++ t).
Proof.
  intros (pre & post & ->). exists pre, (post ++ t). by rewrite <- !app_assoc.
Qed.

Lemma occurs_app_r needle s t : occurs needle t -> occurs needle (s ++ t).
Proof.
  intros (pre & post & ->). exists (s ++ pre), post. by rewrite <- !app_assoc.
Qed.

Lemma concat_map_elem {A : Type} (f : A -> jsstring) (l : list A) (x : A) :
  x ∈ l -> occurs (f x) (concat (map f l)).
Proof.
  intros H. apply list_elem_of_split in H as (l1 & l2 & ->).
  exists (concat (map f l1)), (concat (map f l2)).
  by rewrite map_app, concat_app.
Qed.

Lemma nonempty_elem {A : Type} (l : list A) (x : A) :
  x ∈ l -> (0 <? length l)%nat = true.
Proof. destruct l; [by intros ?%elem_of_nil|done]. Qed.

Lemma buildMenuHtml31_link toUpperCase w data review :
  V31.menuData w = Some data ->
  review ∈ Page.orEmpty (Page.reviews data) ->
  occurs (V31.reviewItem (V31.getLocalizedUrl w (Page.url review))
                         (Page.label review))
         (V31.buildMenuHtml toUpperCase w).
Proof.
  intros Hd Hr. unfold V31.buildMenuHtml. rewrite Hd. cbv zeta.
  rewrite (nonempty_elem _ _ Hr).
  rewrite (fold_left_append
             (fun r => V31.reviewItem (V31.getLocalizedUrl w (Page.url r))
                                      (Page.label r))).
  pose proof (concat_map_elem
                (fun r => V31.reviewItem (V31.getLocalizedUrl w (Page.url r))
                                         (Page.label r)) _ _ Hr) as Ho.
  cbv beta in Ho.
  apply occurs_app_l.
  assert (forall t1 t2 t3 t4 t5 t6 : jsstring,
            occurs (V31.reviewItem (V31.getLocalizedUrl w (Page.url review))
                                   (Page.label review))
                   ((((((t1 ++ t2) ++ t3)
                        ++ concat (map (fun r =>
                             V31.reviewItem (V31.getLocalizedUrl w (Page.url r))
                                            (Page.label r))
                             (Page.orEmpty (Page.reviews data)))) ++ t4) ++ t5) ++ t6))
    as Hin.
  { intros. do 3 apply occurs_app_l. apply occurs_app_r. exact Ho. }
  destruct (1 <? length (Page.orEmpty (Page.languages data)))%nat.
  - apply occurs_app_l. apply Hin.
  - apply Hin.
Qed.

Lemma buildMenuHtml40_link w data review :
  V40.menuData w = Some data ->
  review ∈ Page.orEmpty (Page.reviews data) ->
  occurs (V40.reviewItem (V40.getLocalizedUrl w (Page.url review))
                         (Page.label review))
         (V40.buildMenuHtml w).
Proof.
  intros Hd Hr. unfold V40.buildMenuHtml. rewrite Hd. cbv zeta.
  rewrite (nonempty_elem _ _ Hr).
  rewrite (fold_left_append
             (fun r => V40.reviewItem (V40.getLocalizedUrl w (Page.url r))
                                      (Page.label r))).
  pose proof (concat_map_elem
                (fun r => V40.reviewItem (V40.getLocalizedUrl w (Page.url r))
                                         (Page.label r)) _ _ Hr) as Ho.
  cbv beta in Ho.
  apply occurs_app_l.
  assert (forall t1 t2 t3 t4 t5 : jsstring,
            occurs (V40.reviewItem (V40.getLocalizedUrl w (Page.url review))
                                   (Page.label review))
                   (((((t1 ++ t2) ++ t3)
                        ++ concat (map (fun r =>
                             V40.reviewItem (V40.getLocalizedUrl w (Page.url r))
                                            (Page.label r))
                             (Page.orEmpty (Page.reviews data)))) ++ t4) ++ t5))
    as Hin.
  { intros. do 2 apply occurs_app_l. apply occurs_app_r. exact Ho. }
  destruct (1 <? length (Page.orEmpty (Page.languages data)))%nat.
  - apply occurs_app_l. apply Hin.
  - apply Hin.
Qed.

(** C7, as the code has it.  Every review entry of the configuration is
    rendered into the Reviews dropdown as a link whose target is the stored
    URL with its first [/regions/xx/] segment ([xx] two lower-case letters)
    replaced by [/regions/{currentLang}/], for a language code without the
    dollar sign; a stored URL without such a segment is the target as it
    is.  For the active language [es] the stored URL
    [/regions/en/reviews/widget.html] is rendered as
    [/regions/es/reviews/widget.html]. *)
Theorem review_links_localized :
  forall (toUpperCase : jsstring -> jsstring)
         (w31 : V31.SmartNavigationMenu) (w40 : V40.SmartNavigationMenu)
         (data : Page.MenuConfiguration) (review : Page.ReviewEntry)
         (lang : jsstring),
    V31.menuData w31 = Some data -> V40.menuData w40 = Some data ->
    V31.currentLang w31 = lang -> V40.currentLang w40 = lang ->
    review ∈ Page.orEmpty (Page.reviews data) ->
    exists target,
      occurs (V31.reviewItem target (Page.label review))
             (V31.buildMenuHtml toUpperCase w31) /\
      occurs (V40.reviewItem target (Page.label review))
             (V40.buildMenuHtml w40) /\
      (forall i a b, plain lang -> first_segment_at (Page.url review) i a b ->
         target = withLanguage (Page.url review) i lang) /\
      (no_segment (Page.url review) -> target = Page.url review) /\
      V31.getLocalizedUrl (Samples.menu31 (js "es"))
        (js "/regions/en/reviews/widget.html")
        = js "/regions/es/reviews/widget.html" /\
      V40.getLocalizedUrl (Samples.menu40 (js "es"))
        (js "/regions/en/reviews/widget.html")
        = js "/regions/es/reviews/widget.html".
Proof.
  intros toUpperCase w31 w40 data review lang Hd31 Hd40 Hl31 Hl40 Hr.
  exists (V31.getLocalizedUrl w31 (Page.url review)).
  split; [by eapply buildMenuHtml31_link|].
  split.
  { replace (V31.getLocalizedUrl w31 (Page.url review))
      with (V40.getLocalizedUrl w40 (Page.url review)).
    - by eapply buildMenuHtml40_link.
    - unfold V40.getLocalizedUrl, V31.getLocalizedUrl. by rewrite Hl31, Hl40. }
  unfold V31.getLocalizedUrl. rewrite Hl31.
  split; [|split; [|split]].
  - intros i a b Hp Hf. by eapply replace_region_first.
  - intros Hn. by apply replace_region_none.
  - by vm_compute.
  - by vm_compute.
Qed.

Lemma review_links_localized_witness :
  exists target,
    occurs (V31.reviewItem target (js "Widget"))
           (V31.buildMenuHtml Samples.asciiUpper (Samples.loaded31 (js "es"))) /\
    occurs (V40.reviewItem target (js "Widget"))
           (V40.buildMenuHtml (Samples.loaded40 (js "es"))) /\
    target = js "/regions/es/reviews/widget.html".
Proof.
  destruct (review_links_localized Samples.asciiUpper
              (Samples.loaded31 (js "es")) (Samples.loaded40 (js "es"))
              Samples.widgetConfig
              (Page.mkReview (js "Widget") (js "/regions/en/reviews/widget.html"))
              (js "es") eq_refl eq_refl eq_refl eq_refl)
    as (target & H31 & H40 & Hfirst & _).
  - apply list_elem_of_here.
  - exists target. split; [exact H31|]. split; [exact H40|].
    apply (Hfirst 0 101%N 110%N).
    + repeat constructor; discriminate.
    + eapply first_segment_compute. vm_compute. reflexivity.
Defined.

Lemma segment_at_compute s i a b rest :
  segmentAt (drop i s) = Some (a, b, rest) -> segment_at s i a b.
Proof.
  intros H. assert (rest = drop (i + 12) s) as ->.
  { apply segmentAt_spec in H as (_ & _ & H).
    rewrite <- drop_drop, H. by rewrite drop_app_length'. }
  by apply segmentAt_drop in H as [H _].
Qed.

(** C7 as stated fails.  Only the first segment is replaced: a later
    [/regions/de/] stays in the rendered target; and a stored URL whose code
    is not two lower-case letters is rendered as it is, without the active
    language. *)
Lemma review_link_not_every_segment :
  segment_at (js "/regions/en/regions/de/x.html") 11 100 101 /\
  V31.getLocalizedUrl (Samples.menu31 (js "es")) (js "/regions/en/regions/de/x.html")
    = js "/regions/es/regions/de/x.html" /\
  V40.getLocalizedUrl (Samples.menu40 (js "es")) (js "/regions/en/regions/de/x.html")
    = js "/regions/es/regions/de/x.html" /\
  segment_at (js "/regions/es/regions/de/x.html") 11 100 101 /\
  V31.getLocalizedUrl (Samples.menu31 (js "es")) (js "/regions/EN/reviews/widget.html")
    = js "/regions/EN/reviews/widget.html" /\
  V40.getLocalizedUrl (Samples.menu40 (js "es")) (js "/regions/EN/reviews/widget.html")
    = js "/regions/EN/reviews/widget.html".
Proof.
  split; [by eapply segment_at_compute; vm_compute|].
  split; [by vm_compute|]. split; [by vm_compute|].
  split; [by eapply segment_at_compute; vm_compute|].
  split; by vm_compute.
Qed.

(** ** Switching the language *)

Lemma switchLanguage31_regional toUpperCase w b newLang :
  occurs (js "/regions/") (Page.pathname b) ->
  V31.switchLanguage toUpperCase w b newLang =
  (w, Page.navigate
        (replace V31.regionRe (js "/regions/" ++ newLang ++ js "/")
                 (Page.pathname b))
        (Page.setItem (js "preferredLanguage") newLang b)).
Proof.
  intros H. apply includes_spec in H. unfold V31.switchLanguage.
  cbn [Page.pathname Page.setItem]. by rewrite H.
Qed.

Lemma switchLanguage31_plain toUpperCase w b newLang :
  ~ occurs (js "/regions/") (Page.pathname b) ->
  V31.switchLanguage toUpperCase w b newLang =
  (V31.setCurrentLang newLang w,
   V31.renderMenu toUpperCase (V31.setCurrentLang newLang w)
     (Page.setItem (js "preferredLanguage") newLang b)).
Proof.
  intros H. unfold V31.switchLanguage. cbn [Page.pathname Page.setItem].
  destruct (includes (Page.pathname b) (js "/regions/")) eqn:E; [|done].
  by apply includes_spec in E.
Qed.

Lemma switchLanguage40_regional w b newLang :
  occurs (js "/regions/") (Page.pathname b) ->
  V40.switchLanguage w b newLang =
  (w, Page.navigate
        (replace V31.regionRe (js "/regions/" ++ newLang ++ js "/")
                 (Page.pathname b))
        (Page.setItem (js "preferredLanguage") newLang b)).
Proof.
  intros H. apply includes_spec in H. unfold V40.switchLanguage.
  cbn [Page.pathname Page.setItem]. by rewrite H.
Qed.

Lemma switchLanguage40_plain w b newLang :
  ~ occurs (js "/regions/") (Page.pathname b) ->
  V40.switchLanguage w b newLang =
  (V40.setCurrentLang newLang w,
   V40.renderMenu (V40.setCurrentLang newLang w)
     (Page.setItem (js "preferredLanguage") newLang b)).
Proof.
  intros H. unfold V40.switchLanguage. cbn [Page.pathname Page.setItem].
  destruct (includes (Page.pathname b) (js "/regions/")) eqn:E; [|done].
  by apply includes_spec in E.
Qed.

Lemma renderMenu31_effect toUpperCase w b :
  Page.localStorage (V31.renderMenu toUpperCase w b) = Page.localStorage b /\
  Page.href (V31.renderMenu toUpperCase w b) = Page.href b /\
  Page.console (V31.renderMenu toUpperCase w b) = Page.console b /\
  (forall old, Page.dom b !! V31.menuContainerId w = Some old ->
     Page.dom (V31.renderMenu toUpperCase w b) !! V31.menuContainerId w
     = Some (V31.buildMenuHtml toUpperCase w)) /\
  (Page.dom b !! V31.menuContainerId w = None ->
     V31.renderMenu toUpperCase w b = b).
Proof.
  unfold V31.renderMenu.
  destruct (Page.dom b !! V31.menuContainerId w) as [old|] eqn:E; cbn.
  - repeat split; try done. intros ? _. by rewrite lookup_insert_eq.
  - done.
Qed.

Lemma renderMenu40_effect w b :
  Page.localStorage (V40.renderMenu w b) = Page.localStorage b /\
  Page.href (V40.renderMenu w b) = Page.href b /\
  Page.console (V40.renderMenu w b) = Page.console b /\
  (forall old, Page.dom b !! V40.menuContainerId w = Some old ->
     Page.dom (V40.renderMenu w b) !! V40.menuContainerId w
     = Some (V40.buildMenuHtml w)) /\
  (Page.dom b !! V40.menuContainerId w = None -> V40.renderMenu w b = b).
Proof.
  unfold V40.renderMenu.
  destruct (Page.dom b !! V40.menuContainerId w) as [old|] eqn:E; cbn.
  - repeat split; try done. intros ? _. by rewrite lookup_insert_eq.
  - done.
Qed.



Lemma occurs_compute needle s : includes s needle = true -> occurs needle s.
Proof. apply includes_spec. Qed.

Lemma not_occurs_compute needle s : includes s needle = false -> ~ occurs needle s.
Proof. intros H Ho. apply includes_spec in Ho. congruence. Qed.


(** ** Failure of the configuration fetch *)

Lemma renderFallbackMenu31_effect w b :
  Page.localStorage (V31.renderFallbackMenu w b) = Page.localStorage b /\
  Page.href (V31.renderFallbackMenu w b) = Page.href b /\
  Page.console (V31.renderFallbackMenu w b) = Page.console b /\
  Page.listeners (V31.renderFallbackMenu w b) = Page.listeners b /\
  (forall old, Page.dom b !! V31.menuContainerId w = Some old ->
     Page.dom (V31.renderFallbackMenu w b) !! V31.menuContainerId w
     = Some V31.buildFallbackHtml) /\
  (forall id, id <> V31.menuContainerId w ->
     Page.dom (V31.renderFallbackMenu w b) !! id = Page.dom b !! id) /\
  (Page.dom b !! V31.menuContainerId w = None ->
     Page.dom (V31.renderFallbackMenu w b) = Page.dom b).
Proof.
  unfold V31.renderFallbackMenu.
  destruct (Page.dom b !! V31.menuContainerId w) as [old|] eqn:E; cbn.
  - repeat split; try done.
    + intros ? _. by rewrite lookup_insert_eq.
    + intros id Hid. by rewrite lookup_insert_ne.
  - done.
Qed.

Lemma renderFallbackMenu40_effect w b :
  Page.localStorage (V40.renderFallbackMenu w b) = Page.localStorage b /\
  Page.href (V40.renderFallbackMenu w b) = Page.href b /\
  Page.console (V40.renderFallbackMenu w b) = Page.console b /\
  Page.listeners (V40.renderFallbackMenu w b) = Page.listeners b /\
  (forall old, Page.dom b !! V40.menuContainerId w = Some old ->
     Page.dom (V40.renderFallbackMenu w b) !! V40.menuContainerId w
     = Some V40.buildFallbackHtml) /\
  (forall id, id <> V40.menuContainerId w ->
     Page.dom (V40.renderFallbackMenu w b) !! id = Page.dom b !! id) /\
  (Page.dom b !! V40.menuContainerId w = None ->
     Page.dom (V40.renderFallbackMenu w b) = Page.dom b).
Proof.
  unfold V40.renderFallbackMenu.
  destruct (Page.dom b !! V40.menuContainerId w) as [old|] eqn:E; cbn.
  - repeat split; try done.
    + intros ? _. by rewrite lookup_insert_eq.
    + intros id Hid. by rewrite lookup_insert_ne.
  - done.
Qed.

Lemma fallback_no_dropdown :
  Forall (fun m => ~ occurs m V31.buildFallbackHtml /\
                   ~ occurs m V40.buildFallbackHtml) dropdownMarkers.
Proof.
  repeat constructor; by apply not_occurs_compute; vm_compute.
Qed.

(** C6.  When the fetch of the configuration is rejected or its body is
    not JSON, either variant logs one warning and puts the fallback markup
    into its container, and nothing else of the page changes: no other
    element, no navigation, nothing stored.  The fallback markup has
    exactly the links Home and About, and Privacy Policy in v3.1 only, and
    no dropdown and no language switcher. *)
Theorem load_failure_fallback :
  forall (toUpperCase : jsstring -> jsstring)
         (w31 : V31.SmartNavigationMenu) (w40 : V40.SmartNavigationMenu)
         (b : Page.Browser) (outcome : Page.FetchOutcome),
    outcome = Page.FetchRejected \/ outcome = Page.BodyNotJson ->
    let r31 := V31.loadMenuData toUpperCase w31 b outcome in
    let r40 := V40.loadMenuData w40 b outcome in
    Page.console (snd r31) = Page.console b ++ [js "Failed to load menu data:"] /\
    Page.console (snd r40) = Page.console b ++ [js "Failed to load menu data:"] /\
    (forall old, Page.dom b !! V31.menuContainerId w31 = Some old ->
       Page.dom (snd r31) !! V31.menuContainerId w31 = Some V31.buildFallbackHtml) /\
    (forall old, Page.dom b !! V40.menuContainerId w40 = Some old ->
       Page.dom (snd r40) !! V40.menuContainerId w40 = Some V40.buildFallbackHtml) /\
    (forall id, id <> V31.menuContainerId w31 ->
       Page.dom (snd r31) !! id = Page.dom b !! id) /\
    (forall id, id <> V40.menuContainerId w40 ->
       Page.dom (snd r40) !! id = Page.dom b !! id) /\
    Page.href (snd r31) = Page.href b /\ Page.href (snd r40) = Page.href b /\
    Page.localStorage (snd r31) = Page.localStorage b /\
    Page.localStorage (snd r40) = Page.localStorage b /\
    fst r31 = w31 /\ fst r40 = w40 /\
    anchors V31.buildFallbackHtml
      = [(js "/", js "Home"); (js "/about.html", js "About");
         (js "/privacy-policy.html", js "Privacy Policy")] /\
    anchors V40.buildFallbackHtml
      = [(js "/", js "Home"); (js "/about.html", js "About")] /\
    Forall (fun m => ~ occurs m V31.buildFallbackHtml /\
                     ~ occurs m V40.buildFallbackHtml) dropdownMarkers.
Proof.
  intros toUpperCase w31 w40 b outcome Ho r31 r40.
  assert (r31 = (w31, V31.renderFallbackMenu w31
                         (Page.warn (js "Failed to load menu data:") b))) as ->
    by by destruct Ho as [-> | ->].
  assert (r40 = (w40, V40.renderFallbackMenu w40
                         (Page.warn (js "Failed to load menu data:") b))) as ->
    by by destruct Ho as [-> | ->].
  cbn [fst snd].
  destruct (renderFallbackMenu31_effect w31
              (Page.warn (js "Failed to load menu data:") b))
    as (Hs31 & Hh31 & Hc31 & _ & Hd31 & Ho31 & _).
  destruct (renderFallbackMenu40_effect w40
              (Page.warn (js "Failed to load menu data:") b))
    as (Hs40 & Hh40 & Hc40 & _ & Hd40 & Ho40 & _).
  assert (anchors V31.buildFallbackHtml
          = [(js "/", js "Home"); (js "/about.html", js "About");
             (js "/privacy-policy.html", js "Privacy Policy")]) as Ha31
    by (vm_compute; reflexivity).
  assert (anchors V40.buildFallbackHtml
          = [(js "/", js "Home"); (js "/about.html", js "About")]) as Ha40
    by (vm_compute; reflexivity).
  pose proof fallback_no_dropdown as Hnd.
  repeat (split; [assumption|]).
  repeat (split; [reflexivity|]).
  repeat (split; [assumption|]).
  assumption.
Qed.

Lemma load_failure_fallback_witness :
  Page.dom (snd (V31.loadMenuData Samples.asciiUpper (Samples.menu31 (js "en"))
                   (Samples.browser (js "/about.html") ∅) Page.BodyNotJson))
    !! js "dynamic-menu" = Some V31.buildFallbackHtml /\
  Page.dom (snd (V40.loadMenuData (Samples.menu40 (js "en"))
                   (Samples.browser (js "/about.html") ∅) Page.FetchRejected))
    !! js "dynamic-menu" = Some V40.buildFallbackHtml.
Proof.
  split.
  - pose proof (load_failure_fallback Samples.asciiUpper
                  (Samples.menu31 (js "en")) (Samples.menu40 (js "en"))
                  (Samples.browser (js "/about.html") ∅) Page.BodyNotJson
                  (or_intror eq_refl)) as (_ & _ & H & _).
    apply (H []). by vm_compute.
  - pose proof (load_failure_fallback Samples.asciiUpper
                  (Samples.menu31 (js "en")) (Samples.menu40 (js "en"))
                  (Samples.browser (js "/about.html") ∅) Page.FetchRejected
                  (or_introl eq_refl)) as (_ & _ & _ & H & _).
    apply (H []). by vm_compute.
Defined.

(** ** The two variants side by side *)

Lemma same_page_refl b : same_page b b.
Proof. by repeat split. Qed.

Lemma same_page_insert b31 b40 id h31 h40 :
  same_page b31 b40 ->
  same_page (Page.setInnerHTML id h31 b31) (Page.setInnerHTML id h40 b40).
Proof.
  intros (Hp & Hs & Hc & Hh & Hl & Hd).
  repeat split; try done; cbn; rename id0 into id'.
  - destruct (decide (id = id')) as [->|Hne].
    + by rewrite !lookup_insert_eq.
    + rewrite !lookup_insert_ne by done. apply Hd.
  - destruct (decide (id = id')) as [->|Hne].
    + by rewrite !lookup_insert_eq.
    + rewrite !lookup_insert_ne by done. apply Hd.
Qed.

Lemma same_page_addListeners b31 b40 :
  same_page b31 b40 -> same_page (Page.addListeners b31) (Page.addListeners b40).
Proof.
  intros (Hp & Hs & Hc & Hh & Hl & Hd). repeat split; try done; cbn;
    [by rewrite Hl|apply Hd|apply Hd].
Qed.

Lemma same_page_lookup b31 b40 id :
  same_page b31 b40 ->
  (Page.dom b31 !! id = None <-> Page.dom b40 !! id = None).
Proof.
  intros (_ & _ & _ & _ & _ & Hd). rewrite !eq_None_not_Some. by rewrite Hd.
Qed.

Lemma renderMenu_same toUpperCase w31 w40 b31 b40 :
  same_state w31 w40 -> same_page b31 b40 ->
  same_page (V31.renderMenu toUpperCase w31 b31) (V40.renderMenu w40 b40).
Proof.
  intros (Hid & _) Hb. unfold V31.renderMenu, V40.renderMenu. rewrite <- Hid.
  pose proof (same_page_lookup _ _ (V31.menuContainerId w31) Hb) as Hl.
  destruct (Page.dom b31 !! V31.menuContainerId w31) as [o31|],
           (Page.dom b40 !! V31.menuContainerId w31) as [o40|].
  - by apply same_page_addListeners, same_page_insert.
  - exfalso. destruct Hl as [_ Hl]. specialize (Hl eq_refl). discriminate.
  - exfalso. destruct Hl as [Hl _]. specialize (Hl eq_refl). discriminate.
  - exact Hb.
Qed.

Lemma renderFallbackMenu_same w31 w40 b31 b40 :
  same_state w31 w40 -> same_page b31 b40 ->
  same_page (V31.renderFallbackMenu w31 b31) (V40.renderFallbackMenu w40 b40).
Proof.
  intros (Hid & _) Hb. unfold V31.renderFallbackMenu, V40.renderFallbackMenu.
  rewrite <- Hid.
  pose proof (same_page_lookup _ _ (V31.menuContainerId w31) Hb) as Hl.
  destruct (Page.dom b31 !! V31.menuContainerId w31) as [o31|],
           (Page.dom b40 !! V31.menuContainerId w31) as [o40|].
  - by apply same_page_insert.
  - exfalso. destruct Hl as [_ Hl]. specialize (Hl eq_refl). discriminate.
  - exfalso. destruct Hl as [Hl _]. specialize (Hl eq_refl). discriminate.
  - exact Hb.
Qed.

(** C9.  The two variants run in lockstep.  Constructed on the same page
    they hold the same data, in particular the same active language; a
    settlement of the fetch and a language switch keep them in step: same
    widget data, same stored preference, same navigation target, same
    warnings, and the same elements of the document rendered (with the
    markup of the respective theme); and in step they compute the same
    localized URL for every stored URL. *)
Theorem variants_in_lockstep :
  forall (toUpperCase : jsstring -> jsstring)
         (w31 : V31.SmartNavigationMenu) (w40 : V40.SmartNavigationMenu)
         (b31 b40 : Page.Browser),
    same_state w31 w40 -> same_page b31 b40 ->
    V31.detectLanguage b31 = V40.detectLanguage b40 /\
    (forall options, same_state (V31.new options b31) (V40.new options b40)) /\
    (forall url, V31.getLocalizedUrl w31 url = V40.getLocalizedUrl w40 url) /\
    (forall outcome,
       same_state (fst (V31.loadMenuData toUpperCase w31 b31 outcome))
                  (fst (V40.loadMenuData w40 b40 outcome)) /\
       same_page (snd (V31.loadMenuData toUpperCase w31 b31 outcome))
                 (snd (V40.loadMenuData w40 b40 outcome))) /\
    (forall newLang,
       same_state (fst (V31.switchLanguage toUpperCase w31 b31 newLang))
                  (fst (V40.switchLanguage w40 b40 newLang)) /\
       same_page (snd (V31.switchLanguage toUpperCase w31 b31 newLang))
                 (snd (V40.switchLanguage w40 b40 newLang))).
Proof.
  intros toUpperCase w31 w40 b31 b40 Hw Hb.
  pose proof Hw as (Hid & Hurl & Hdata & Hlang).
  pose proof Hb as (Hp & Hs & Hc & Hh & Hl & Hd).
  assert (V31.detectLanguage b31 = V40.detectLanguage b40) as Hdet.
  { unfold V31.detectLanguage, V40.detectLanguage.
    change V40.pathRe with V31.pathRe. by rewrite Hp, Hs. }
  split; [done|]. split; [|split; [|split]].
  - intros options. by repeat split.
  - intros url. unfold V31.getLocalizedUrl, V40.getLocalizedUrl.
    change V40.regionRe with V31.regionRe. by rewrite Hlang.
  - intros [| |data]; cbn [V31.loadMenuData V40.loadMenuData fst snd].
    + split; [done|]. apply renderFallbackMenu_same; [done|].
      repeat split; try done; cbn; [by rewrite Hc|apply Hd|apply Hd].
    + split; [done|]. apply renderFallbackMenu_same; [done|].
      repeat split; try done; cbn; [by rewrite Hc|apply Hd|apply Hd].
    + assert (same_state (V31.setMenuData data w31) (V40.setMenuData data w40))
        as Hw' by by repeat split.
      split; [done|]. by apply renderMenu_same.
  - intros newLang. unfold V31.switchLanguage, V40.switchLanguage.
    change V40.regionRe with V31.regionRe.
    cbn [Page.pathname Page.setItem]. rewrite <- Hp.
    assert (same_page (Page.setItem (js "preferredLanguage") newLang b31)
                      (Page.setItem (js "preferredLanguage") newLang b40)) as Hb'.
    { repeat split; try done; cbn; [by rewrite Hs|apply Hd|apply Hd]. }
    destruct (includes (Page.pathname b31) (js "/regions/")); cbn [fst snd].
    + split; [done|]. repeat split; try done; cbn;
        [by rewrite Hs|apply Hd|apply Hd].
    + assert (same_state (V31.setCurrentLang newLang w31)
                         (V40.setCurrentLang newLang w40)) as Hw'
        by by repeat split.
      split; [done|]. by apply renderMenu_same.
Qed.

Lemma same_state_menus lang :
  same_state (Samples.menu31 lang) (Samples.menu40 lang).
Proof. by repeat split. Qed.

Lemma variants_in_lockstep_witness :
  V31.detectLanguage
    (Samples.browser (js "/regions/fr/reviews/x.html") (Samples.prefers (js "de")))
  = V40.detectLanguage
      (Samples.browser (js "/regions/fr/reviews/x.html") (Samples.prefers (js "de"))).
Proof.
  exact (proj1 (variants_in_lockstep Samples.asciiUpper
           (Samples.menu31 (js "fr")) (Samples.menu40 (js "fr"))
           (Samples.browser (js "/regions/fr/reviews/x.html") (Samples.prefers (js "de")))
           (Samples.browser (js "/regions/fr/reviews/x.html") (Samples.prefers (js "de")))
           (same_state_menus (js "fr")) (same_page_refl _))).
Defined.

(** ** The matcher: quantifiers and search *)

Lemma star_is_Some g p k pos s caps :
  is_Some (star g p k pos s caps) <->
  exists ws rest,
    s = ws ++ rest /\ Forall (fun c => p c = true) ws /\
    is_Some (k (MS (pos + length ws) rest caps)).
Proof.
  revert pos. induction s as [|c s IH]; intros pos; cbn [star].
  - split.
    + intros H. exists [], []. by rewrite Nat.add_0_r.
    + intros (ws & rest & E & _ & H). symmetry in E.
      apply app_eq_nil in E as [-> ->]. by rewrite Nat.add_0_r in H.
  - assert (is_Some (k (MS pos (c :: s) caps)) ->
            exists ws rest, c :: s = ws ++ rest /\
              Forall (fun c => p c = true) ws /\
              is_Some (k (MS (pos + length ws) rest caps))) as Hstop.
    { intros H. exists [], (c :: s). by rewrite Nat.add_0_r. }
    assert (is_Some (star g p k (S pos) s caps) -> p c = true ->
            exists ws rest, c :: s = ws ++ rest /\
              Forall (fun c => p c = true) ws /\
              is_Some (k (MS (pos + length ws) rest caps))) as Hmore.
    { intros H Hc. apply IH in H as (ws & rest & -> & Hws & H).
      exists (c :: ws), rest. split; [done|]. split; [by constructor|].
      by replace (pos + length (c :: ws)) with (S pos + length ws) by (cbn; lia). }
    assert ((exists ws rest, c :: s = ws ++ rest /\
              Forall (fun c => p c = true) ws /\
              is_Some (k (MS (pos + length ws) rest caps))) ->
            is_Some (k (MS pos (c :: s) caps)) \/
            (p c = true /\ is_Some (star g p k (S pos) s caps))) as Hback.
    { intros (ws & rest & E & Hws & H). destruct ws as [|c' ws].
      - left. cbn in E. subst rest. by rewrite Nat.add_0_r in H.
      - right. injection E as <- ->. inversion Hws; subst. split; [done|].
        apply IH. exists ws, rest. split; [done|]. split; [done|].
        by replace (S pos + length ws) with (pos + length (c :: ws)) by (cbn; lia). }
    clear IH. split.
    + intros H. destruct (p c) eqn:Hc; [|by apply Hstop].
      destruct g.
      * destruct (star true p k (S pos) s caps) as [r|] eqn:E in H |- *.
        -- apply Hmore; [by rewrite E|done].
        -- by apply Hstop.
      * destruct (k (MS pos (c :: s) caps)) as [r|] eqn:E in H |- *.
        -- apply Hstop. by rewrite E.
        -- by apply Hmore.
    + intros H. apply Hback in H as [H|[Hc H]].
      * destruct (p c); [|done]. destruct g.
        -- by destruct (star true p k (S pos) s caps).
        -- destruct (k (MS pos (c :: s) caps)); [done|]. by destruct H.
      * rewrite Hc. destruct g.
        -- destruct (star true p k (S pos) s caps); [done|]. by destruct H.
        -- by destruct (k (MS pos (c :: s) caps)).
Qed.

Lemma execFrom_is_Some re pos s :
  is_Some (execFrom re pos s) <->
  exists pre rest,
    s = pre ++ rest /\
    is_Some (rmatch (ignoreCase re) (body re) (MS (pos + length pre) rest []) Some).
Proof.
  revert pos. induction s as [|c s IH]; intros pos; cbn [execFrom].
  - destruct (rmatch _ _ (MS pos [] []) Some) eqn:E.
    + split; [|done]. intros _. exists [], []. rewrite Nat.add_0_r, E. done.
    + split; [by intros []|]. intros (pre & rest & E' & H).
      symmetry in E'. apply app_eq_nil in E' as [-> ->].
      rewrite Nat.add_0_r, E in H. by destruct H.
  - destruct (rmatch _ _ (MS pos (c :: s) []) Some) eqn:E.
    + split; [|done]. intros _. exists [], (c :: s). rewrite Nat.add_0_r, E. done.
    + rewrite IH. split.
      * intros (pre & rest & -> & H). exists (c :: pre), rest. split; [done|].
        by replace (pos + length (c :: pre)) with (S pos + length pre) by (cbn; lia).
      * intros (pre & rest & E' & H). destruct pre as [|c' pre].
        -- cbn in E'. subst rest. rewrite Nat.add_0_r, E in H. by destruct H.
        -- injection E' as <- ->. exists pre, rest. split; [done|].
           by replace (S pos + length pre) with (pos + length (c :: pre)) by (cbn; lia).
Qed.

Lemma rmatch_lit_is_Some l r pos s caps k :
  is_Some (rmatch false (RSeq (lit l) r) (MS pos s caps) k) <->
  exists rest,
    s = l ++ rest /\ is_Some (rmatch false r (MS (pos + length l) rest caps) k).
Proof.
  rewrite rmatch_seq, rmatch_lit.
  destruct (litMatch false l s) as [t|] eqn:E.
  - apply litMatch_exact in E. subst s. split; [eauto|].
    by intros (rest & ->%app_inv_head & H).
  - split; [by intros []|]. intros (rest & H & _).
    apply litMatch_exact in H. congruence.
Qed.

Lemma rmatch_star_is_Some ic g p r pos s caps k :
  is_Some (rmatch ic (RSeq (RStar g p) r) (MS pos s caps) k) <->
  exists ws rest,
    s = ws ++ rest /\ Forall (fun c => p c = true) ws /\
    is_Some (rmatch ic r (MS (pos + length ws) rest caps) k).
Proof. rewrite rmatch_seq. cbn [rmatch ms_pos ms_rest ms_caps]. apply star_is_Some. Qed.

Lemma marker_matches pos s :
  is_Some (rmatch false (body Sync.marker) (MS pos s []) Some) <->
  exists mid ws post,
    s = js "const reviewsData = [" ++ mid ++ js "];" ++ ws
          ++ js "// END REVIEWS DATA" ++ post /\
    Forall (fun c => isWhiteSpace c = true) ws.
Proof.
  unfold Sync.marker. cbn [body rseq]. rewrite rmatch_lit_is_Some. split.
  - intros (r1 & -> & H).
    apply rmatch_star_is_Some in H as (mid & r2 & -> & _ & H).
    apply rmatch_lit_is_Some in H as (r3 & -> & H).
    apply rmatch_star_is_Some in H as (ws & r4 & -> & Hws & H).
    apply rmatch_lit_is_Some in H as (post & -> & _).
    by exists mid, ws, post.
  - intros (mid & ws & post & -> & Hws). eexists. split; [done|].
    apply rmatch_star_is_Some. exists mid. eexists. split; [done|].
    split; [by apply Forall_forall|].
    apply rmatch_lit_is_Some. eexists. split; [done|].
    apply rmatch_star_is_Some. exists ws. eexists. split; [done|].
    split; [done|].
    apply rmatch_lit_is_Some. exists post. split; [done|]. done.
Qed.

Lemma test_marker content :
  test Sync.marker content = true <-> listing_markers content.
Proof.
  unfold test, exec.
  assert (is_Some (execFrom Sync.marker 0 content) <-> listing_markers content) as H.
  { rewrite execFrom_is_Some. unfold listing_markers. split.
    - intros (pre & rest & -> & H).
      apply marker_matches in H as (mid & ws & post & -> & Hws).
      by exists pre, mid, ws, post.
    - intros (pre & mid & ws & post & -> & Hws). exists pre. eexists.
      split; [done|]. apply marker_matches. by exists mid, ws, post. }
  destruct (execFrom Sync.marker 0 content).
  - split; [|done]. intros _. by apply H.
  - split; [done|]. intros Hl. apply H in Hl. by destruct Hl.
Qed.

(** ** The script: exit status and writes *)

Lemma updateIndex_missing reviews w :
  test Sync.marker (Sync.indexHtml w) = false ->
  Sync.updateIndex reviews w =
  Sync.Exited 1
    (Sync.mkWorld (Sync.reviewsDir w) (Sync.indexHtml w) (Sync.sitemapXml w)
       (Sync.now w) (Sync.stdout w)
       (Sync.stderr w ++ [js "ERROR: Could not find reviewsData marker in index.html"])
       (Sync.writes w)).
Proof.
  intros H. unfold Sync.updateIndex.
  cbv beta iota delta [Sync.bind Sync.readFileSync Sync.console_error
                         Sync.process_exit Sync.ret].
  rewrite H. reflexivity.
Qed.

Lemma updateIndex_present reviews w :
  test Sync.marker (Sync.indexHtml w) = true ->
  exists changed w',
    Sync.updateIndex reviews w = Sync.Returned changed w' /\
    Sync.reviewsDir w' = Sync.reviewsDir w /\
    Sync.sitemapXml w' = Sync.sitemapXml w /\
    Sync.now w' = Sync.now w /\
    Sync.stderr w' = Sync.stderr w /\
    Sync.indexHtml w' = renderedListing reviews (Sync.indexHtml w) /\
    (if changed
     then Sync.writes w' = Sync.writes w ++ [(Sync.INDEX_FILE, Sync.indexHtml w')] /\
          Sync.indexHtml w' <> Sync.indexHtml w
     else Sync.writes w' = Sync.writes w /\ Sync.indexHtml w' = Sync.indexHtml w).
Proof.
  intros H. unfold Sync.updateIndex.
  cbv beta iota zeta delta [Sync.bind Sync.readFileSync Sync.console_error
                         Sync.process_exit Sync.ret Sync.writeFileSync
                         Sync.console_log].
  rewrite H. cbv beta iota delta [negb].
  unfold str_eqb. case_bool_decide as Heq; cbv beta iota delta [negb].
  - eexists false, _. split; [reflexivity|].
    cbn [Sync.reviewsDir Sync.sitemapXml Sync.now Sync.stderr
         Sync.writes Sync.indexHtml].
    repeat split; try reflexivity. symmetry. exact Heq.
  - eexists true, _. split; [reflexivity|].
    cbn [Sync.reviewsDir Sync.sitemapXml Sync.now Sync.stderr
         Sync.writes Sync.indexHtml].
    repeat split; try reflexivity. exact Heq.
Qed.

Lemma updateSitemap_missing reviews w :
  ~ sitemap_markers (Sync.sitemapXml w) ->
  Sync.updateSitemap reviews w =
  Sync.Exited 1
    (Sync.mkWorld (Sync.reviewsDir w) (Sync.indexHtml w) (Sync.sitemapXml w)
       (Sync.now w) (Sync.stdout w)
       (Sync.stderr w ++ [js "ERROR: Could not find sitemap markers"])
       (Sync.writes w)).
Proof.
  intros H. unfold Sync.updateSitemap.
  cbv beta iota delta [Sync.bind Sync.readFileSync Sync.console_error
                         Sync.process_exit Sync.ret].
  destruct (indexOf (Sync.sitemapXml w) Sync.startMarker) as [i|] eqn:E1;
    [|reflexivity].
  destruct (indexOf (Sync.sitemapXml w) Sync.endMarker) as [j|] eqn:E2;
    [|reflexivity].
  exfalso. apply H. split.
  - apply includes_spec. unfold includes. by rewrite E1.
  - apply includes_spec. unfold includes. by rewrite E2.
Qed.

Lemma updateSitemap_present reviews w :
  sitemap_markers (Sync.sitemapXml w) ->
  exists changed w',
    Sync.updateSitemap reviews w = Sync.Returned changed w' /\
    Sync.reviewsDir w' = Sync.reviewsDir w /\
    Sync.indexHtml w' = Sync.indexHtml w /\
    Sync.now w' = Sync.now w /\
    Sync.stderr w' = Sync.stderr w /\
    Sync.sitemapXml w' = renderedSitemap reviews (splitHead 84 (Sync.now w))
                                         (Sync.sitemapXml w) /\
    (if changed
     then Sync.writes w' = Sync.writes w ++ [(Sync.SITEMAP_FILE, Sync.sitemapXml w')] /\
          Sync.sitemapXml w' <> Sync.sitemapXml w
     else Sync.writes w' = Sync.writes w /\ Sync.sitemapXml w' = Sync.sitemapXml w).
Proof.
  intros [H1 H2]. unfold Sync.updateSitemap.
  cbv beta iota zeta delta [Sync.bind Sync.readFileSync Sync.console_error
                         Sync.process_exit Sync.ret Sync.writeFileSync
                         Sync.console_log Sync.today].
  destruct (indexOf (Sync.sitemapXml w) Sync.startMarker) as [i|] eqn:E1;
    [|by apply indexOf_None in E1].
  destruct (indexOf (Sync.sitemapXml w) Sync.endMarker) as [j|] eqn:E2;
    [|by apply indexOf_None in E2].
  unfold str_eqb. case_bool_decide as Heq; cbv beta iota delta [negb].
  - eexists false, _. split; [reflexivity|].
    unfold renderedSitemap. rewrite E1, E2.
    cbn [Sync.reviewsDir Sync.sitemapXml Sync.now Sync.stderr
         Sync.writes Sync.indexHtml].
    repeat split; try reflexivity. symmetry. exact Heq.
  - eexists true, _. split; [reflexivity|].
    unfold renderedSitemap. rewrite E1, E2.
    cbn [Sync.reviewsDir Sync.sitemapXml Sync.now Sync.stderr
         Sync.writes Sync.indexHtml].
    repeat split; try reflexivity. exact Heq.
Qed.


Lemma main_steps localeCompare w :
  exists w1,
    untouched w w1 /\
    Sync.main localeCompare w =
    match Sync.updateIndex (reviewsOf localeCompare w) w1 with
    | Sync.Returned indexChanged w2 =>
        match Sync.updateSitemap (reviewsOf localeCompare w) w2 with
        | Sync.Returned sitemapChanged w3 =>
            Sync.console_log
              (if indexChanged || sitemapChanged
               then js "Files updated successfully"
               else js "No changes needed") w3
        | Sync.Exited status w3 => Sync.Exited status w3
        end
    | Sync.Exited status w2 => Sync.Exited status w2
    end.
Proof.
  eexists. split; [|unfold Sync.main;
    cbv beta iota zeta delta [Sync.bind Sync.getReviewFiles Sync.console_log
                                Sync.today]].
  2: { cbv beta iota delta [Sync.now Sync.reviewsDir].
       match goal with
       | |- context [Sync.updateIndex _ ?w1] =>
           instantiate (1 := w1)
       end.
       unfold reviewsOf, reviewFilesOf.
       destruct (Sync.updateIndex _ _) as [ic w2|]; [|reflexivity].
       destruct (Sync.updateSitemap _ _) as [sc w3|]; [|reflexivity].
       by destruct (ic || sc). }
  by repeat split.
Qed.

Lemma sitemap_markers_dec content :
  sitemap_markers content \/ ~ sitemap_markers content.
Proof.
  unfold sitemap_markers.
  destruct (includes content Sync.startMarker) eqn:E1;
    [|right; intros [H _]; apply includes_spec in H; congruence].
  destruct (includes content Sync.endMarker) eqn:E2;
    [|right; intros [_ H]; apply includes_spec in H; congruence].
  left. split; by apply includes_spec.
Qed.









(** C2: the claim fails on the code.  The records go into the listing page
    as a replacement string, in which [$&] stands for the text replaced: a
    description with [US$&nbsp;20] puts the old data block into the
    excerpt, and the next run on the same files and the same day finds the
    listing changed again and rewrites it. *)
Lemma second_run_rewrites_listing :
  Sync.reviewsDir
    (SampleRepo.again
       (snd (Sync.run lexCompare
               (SampleRepo.world [SampleRepo.kettleDollar] SampleRepo.listing
                                 SampleRepo.sitemap))))
    = [SampleRepo.kettleDollar] /\
  fst (Sync.run lexCompare
         (SampleRepo.again
            (snd (Sync.run lexCompare
                    (SampleRepo.world [SampleRepo.kettleDollar]
                       SampleRepo.listing SampleRepo.sitemap))))) = 0 /\
  Sync.writes
    (snd (Sync.run lexCompare
            (SampleRepo.again
               (snd (Sync.run lexCompare
                       (SampleRepo.world [SampleRepo.kettleDollar]
                          SampleRepo.listing SampleRepo.sitemap))))))
    <> [] /\
  Sync.stdout
    (snd (Sync.run lexCompare
            (SampleRepo.again
               (snd (Sync.run lexCompare
                       (SampleRepo.world [SampleRepo.kettleDollar]
                          SampleRepo.listing SampleRepo.sitemap))))))
    = [js "Found 1 review files"; js "Extracted metadata for 1 reviews";
       js "Updated index.html with 1 reviews";
       js "sitemap.xml already up to date"; js "Files updated successfully"] /\
  length (Sync.indexHtml
            (snd (Sync.run lexCompare
                    (SampleRepo.world [SampleRepo.kettleDollar]
                       SampleRepo.listing SampleRepo.sitemap)))) = 340 /\
  length (Sync.indexHtml
            (snd (Sync.run lexCompare
                    (SampleRepo.again
                       (snd (Sync.run lexCompare
                               (SampleRepo.world [SampleRepo.kettleDollar]
                                  SampleRepo.listing SampleRepo.sitemap)))))))
    = 609.
Proof.
  split; [vm_compute; reflexivity|]. split; [vm_compute; reflexivity|].
  split; [vm_compute; discriminate|]. split; [vm_compute; reflexivity|].
  split; vm_compute; reflexivity.
Qed.

(** ** The excerpt *)

Lemma takeWhile_dropWhile p s : takeWhile p s ++ dropWhile p s = s.
Proof.
  induction s as [|c s IH]; [done|]. cbn. destruct (p c); [|done].
  cbn. by rewrite IH.
Qed.

Lemma star_greedy_all p pos s caps :
  star true p Some pos s caps
  = Some (MS (pos + length (takeWhile p s)) (dropWhile p s) caps).
Proof.
  revert pos. induction s as [|c s IH]; intros pos; cbn [star takeWhile dropWhile].
  - by rewrite Nat.add_0_r.
  - destruct (p c).
    + rewrite IH. cbn [length]. do 2 f_equal. lia.
    + cbn [length]. by rewrite Nat.add_0_r.
Qed.

Lemma canonicalize_fullstop x : (46 =? canonicalize x)%N = (x =? 46)%N.
Proof.
  unfold canonicalize. destruct (isLower x) eqn:E.
  - unfold isLower in E. apply andb_true_iff in E as [E1 E2].
    apply N.leb_le in E1, E2.
    destruct (N.eqb_spec 46 (x - 32)) as [H|H]; destruct (N.eqb_spec x 46) as [H'|H'];
      try done; lia.
  - apply N.eqb_sym.
Qed.

Lemma afterFullStop_suffix s r :
  afterFullStop s = Some r -> exists x, s = x ++ r /\ x <> [].
Proof.
  revert r. induction s as [|c s IH]; intros r; cbn [afterFullStop]; [done|].
  destruct (c =? 46)%N.
  - intros [= ->]. by exists [c].
  - destruct (isDot c); [|done]. intros H. apply IH in H as (x & -> & _).
    by exists (c :: x).
Qed.

(** The lazy [.+?] of the phrase, after its first character: it stops at
    the first full stop, and the white space after that is skipped. *)
Lemma star_lazy_fullstop pos s caps :
  star false isDot
    (fun st => rmatch true
       (RSeq (lit (js ".")) (RSeq (RStar true isWhiteSpace) REmpty)) st Some)
    pos s caps
  = match afterFullStop s with
    | Some r =>
        Some (MS (pos + (length s - length (dropWhile isWhiteSpace r)))
                 (dropWhile isWhiteSpace r) caps)
    | None => None
    end.
Proof.
  revert pos. induction s as [|c s IH]; intros pos; [done|].
  cbn [star afterFullStop].
  assert (rmatch true (RSeq (lit (js ".")) (RSeq (RStar true isWhiteSpace) REmpty))
            (MS pos (c :: s) caps) Some
          = if (c =? 46)%N
            then Some (MS (S pos + length (takeWhile isWhiteSpace s))
                          (dropWhile isWhiteSpace s) caps)
            else None) as Hk.
  { rewrite rmatch_seq. change (js ".") with [46%N].
    cbn [lit rmatch ms_rest ms_pos ms_caps]. unfold charMatches.
    change (canonicalize 46) with 46%N. rewrite canonicalize_fullstop.
    destruct (c =? 46)%N; [|done]. apply star_greedy_all. }
  rewrite Hk. destruct (N.eqb_spec c 46) as [->|Hc].
  - change (isDot 46) with true. cbv iota. do 2 f_equal.
    pose proof (takeWhile_dropWhile isWhiteSpace s) as E.
    apply (f_equal length) in E. rewrite length_app in E. cbn [length]. lia.
  - destruct (isDot c); [|done]. rewrite IH.
    destruct (afterFullStop s) as [r|] eqn:E; [|done].
    apply afterFullStop_suffix in E as (x & -> & _).
    pose proof (takeWhile_dropWhile isWhiteSpace r) as E.
    apply (f_equal length) in E. rewrite length_app in E.
    rewrite !length_app. cbn [length]. do 2 f_equal. rewrite length_app. lia.
Qed.

Lemma litMatch_split ic l s t :
  litMatch ic l s = Some t -> exists pre, s = pre ++ t /\ length pre = length l.
Proof.
  revert s. induction l as [|c l IH]; intros s; cbn [litMatch].
  - intros [= ->]. by exists [].
  - destruct s as [|x s]; [done|]. destruct (charMatches ic c x); [|done].
    intros H. apply IH in H as (pre & -> & Hl). exists (x :: pre).
    split; [done|]. cbn. by rewrite Hl.
Qed.

Lemma execFrom_honestRe_later pos s :
  execFrom Sync.honestRe (S pos) s = None.
Proof.
  revert pos. induction s as [|c s IH]; intros pos; cbn [execFrom];
    unfold Sync.honestRe; cbn [body rseq ignoreCase]; rewrite rmatch_seq;
    cbn [rmatch ms_pos Nat.eqb]; [done|]. apply IH.
Qed.

Lemma rmatch_bol ic s caps k :
  rmatch ic RBol (MS 0 s caps) k = k (MS 0 s caps).
Proof. reflexivity. Qed.

Lemma rmatch_class ic p pos x tl caps k :
  rmatch ic (RClass p) (MS pos (x :: tl) caps) k
  = if p x then k (MS (S pos) tl caps) else None.
Proof. reflexivity. Qed.

Lemma rmatch_star ic g p pos s caps k :
  rmatch ic (RStar g p) (MS pos s caps) k = star g p k pos s caps.
Proof. reflexivity. Qed.

Lemma rmatch_honestRe s :
  rmatch true (body Sync.honestRe) (MS 0 s []) Some
  = match litMatch true (js "Honest review of ") s with
    | Some (c :: rest) =>
        if isDot c then
          match afterFullStop rest with
          | Some r =>
              Some (MS (18 + (length rest - length (dropWhile isWhiteSpace r)))
                       (dropWhile isWhiteSpace r) [])
          | None => None
          end
        else None
    | _ => None
    end.
Proof.
  unfold Sync.honestRe, plus. cbn [body rseq].
  rewrite rmatch_seq, rmatch_bol, rmatch_seq, rmatch_lit.
  change (length (js "Honest review of ")) with 17.
  destruct (litMatch true (js "Honest review of ") s) as [[|c rest]|]; try done.
  rewrite !rmatch_seq, rmatch_class.
  destruct (isDot c); [|done].
  rewrite rmatch_star, star_lazy_fullstop.
  by destruct (afterFullStop rest).
Qed.

(** The replacement of [honestRe] by the empty string strips the leading
    phrase. *)
Lemma replace_honestRe s :
  replace Sync.honestRe [] s = stripHonestPhrase s.
Proof.
  unfold replace, exec, stripHonestPhrase.
  change (global Sync.honestRe) with false. cbv iota.
  assert (execFrom Sync.honestRe 0 s
          = match rmatch true (body Sync.honestRe) (MS 0 s []) Some with
            | Some st => Some (mkMatch 0 (take (ms_pos st - 0) s) [])
            | None => None
            end) as ->.
  { destruct s as [|c s]; cbn [execFrom]; change (ignoreCase Sync.honestRe) with true;
      change (ncaps Sync.honestRe) with 0;
      destruct (rmatch true (body Sync.honestRe) _ Some); try done.
    apply execFrom_honestRe_later. }
  rewrite rmatch_honestRe.
  destruct (litMatch true (js "Honest review of ") s) as [[|c rest]|] eqn:E;
    try done.
  destruct (isDot c); [|done].
  destruct (afterFullStop rest) as [r|] eqn:E'; [|done].
  remember (18 + (length rest - length (dropWhile isWhiteSpace r))) as n eqn:Hn.
  cbn [index matched ms_pos]. unfold substituted. cbn [GetSubstitution].
  rewrite take_0, Nat.sub_0_r, Nat.add_0_l. cbn [app].
  apply litMatch_split in E as (pre & -> & Hpre).
  change (length (js "Honest review of ")) with 17 in Hpre.
  apply afterFullStop_suffix in E' as (x & -> & _).
  pose proof (takeWhile_dropWhile isWhiteSpace r) as Er.
  set (R := dropWhile isWhiteSpace r) in *.
  set (T := takeWhile isWhiteSpace r) in *.
  assert (n = length (pre ++ c :: x ++ T)) as ->.
  { subst n. rewrite <- Er. rewrite !length_app. cbn [length].
    rewrite !length_app. lia. }
  rewrite <- Er.
  replace (pre ++ c :: x ++ T ++ R) with ((pre ++ c :: x ++ T) ++ R)
    by (rewrite <- !app_assoc; cbn [app]; by rewrite <- !app_assoc).
  by rewrite take_app_length, drop_app_length.
Qed.

Lemma extractMeta_excerpt today f r :
  Sync.extractMeta today f = Some r ->
  Sync.excerpt r =
  match exec Sync.descRe (Sync.d_html f) with
  | Some descMatch => Sync.excerptOf (nthCapture (captures descMatch) 1)
  | None => []
  end.
Proof.
  unfold Sync.extractMeta. cbv zeta.
  destruct (match exec Sync.titleRe (Sync.d_html f) with
            | Some _ => _
            | None => _
            end); [done|].
  by intros [= <-].
Qed.

Lemma excerptOf_rule content :
  Sync.excerptOf content =
  let base := match stripHonestPhrase (normalised content) with
              | [] => normalised content
              | c :: s => c :: s
              end in
  if (120 <? length base)%nat then take 117 base ++ js "..." else base.
Proof.
  unfold Sync.excerptOf. cbv zeta. fold (normalised content).
  rewrite replace_honestRe. by destruct (stripHonestPhrase (normalised content)).
Qed.

(** C4, as the code has it.  For a review page with a meta description,
    the excerpt is computed from the description with its white space
    normalised: the leading phrase [Honest review of ... .] is stripped (if
    nothing is left, the normalised description is kept), and a result of
    more than 120 characters is cut to its first 117 characters followed by
    [...]; so an excerpt has at most 120 characters, and exactly 120 ending
    in [...] when the text was longer after normalising and stripping. *)
Theorem excerpt_rule :
  forall (today : jsstring) (f : Sync.DirEntry) (r : Sync.ReviewMetadata)
         (m : MatchResult),
    Sync.extractMeta today f = Some r ->
    exec Sync.descRe (Sync.d_html f) = Some m ->
    let n := normalised (nthCapture (captures m) 1) in
    let base := match stripHonestPhrase n with [] => n | c :: s => c :: s end in
    (length base <= 120 -> Sync.excerpt r = base) /\
    (120 < length base ->
       Sync.excerpt r = take 117 base ++ js "..." /\
       length (Sync.excerpt r) = 120 /\
       drop 117 (Sync.excerpt r) = js "...") /\
    length (Sync.excerpt r) <= 120.
Proof.
  intros today f r m Hr Hm n base.
  rewrite (extractMeta_excerpt _ _ _ Hr), Hm, excerptOf_rule.
  fold n. cbv zeta. fold base.
  destruct (Nat.ltb_spec 120 (length base)) as [Hlt|Hle].
  - assert (length (take 117 base ++ js "...") = 120) as Hlen.
    { rewrite length_app, length_take. change (length (js "...")) with 3. lia. }
    split; [lia|]. split; [|lia]. intros _. split; [done|]. split; [done|].
    rewrite drop_app_length'; [done|]. rewrite length_take. lia.
  - split; [done|]. split; [lia|done].
Qed.

Lemma excerpt_rule_witness :
  exists r,
    Sync.extractMeta (js "2026-11-01") SampleRepo.toaster = Some r /\
    length (Sync.excerpt r) = 120 /\
    drop 117 (Sync.excerpt r) = js "...".
Proof.
  destruct (Sync.extractMeta (js "2026-11-01") SampleRepo.toaster) as [r|] eqn:Er;
    [|vm_compute in Er; discriminate].
  destruct (exec Sync.descRe (Sync.d_html SampleRepo.toaster)) as [m|] eqn:Em;
    [|vm_compute in Em; discriminate].
  exists r. split; [reflexivity|].
  refine (proj2 (proj1 (proj2
            (excerpt_rule (js "2026-11-01") SampleRepo.toaster r m Er Em)) _)).
  vm_compute in Em. injection Em as <-. vm_compute. lia.
Defined.

(** C4 as stated fails: a description of 125 characters that begins with
    the phrase gives an excerpt of 61 characters, which is not cut. *)
Lemma long_description_short_excerpt :
  exists r m,
    Sync.extractMeta (js "2026-11-01") SampleRepo.blender = Some r /\
    exec Sync.descRe (Sync.d_html SampleRepo.blender) = Some m /\
    length (nthCapture (captures m) 1) = 125 /\
    Sync.excerpt r
      = js "Powerful motor, easy to clean, but rather loud at full speed." /\
    length (Sync.excerpt r) = 61.
Proof.
  eexists _, _. split; [vm_compute; reflexivity|].
  split; [vm_compute; reflexivity|]. split; [vm_compute; reflexivity|].
  split; vm_compute; reflexivity.
Qed.

(** ** The order of the records *)

Lemma lexCompare_antisym a b : lexCompare b a = (- lexCompare a b)%Z.
Proof.
  revert b. induction a as [|x a IH]; intros [|y b]; cbn [lexCompare]; try done.
  destruct (N.ltb_spec x y), (N.ltb_spec y x); try lia. apply IH.
Qed.

Lemma lexCompare_le_trans a b c :
  (lexCompare a b <= 0)%Z -> (lexCompare b c <= 0)%Z -> (lexCompare a c <= 0)%Z.
Proof.
  revert b c. induction a as [|x a IH]; intros [|y b] [|z c];
    cbn [lexCompare]; try done; try lia.
  destruct (N.ltb_spec x y), (N.ltb_spec y x), (N.ltb_spec y z),
    (N.ltb_spec z y), (N.ltb_spec x z), (N.ltb_spec z x);
    try lia. by apply IH.
Qed.

Lemma insertSorted_perm {A : Type} (cmp : A -> A -> Z) x l :
  Sync.insertSorted cmp x l ≡ₚ x :: l.
Proof.
  induction l as [|y l IH]; cbn [Sync.insertSorted]; [done|].
  destruct (cmp x y <=? 0)%Z; [done|]. rewrite IH. apply Permutation_swap.
Qed.

Lemma sort_perm {A : Type} (cmp : A -> A -> Z) l : Sync.sort cmp l ≡ₚ l.
Proof.
  induction l as [|x l IH]; [done|]. unfold Sync.sort. cbn [fold_right].
  fold (Sync.sort cmp l). by rewrite insertSorted_perm, IH.
Qed.

Lemma insertSorted_ext {A : Type} (cmp1 cmp2 : A -> A -> Z) x l :
  (forall y, y ∈ l -> (cmp1 x y <=? 0)%Z = (cmp2 x y <=? 0)%Z) ->
  Sync.insertSorted cmp1 x l = Sync.insertSorted cmp2 x l.
Proof.
  induction l as [|y l IH]; intros H; cbn [Sync.insertSorted]; [done|].
  rewrite (H y) by apply list_elem_of_here.
  rewrite IH; [done|]. intros z Hz. apply H. by apply list_elem_of_further.
Qed.

Lemma sort_ext {A : Type} (cmp1 cmp2 : A -> A -> Z) l :
  (forall x y, x ∈ l -> y ∈ l -> (cmp1 x y <=? 0)%Z = (cmp2 x y <=? 0)%Z) ->
  Sync.sort cmp1 l = Sync.sort cmp2 l.
Proof.
  induction l as [|x l IH]; intros H; [done|].
  unfold Sync.sort. cbn [fold_right]. fold (Sync.sort cmp1 l) (Sync.sort cmp2 l).
  rewrite IH.
  - apply insertSorted_ext. intros y Hy. apply H; [apply list_elem_of_here|].
    apply list_elem_of_further. by rewrite <- (sort_perm cmp2 l).
  - intros y z Hy Hz. apply H; by apply list_elem_of_further.
Qed.

Lemma insertSorted_sorted x l :
  StronglySorted notLater l ->
  StronglySorted notLater
    (Sync.insertSorted (fun a b => lexCompare (Sync.date b) (Sync.date a)) x l).
Proof.
  induction 1 as [|y l Hl IH Hy]; cbn [Sync.insertSorted].
  - repeat constructor.
  - destruct (Z.leb_spec (lexCompare (Sync.date y) (Sync.date x)) 0) as [Hle|Hgt].
    + constructor; [by constructor|]. constructor; [done|].
      eapply Forall_impl; [exact Hy|]. intros z Hz. unfold notLater in *.
      by eapply lexCompare_le_trans.
    + constructor; [done|].
      rewrite insertSorted_perm. constructor; [|done].
      unfold notLater. rewrite lexCompare_antisym. lia.
Qed.

Lemma sort_sorted l :
  StronglySorted notLater
    (Sync.sort (fun a b => lexCompare (Sync.date b) (Sync.date a)) l).
Proof.
  induction l as [|x l IH]; [constructor|].
  unfold Sync.sort. cbn [fold_right]. by apply insertSorted_sorted.
Qed.

Lemma collectReviews_ext localeCompare today files :
  orders_dates localeCompare ->
  Forall (fun r => isoDate (Sync.date r) = true)
         (omap (Sync.extractMeta today) files) ->
  Sync.collectReviews localeCompare today files
  = Sync.collectReviews lexCompare today files.
Proof.
  intros Ho Hiso. unfold Sync.collectReviews. apply sort_ext.
  intros x y Hx Hy. rewrite Forall_forall in Hiso.
  rewrite <- (Ho (Sync.date y) (Sync.date x)) by by apply Hiso.
  destruct (Z.leb_spec (localeCompare (Sync.date y) (Sync.date x)) 0),
    (Z.leb_spec (Z.sgn (localeCompare (Sync.date y) (Sync.date x))) 0);
    try done; lia.
Qed.

Lemma run_ext lc1 lc2 w :
  reviewsOf lc1 w = reviewsOf lc2 w -> Sync.run lc1 w = Sync.run lc2 w.
Proof.
  unfold reviewsOf, reviewFilesOf, Sync.run, Sync.main. intros H.
  cbv beta iota zeta delta [Sync.bind Sync.getReviewFiles Sync.console_log
                              Sync.today].
  cbn [Sync.now Sync.reviewsDir]. by rewrite H.
Qed.

Lemma run_rendered localeCompare w :
  listing_markers (Sync.indexHtml w) -> sitemap_markers (Sync.sitemapXml w) ->
  Sync.indexHtml (snd (Sync.run localeCompare w))
    = renderedListing (reviewsOf localeCompare w) (Sync.indexHtml w) /\
  Sync.sitemapXml (snd (Sync.run localeCompare w))
    = renderedSitemap (reviewsOf localeCompare w) (splitHead 84 (Sync.now w))
                      (Sync.sitemapXml w).
Proof.
  intros Hl Hs. unfold Sync.run.
  destruct (main_steps localeCompare w)
    as (w1 & (Hd1 & Hi1 & Hs1 & Hn1 & He1 & Hw1) & ->).
  destruct (updateIndex_present (reviewsOf localeCompare w) w1)
    as (ic & w2 & -> & Hd2 & Hs2 & Hn2 & He2 & Hr2 & _).
  { rewrite Hi1. by apply test_marker. }
  destruct (updateSitemap_present (reviewsOf localeCompare w) w2)
    as (sc & w3 & -> & Hd3 & Hi3 & Hn3 & He3 & Hr3 & _).
  { by rewrite Hs2, Hs1. }
  cbv beta iota delta [Sync.console_log]. cbn [snd Sync.indexHtml Sync.sitemapXml].
  by rewrite Hi3, Hr2, Hi1, Hr3, Hn2, Hn1, Hs2, Hs1.
Qed.

Lemma orders_dates_lexCompare : orders_dates lexCompare.
Proof.
  intros a b _ _. generalize b. clear b.
  induction a as [|x a IH]; intros [|y b]; cbn [lexCompare]; try done.
  destruct (x <? y)%N; [done|]. destruct (y <? x)%N; [done|]. apply IH.
Qed.

Lemma threeReviews_iso :
  Forall (fun r => isoDate (Sync.date r) = true)
    (omap (Sync.extractMeta (splitHead 84 (Sync.now SampleRepo.threeReviews)))
          (reviewFilesOf SampleRepo.threeReviews)).
Proof. vm_compute. repeat constructor. Qed.

(** C5.  Where [localeCompare] orders dates as their code units do and the
    files have dates [YYYY-MM-DD], the records of a run are those of the
    review files, ordered newest first by their date strings, and both
    artifacts are written from them in this order.  For files dated
    2025-01-05, 2026-03-01 and 2024-11-30 the order is 2026-03-01,
    2025-01-05, 2024-11-30 in the listing and in the sitemap. *)
Theorem newest_first :
  forall localeCompare : jsstring -> jsstring -> Z,
    orders_dates localeCompare ->
    (forall w : Sync.World,
       Forall (fun r => isoDate (Sync.date r) = true)
              (omap (Sync.extractMeta (splitHead 84 (Sync.now w)))
                    (reviewFilesOf w)) ->
       reviewsOf localeCompare w
         ≡ₚ omap (Sync.extractMeta (splitHead 84 (Sync.now w))) (reviewFilesOf w) /\
       StronglySorted notLater (reviewsOf localeCompare w) /\
       (listing_markers (Sync.indexHtml w) ->
        sitemap_markers (Sync.sitemapXml w) ->
          Sync.indexHtml (snd (Sync.run localeCompare w))
            = renderedListing (reviewsOf localeCompare w) (Sync.indexHtml w) /\
          Sync.sitemapXml (snd (Sync.run localeCompare w))
            = renderedSitemap (reviewsOf localeCompare w)
                              (splitHead 84 (Sync.now w)) (Sync.sitemapXml w))) /\
    map Sync.date (reviewsOf localeCompare SampleRepo.threeReviews)
      = [js "2026-03-01"; js "2025-01-05"; js "2024-11-30"] /\
    before (js "2026-03-01") (js "2025-01-05")
           (Sync.indexHtml (snd (Sync.run localeCompare SampleRepo.threeReviews))) /\
    before (js "2025-01-05") (js "2024-11-30")
           (Sync.indexHtml (snd (Sync.run localeCompare SampleRepo.threeReviews))) /\
    before (js "2026-03-01") (js "2025-01-05")
           (Sync.sitemapXml (snd (Sync.run localeCompare SampleRepo.threeReviews))) /\
    before (js "2025-01-05") (js "2024-11-30")
           (Sync.sitemapXml (snd (Sync.run localeCompare SampleRepo.threeReviews))).
Proof.
  intros localeCompare Ho. split.
  - intros w Hiso.
    assert (reviewsOf localeCompare w = reviewsOf lexCompare w) as E
      by by apply collectReviews_ext.
    split; [|split].
    + unfold reviewsOf, Sync.collectReviews. apply sort_perm.
    + rewrite E. apply sort_sorted.
    + intros Hl Hs. by apply run_rendered.
  - assert (reviewsOf localeCompare SampleRepo.threeReviews
            = reviewsOf lexCompare SampleRepo.threeReviews) as E
      by (apply collectReviews_ext; [done|apply threeReviews_iso]).
    rewrite (run_ext _ _ _ E), E.
    split; [vm_compute; reflexivity|].
    repeat split; (eexists _, _; split; [vm_compute; reflexivity|];
                   split; [vm_compute; reflexivity|]; lia).
Qed.

Lemma newest_first_witness :
  StronglySorted notLater (reviewsOf lexCompare SampleRepo.threeReviews) /\
  map Sync.date (reviewsOf lexCompare SampleRepo.threeReviews)
    = [js "2026-03-01"; js "2025-01-05"; js "2024-11-30"].
Proof.
  split.
  - exact (proj1 (proj2 (proj1 (newest_first lexCompare orders_dates_lexCompare)
                           SampleRepo.threeReviews threeReviews_iso))).
  - exact (proj1 (proj2 (newest_first lexCompare orders_dates_lexCompare))).
Defined.

(** * Further properties of the code *)

(** ** The records of the sync script *)

Lemma dropWhile_head p s c t : dropWhile p s = c :: t -> p c = false.
Proof.
  induction s as [|x s IH]; cbn [dropWhile]; [done|].
  destruct (p x) eqn:E; [done|]. by intros [= <- _].
Qed.

Lemma dropWhile_suffix p s : exists x, s = x ++ dropWhile p s.
Proof. exists (takeWhile p s). by rewrite takeWhile_dropWhile. Qed.

Lemma trim_head s c : head (trim s) = Some c -> isWhiteSpace c = false.
Proof.
  unfold trim. set (d := dropWhile isWhiteSpace s).
  destruct (dropWhile_suffix isWhiteSpace (rev d)) as [x Hx].
  set (e := dropWhile isWhiteSpace (rev d)) in *.
  destruct e as [|y e] using rev_ind; [done|]. clear IHe.
  rewrite rev_app_distr. cbn. intros [= ->].
  apply (f_equal (@rev N)) in Hx. rewrite rev_involutive, !rev_app_distr in Hx.
  cbn in Hx. subst d. by apply dropWhile_head in Hx.
Qed.

Lemma trim_last s c : last (trim s) = Some c -> isWhiteSpace c = false.
Proof.
  unfold trim. set (d := dropWhile isWhiteSpace s).
  destruct (dropWhile isWhiteSpace (rev d)) as [|y e] eqn:E; [done|].
  cbn [rev]. rewrite last_snoc. intros [= <-]. by apply dropWhile_head in E.
Qed.

Lemma extractMeta_fields today f r :
  Sync.extractMeta today f = Some r ->
  exists titleMatch,
    exec Sync.titleRe (Sync.d_html f) = Some titleMatch /\
    Sync.title r
      = trim (replace Sync.suffixRe []
                (replace Sync.spacesRe (js " ")
                   (nthCapture (captures titleMatch) 1))) /\
    Sync.title r <> [] /\
    Sync.url r = js "/regions/en/reviews/" ++ Sync.d_name f /\
    Sync.date r
      = match Sync.d_gitlog f with
        | Some out =>
            match trim out with
            | [] => today
            | c :: s => splitHead 84 (c :: s)
            end
        | None => today
        end.
Proof.
  unfold Sync.extractMeta. cbv zeta.
  destruct (exec Sync.titleRe (Sync.d_html f)) as [titleMatch|]; [|done].
  destruct (trim _) as [|c t] eqn:Et; [done|].
  intros [= <-]. exists titleMatch. cbn [Sync.title Sync.url Sync.date].
  rewrite Et. repeat split; try done.
  all: try (destruct (Sync.d_gitlog f) as [out|]; [|done]; by destruct (trim out)).
Qed.

Lemma excerptOf_length content : length (Sync.excerptOf content) <= 120.
Proof.
  rewrite excerptOf_rule. cbv zeta.
  set (base := match stripHonestPhrase _ with [] => _ | c :: s => c :: s end).
  destruct (Nat.ltb_spec 120 (length base)); [|done].
  rewrite length_app, length_take. change (length (js "...")) with 3. lia.
Qed.

(** X1: Every record [extractMeta] returns has a title that is not empty and
    neither starts nor ends with white space, the URL
    [/regions/en/reviews/] followed by the file name, and an excerpt of at
    most 120 characters. *)
Theorem record_wellformed :
  forall (today : jsstring) (f : Sync.DirEntry) (r : Sync.ReviewMetadata),
    Sync.extractMeta today f = Some r ->
    Sync.title r <> [] /\
    (forall c, head (Sync.title r) = Some c -> isWhiteSpace c = false) /\
    (forall c, last (Sync.title r) = Some c -> isWhiteSpace c = false) /\
    Sync.url r = js "/regions/en/reviews/" ++ Sync.d_name f /\
    length (Sync.excerpt r) <= 120.
Proof.
  intros today f r Hr.
  destruct (extractMeta_fields _ _ _ Hr) as (tm & _ & Ht & Hne & Hu & _).
  split; [done|]. rewrite Ht.
  split; [apply trim_head|]. split; [apply trim_last|]. split; [done|].
  rewrite (extractMeta_excerpt _ _ _ Hr).
  destruct (exec Sync.descRe (Sync.d_html f)); [apply excerptOf_length|cbn; lia].
Qed.

Lemma record_wellformed_witness :
  exists r,
    Sync.extractMeta (js "2026-11-01") SampleRepo.kettle = Some r /\
    Sync.title r <> [] /\
    Sync.url r = js "/regions/en/reviews/kettle.html".
Proof.
  destruct (Sync.extractMeta (js "2026-11-01") SampleRepo.kettle) as [r|] eqn:Er;
    [|vm_compute in Er; discriminate].
  exists r. split; [reflexivity|].
  pose proof (record_wellformed (js "2026-11-01") SampleRepo.kettle r Er)
    as (H1 & _ & _ & H2 & _).
  split; [exact H1|exact H2].
Defined.

Lemma splitHead_no_sep sep s : Forall (fun c => c <> sep) (splitHead sep s).
Proof.
  unfold splitHead. induction s as [|c s IH]; cbn [takeWhile]; [constructor|].
  unfold isNot at 1. destruct (N.eqb_spec c sep); cbn [negb]; [constructor|].
  by constructor.
Qed.

Lemma reviewsOf_elem localeCompare w r :
  r ∈ reviewsOf localeCompare w <->
  exists f, f ∈ reviewFilesOf w /\
            Sync.extractMeta (splitHead 84 (Sync.now w)) f = Some r.
Proof.
  unfold reviewsOf, Sync.collectReviews. rewrite sort_perm.
  apply list_elem_of_omap.
Qed.

(** X2: Every record of a run comes from an entry of the reviews directory
    whose name ends in [.html] and is not [index.html]; its date has no
    time part, and it is the date of the clock when [git log] fails or
    prints nothing for the file. *)
Theorem run_record_origin :
  forall (localeCompare : jsstring -> jsstring -> Z) (w : Sync.World)
         (r : Sync.ReviewMetadata),
    r ∈ reviewsOf localeCompare w ->
    exists f,
      f ∈ Sync.reviewsDir w /\
      endsWith (Sync.d_name f) (js ".html") = true /\
      Sync.d_name f <> js "index.html" /\
      Sync.extractMeta (splitHead 84 (Sync.now w)) f = Some r /\
      Forall (fun c => c <> 84%N) (Sync.date r) /\
      (Sync.d_gitlog f = None \/
       (exists out, Sync.d_gitlog f = Some out /\ trim out = []) ->
         Sync.date r = splitHead 84 (Sync.now w)).
Proof.
  intros localeCompare w r Hr. apply reviewsOf_elem in Hr as (f & Hf & Hm).
  exists f. unfold reviewFilesOf in Hf. apply list_elem_of_filter in Hf as [Hp Hf].
  apply andb_prop_elim in Hp as [H1 H2].
  apply Is_true_true in H1. apply negb_prop_elim in H2.
  split; [done|]. split; [done|]. split.
  { intros E. apply H2. unfold str_eqb. by apply bool_decide_pack. }
  split; [done|].
  destruct (extractMeta_fields _ _ _ Hm) as (_ & _ & _ & _ & _ & Hd).
  rewrite Hd. split.
  - destruct (Sync.d_gitlog f) as [out|]; [|apply splitHead_no_sep].
    destruct (trim out); apply splitHead_no_sep.
  - intros [-> | (out & -> & ->)]; done.
Qed.

Lemma run_record_origin_witness :
  exists f,
    f ∈ Sync.reviewsDir SampleRepo.threeReviews /\
    endsWith (Sync.d_name f) (js ".html") = true.
Proof.
  destruct (reviewsOf lexCompare SampleRepo.threeReviews) as [|r rs] eqn:E;
    [vm_compute in E; discriminate|].
  destruct (run_record_origin lexCompare SampleRepo.threeReviews r)
    as (f & H1 & H2 & _).
  - rewrite E. apply list_elem_of_here.
  - exists f. split; [exact H1|exact H2].
Defined.

(** ** Pages without a title *)

Lemma litMatch_anyCase l s rest :
  litMatch true l s = Some rest ->
  exists t, s = t ++ rest /\ map canonicalize t = map canonicalize l.
Proof.
  revert s. induction l as [|c l IH]; intros s; cbn [litMatch].
  - intros [= ->]. by exists [].
  - destruct s as [|x s]; [done|]. unfold charMatches.
    destruct (N.eqb_spec (canonicalize c) (canonicalize x)) as [E|]; [|done].
    intros H. apply IH in H as (t & -> & Ht). exists (x :: t).
    split; [done|]. cbn. by rewrite Ht, E.
Qed.

Lemma exec_titleRe_none html :
  ~ occursAnyCase (js "<title>") html -> exec Sync.titleRe html = None.
Proof.
  intros Hn. unfold exec.
  destruct (execFrom Sync.titleRe 0 html) as [m|] eqn:E; [|done].
  exfalso. apply Hn.
  assert (is_Some (execFrom Sync.titleRe 0 html)) as H by by rewrite E.
  apply execFrom_is_Some in H as (pre & rest & -> & H).
  unfold Sync.titleRe in H. cbn [body rseq ignoreCase] in H.
  rewrite rmatch_seq, rmatch_lit in H.
  destruct (litMatch true (js "<title>") rest) as [rest'|] eqn:El;
    [|by destruct H].
  apply litMatch_anyCase in El as (t & -> & Ht). by exists pre, t, rest'.
Qed.

(** X3: A file whose text has no [<title>] tag (in any letter case) gives no
    record, and the records of a run are those of the other files: the
    file is skipped, the run does not fail for it. *)
Theorem untitled_page_skipped :
  forall (localeCompare : jsstring -> jsstring -> Z) (w : Sync.World)
         (before after : list Sync.DirEntry) (f : Sync.DirEntry),
    Sync.reviewsDir w = before ++ f :: after ->
    ~ occursAnyCase (js "<title>") (Sync.d_html f) ->
    (forall today, Sync.extractMeta today f = None) /\
    reviewsOf localeCompare w
      = reviewsOf localeCompare (withDir (before ++ after) w).
Proof.
  intros localeCompare w l1 l2 f Hdir Hn.
  assert (forall today, Sync.extractMeta today f = None) as Hnone.
  { intros today. unfold Sync.extractMeta. cbv zeta.
    by rewrite exec_titleRe_none. }
  split; [done|].
  unfold reviewsOf, reviewFilesOf. cbn [withDir Sync.reviewsDir Sync.now].
  rewrite Hdir. unfold Sync.collectReviews. f_equal.
  rewrite !filter_app, filter_cons.
  destruct (decide _); [|done].
  rewrite !omap_app. f_equal.
  change (omap ?g (f :: ?l))
    with (match g f with Some y => y :: omap g l | None => omap g l end).
  by rewrite Hnone.
Qed.

Lemma not_occursAnyCase_compute needle s :
  includes (map canonicalize s) (map canonicalize needle) = false ->
  ~ occursAnyCase needle s.
Proof.
  intros H (pre & t & post & -> & Ht).
  assert (includes (map canonicalize (pre ++ t ++ post)) (map canonicalize needle)
          = true) as H'.
  { apply includes_spec. exists (map canonicalize pre), (map canonicalize post).
    by rewrite !map_app, Ht. }
  congruence.
Qed.

Lemma untitled_page_skipped_witness :
  reviewsOf lexCompare
    (SampleRepo.world [SampleRepo.kettle; SampleRepo.draft]
                      SampleRepo.listing SampleRepo.sitemap)
  = reviewsOf lexCompare
      (withDir [SampleRepo.kettle]
         (SampleRepo.world [SampleRepo.kettle; SampleRepo.draft]
                           SampleRepo.listing SampleRepo.sitemap)).
Proof.
  refine (proj2 (untitled_page_skipped lexCompare
            (SampleRepo.world [SampleRepo.kettle; SampleRepo.draft]
                              SampleRepo.listing SampleRepo.sitemap)
            [SampleRepo.kettle] [] SampleRepo.draft eq_refl _)).
  apply not_occursAnyCase_compute. vm_compute. reflexivity.
Defined.

(** ** Records of the same date *)






(** ** Writes of a run *)

Lemma changed_flag {A : Type} (c : bool) (P Q : Prop) (x y : A) :
  (if c then P /\ x <> y else Q /\ x = y) -> (c = true <-> x <> y).
Proof.
  destruct c; intros [_ H].
  - split; [by intros _|done].
  - split; [done|]. intros Hne. by destruct Hne.
Qed.

(** X5: A run writes a target file exactly when its text changes, each file at
    most once and the listing page first; and a run that ends with status
    0 prints as its last line whether anything was written. *)
Theorem writes_only_changes :
  forall (localeCompare : jsstring -> jsstring -> Z) (w : Sync.World),
    let r := Sync.run localeCompare w in
    exists indexChanged sitemapChanged : bool,
      Sync.writes (snd r)
        = Sync.writes w
            ++ (if indexChanged
                then [(Sync.INDEX_FILE, Sync.indexHtml (snd r))] else [])
            ++ (if sitemapChanged
                then [(Sync.SITEMAP_FILE, Sync.sitemapXml (snd r))] else []) /\
      (indexChanged = true <-> Sync.indexHtml (snd r) <> Sync.indexHtml w) /\
      (sitemapChanged = true <-> Sync.sitemapXml (snd r) <> Sync.sitemapXml w) /\
      (fst r = 0 ->
         last (Sync.stdout (snd r))
         = Some (if indexChanged || sitemapChanged
                 then js "Files updated successfully"
                 else js "No changes needed")).
Proof.
  intros localeCompare w r. subst r. unfold Sync.run.
  destruct (main_steps localeCompare w)
    as (w1 & (Hd1 & Hi1 & Hs1 & Hn1 & He1 & Hw1) & ->).
  destruct (test Sync.marker (Sync.indexHtml w1)) eqn:Et.
  - destruct (updateIndex_present (reviewsOf localeCompare w) w1 Et)
      as (ic & w2 & -> & Hd2 & Hs2 & Hn2 & He2 & _ & Hc2).
    destruct (sitemap_markers_dec (Sync.sitemapXml w2)) as [Hs|Hs].
    + destruct (updateSitemap_present (reviewsOf localeCompare w) w2 Hs)
        as (sc & w3 & -> & Hd3 & Hi3 & Hn3 & He3 & _ & Hc3).
      cbv beta iota delta [Sync.console_log].
      cbn [fst snd Sync.writes Sync.indexHtml Sync.sitemapXml Sync.stdout].
      exists ic, sc. rewrite Hi3, <- Hi1, <- Hs1, <- Hs2, <- Hw1.
      split; [|split; [|split]].
      * destruct sc; destruct Hc3 as [-> Hc3]; destruct ic;
          destruct Hc2 as [-> Hc2]; by rewrite <- ?app_assoc, ?app_nil_r.
      * by eapply changed_flag.
      * by eapply changed_flag.
      * intros _. by rewrite last_snoc.
    + rewrite updateSitemap_missing by done.
      cbn [fst snd Sync.writes Sync.indexHtml Sync.sitemapXml Sync.stdout].
      exists ic, false. rewrite <- Hi1, <- Hs1, <- Hs2, <- Hw1.
      split; [|split; [|split]]; try done.
      * rewrite app_nil_r. by destruct ic; destruct Hc2 as [-> Hc2];
          rewrite ?app_nil_r.
      * by eapply changed_flag.
  - rewrite updateIndex_missing by done.
    cbn [fst snd Sync.writes Sync.indexHtml Sync.sitemapXml Sync.stdout].
    exists false, false. rewrite <- Hi1, <- Hs1, <- Hw1.
    split; [by rewrite !app_nil_r|]. split; [done|]. split; [done|]. done.
Qed.

Lemma writes_only_changes_witness :
  exists indexChanged sitemapChanged : bool,
    last (Sync.stdout (snd (Sync.run lexCompare SampleRepo.threeReviews)))
    = Some (if indexChanged || sitemapChanged
            then js "Files updated successfully"
            else js "No changes needed").
Proof.
  destruct (writes_only_changes lexCompare SampleRepo.threeReviews)
    as (ic & sc & _ & _ & _ & H).
  exists ic, sc. apply H. vm_compute. reflexivity.
Defined.

(** ** JSON.stringify *)

Lemma hexValue_hexDigit n : (n < 16)%N -> hexValue (hexDigit n) = Some n.
Proof.
  intros H. unfold hexValue, hexDigit, isDigit.
  destruct (N.ltb_spec n 10).
  - replace ((48 <=? 48 + n) && (48 + n <=? 57))%N with true
      by (symmetry; apply andb_true_iff; split; apply N.leb_le; lia).
    f_equal. lia.
  - replace ((48 <=? 87 + n) && (87 + n <=? 57))%N with false
      by (symmetry; apply andb_false_iff; right; apply N.leb_gt; lia).
    replace ((97 <=? 87 + n) && (87 + n <=? 102))%N with true
      by (symmetry; apply andb_true_iff; split; apply N.leb_le; lia).
    f_equal. lia.
Qed.

Lemma unquoteBody_unicodeEscape c rest :
  (c < 65536)%N ->
  unquoteBody (unicodeEscape c ++ rest) = option_map (cons c) (unquoteBody rest).
Proof.
  intros Hc. unfold unicodeEscape. cbn [app unquoteBody].
  change (92 =? 34)%N with false. change (92 =? 92)%N with true.
  change (117 =? 98)%N with false. change (117 =? 116)%N with false.
  change (117 =? 110)%N with false. change (117 =? 102)%N with false.
  change (117 =? 114)%N with false. change (117 =? 34)%N with false.
  change (117 =? 92)%N with false. change (117 =? 117)%N with true.
  cbv beta iota delta [negb].
  assert (c / 4096 < 16)%N as H3 by (apply N.Div0.div_lt_upper_bound; lia).
  replace (c / 4096 mod 16)%N with (c / 4096)%N by (symmetry; by apply N.mod_small).
  rewrite !hexValue_hexDigit by (try done; apply N.mod_lt; lia).
  do 2 f_equal.
  pose proof (N.Div0.div_mod c 16) as E0.
  pose proof (N.Div0.div_mod (c / 16) 16) as E1.
  pose proof (N.Div0.div_mod (c / 16 / 16) 16) as E2.
  rewrite !N.Div0.div_div in E1, E2. change (16 * 16)%N with 256%N in *.
  change (256 * 16)%N with 4096%N in *.
  assert (c / 256 / 16 = c / 4096)%N as E4 by by rewrite N.Div0.div_div.
  rewrite E4 in E2. lia.
Qed.

Lemma unquoteBody_plain c rest :
  c <> 34%N -> c <> 92%N ->
  unquoteBody (c :: rest) = option_map (cons c) (unquoteBody rest).
Proof.
  intros H1 H2. cbn [unquoteBody].
  destruct (N.eqb_spec c 34); [done|]. by destruct (N.eqb_spec c 92).
Qed.

Lemma unquoteBody_quoteUnit c rest :
  (c < 65536)%N ->
  unquoteBody (quoteUnit c ++ rest) = option_map (cons c) (unquoteBody rest).
Proof.
  intros Hc. unfold quoteUnit.
  destruct (N.eqb_spec c 8) as [->|H8]; [done|].
  destruct (N.eqb_spec c 9) as [->|H9]; [done|].
  destruct (N.eqb_spec c 10) as [->|H10]; [done|].
  destruct (N.eqb_spec c 12) as [->|H12]; [done|].
  destruct (N.eqb_spec c 13) as [->|H13]; [done|].
  destruct (N.eqb_spec c 34) as [->|H34]; [done|].
  destruct (N.eqb_spec c 92) as [->|H92]; [done|].
  destruct (N.ltb_spec c 32); [by apply unquoteBody_unicodeEscape|].
  by apply unquoteBody_plain.
Qed.

Lemma surrogate_plain c :
  isHighSurrogate c = true \/ isLowSurrogate c = true ->
  c <> 34%N /\ c <> 92%N /\ (c < 65536)%N.
Proof.
  unfold isHighSurrogate, isLowSurrogate.
  intros [H|H]; apply andb_true_iff in H as [H1 H2];
    apply N.leb_le in H1, H2; lia.
Qed.

Lemma unquoteBody_quoteBody s :
  Forall (fun c => (c < 65536)%N) s -> unquoteBody (quoteBody s) = Some s.
Proof.
  remember (length s) as n eqn:Hn. revert s Hn.
  induction n as [n IH] using lt_wf_ind. intros s -> Hs.
  destruct s as [|c s]; [done|]. cbn [quoteBody].
  inversion Hs as [|? ? Hc Hs']; subst.
  destruct (isHighSurrogate c) eqn:Eh.
  - destruct (surrogate_plain c (or_introl Eh)) as (H1 & H2 & _).
    destruct s as [|d s].
    + rewrite <- (app_nil_r (unicodeEscape c)).
      by rewrite unquoteBody_unicodeEscape.
    + destruct (isLowSurrogate d) eqn:El.
      * destruct (surrogate_plain d (or_intror El)) as (H3 & H4 & _).
        inversion Hs' as [|? ? Hd Hs'']; subst.
        rewrite !unquoteBody_plain by done.
        rewrite (IH (length s)); [done|cbn; lia|done|done].
      * rewrite unquoteBody_unicodeEscape by done.
        rewrite (IH (length (d :: s))); [done|cbn; lia|done|done].
  - destruct (isLowSurrogate c) eqn:El.
    + rewrite unquoteBody_unicodeEscape by done.
      rewrite (IH (length s)); [done|cbn; lia|done|done].
    + rewrite unquoteBody_quoteUnit by done.
      rewrite (IH (length s)); [done|cbn; lia|done|done].
Qed.

(** X6: [JSON.stringify] of a string is a literal that reads back as the
    string: the text between its quotes, with its escapes undone, is the
    string again (for code units below 65536, as all of a JavaScript
    string are). *)
Theorem stringify_reads_back :
  forall s : jsstring,
    Forall (fun c => (c < 65536)%N) s -> unquote (JSON_stringify s) = Some s.
Proof.
  intros s Hs. unfold JSON_stringify, unquote. cbn [app].
  rewrite rev_app_distr. cbn [rev app]. rewrite rev_involutive.
  by apply unquoteBody_quoteBody.
Qed.

Lemma codeUnits_compute s :
  forallb (fun c => (c <? 65536)%N) s = true ->
  Forall (fun c => (c < 65536)%N) s.
Proof.
  intros H. apply Forall_forall. intros c Hc%list_elem_of_In.
  rewrite forallb_forall in H. by apply N.ltb_lt, H.
Qed.

Lemma stringify_reads_back_witness :
  unquote (JSON_stringify (dq "He said 'hi'\ to
you")) = Some (dq "He said 'hi'\ to
you").
Proof.
  apply stringify_reads_back. apply codeUnits_compute. vm_compute. reflexivity.
Defined.








(** ** The widget *)

(** X8: Switching to a language of two lower-case letters and detecting again
    agree, in both variants.  On a page outside [/regions/] the page itself
    now detects the new language.  On a page with [/regions/] in its path,
    every page at the address the widget navigates to, with the storage the
    switch left, detects it: through the rewritten segment, or, when the
    path has no valid segment and stays as it is, through the stored
    preference. *)
Theorem switch_then_detect :
  forall (toUpperCase : jsstring -> jsstring)
         (w31 : V31.SmartNavigationMenu) (w40 : V40.SmartNavigationMenu)
         (b : Page.Browser) (l1 l2 : N),
    isLower l1 = true -> isLower l2 = true ->
    let r31 := V31.switchLanguage toUpperCase w31 b [l1; l2] in
    let r40 := V40.switchLanguage w40 b [l1; l2] in
    (~ occurs (js "/regions/") (Page.pathname b) ->
       V31.detectLanguage (snd r31) = [l1; l2] /\
       V40.detectLanguage (snd r40) = [l1; l2] /\
       V31.currentLang (fst r31) = V31.detectLanguage (snd r31) /\
       V40.currentLang (fst r40) = V40.detectLanguage (snd r40)) /\
    (occurs (js "/regions/") (Page.pathname b) ->
       forall b' : Page.Browser,
         Page.localStorage b' = Page.localStorage (snd r31) ->
         Page.href (snd r31) = Some (Page.pathname b') ->
         Page.href (snd r40) = Some (Page.pathname b') /\
         V31.detectLanguage b' = [l1; l2] /\
         V40.detectLanguage b' = [l1; l2]).
Proof.
  intros tu w31 w40 b l1 l2 H1 H2 r31 r40. split.
  - intros Hno. subst r31 r40.
    rewrite switchLanguage31_plain, switchLanguage40_plain by done.
    cbn [fst snd]. change V40.detectLanguage with V31.detectLanguage.
    assert (Hd : V31.detectLanguage
                   (V31.renderMenu tu (V31.setCurrentLang [l1; l2] w31)
                      (Page.setItem (js "preferredLanguage") [l1; l2] b))
                 = [l1; l2]).
    { rewrite detectLanguage_findSegment.
      assert (Hp : Page.pathname
                     (V31.renderMenu tu (V31.setCurrentLang [l1; l2] w31)
                        (Page.setItem (js "preferredLanguage") [l1; l2] b))
                   = Page.pathname b).
      { unfold V31.renderMenu.
        by destruct (Page.dom _ !! _). }
      rewrite Hp.
      assert (Hn : findSegment (Page.pathname b) = None).
      { apply findSegment_none. intros i a c (_ & _ & pre & post & E & _).
        apply Hno. exists pre, ([a; c] ++ js "/" ++ post).
        rewrite E. unfold segment. by rewrite <- !app_assoc. }
      rewrite Hn.
      destruct (renderMenu31_effect tu (V31.setCurrentLang [l1; l2] w31)
                  (Page.setItem (js "preferredLanguage") [l1; l2] b))
        as (Hs & _).
      rewrite Hs. cbn [Page.setItem Page.localStorage].
      by rewrite lookup_insert_eq. }
    assert (Hd40 : V31.detectLanguage
                   (V40.renderMenu (V40.setCurrentLang [l1; l2] w40)
                      (Page.setItem (js "preferredLanguage") [l1; l2] b))
                 = [l1; l2]).
    { rewrite detectLanguage_findSegment.
      assert (Hp : Page.pathname
                     (V40.renderMenu (V40.setCurrentLang [l1; l2] w40)
                        (Page.setItem (js "preferredLanguage") [l1; l2] b))
                   = Page.pathname b).
      { unfold V40.renderMenu.
        by destruct (Page.dom _ !! _). }
      rewrite Hp.
      assert (Hn : findSegment (Page.pathname b) = None).
      { apply findSegment_none. intros i a c (_ & _ & pre & post & E & _).
        apply Hno. exists pre, ([a; c] ++ js "/" ++ post).
        rewrite E. unfold segment. by rewrite <- !app_assoc. }
      rewrite Hn.
      destruct (renderMenu40_effect (V40.setCurrentLang [l1; l2] w40)
                  (Page.setItem (js "preferredLanguage") [l1; l2] b))
        as (Hs & _).
      rewrite Hs. cbn [Page.setItem Page.localStorage].
      by rewrite lookup_insert_eq. }
    rewrite Hd, Hd40. done.
  - intros Hyes b' Hs Hh. subst r31 r40.
    rewrite switchLanguage31_regional in Hs, Hh by done.
    rewrite switchLanguage40_regional by done.
    change V40.regionRe with V31.regionRe.
    remember (replace V31.regionRe (js "/regions/" ++ [l1; l2] ++ js "/")
                (Page.pathname b)) as t eqn:Et.
    change (Page.localStorage b'
            = <[js "preferredLanguage" := [l1; l2]]> (Page.localStorage b)) in Hs.
    change (Some t = Some (Page.pathname b')) in Hh.
    change (Some t = Some (Page.pathname b') /\
            V31.detectLanguage b' = [l1; l2] /\
            V31.detectLanguage b' = [l1; l2]).
    assert (Hp : Page.pathname b' = t) by congruence.
    split; [done|].
    assert (Hd : V31.detectLanguage b' = [l1; l2]); [|done].
    rewrite detectLanguage_findSegment, Hp, Et, replace_regionRe.
    destruct (findSegment (Page.pathname b)) as [[i [[a c] rest]]|] eqn:E.
    + rewrite GetSubstitution_plain
        by (apply plain_localized, plain_lower; done).
      change (js "/regions/" ++ [l1; l2] ++ js "/") with (segment l1 l2).
      by rewrite (findSegment_recode _ _ _ _ _ l1 l2 E).
    + rewrite E, Hs. by rewrite lookup_insert_eq.
Qed.

Lemma switch_then_detect_witness :
  V31.detectLanguage
    (Samples.browser (js "/regions/it/reviews/y.html")
                     (Samples.prefers (js "it"))) = js "it" /\
  V40.detectLanguage
    (snd (V40.switchLanguage (Samples.loaded40 (js "en"))
            (Samples.browser (js "/about.html") ∅) (js "it"))) = js "it".
Proof.
  split.
  - pose proof (switch_then_detect Samples.asciiUpper
                  (Samples.loaded31 (js "de")) (Samples.loaded40 (js "de"))
                  (Samples.browser (js "/regions/de/reviews/y.html") ∅)
                  105%N 116%N eq_refl eq_refl) as (_ & Hreg).
    refine (proj1 (proj2 (Hreg _
              (Samples.browser (js "/regions/it/reviews/y.html")
                               (Samples.prefers (js "it"))) _ _))).
    + by apply occurs_compute.
    + reflexivity.
    + vm_compute. reflexivity.
  - pose proof (switch_then_detect Samples.asciiUpper
                  (Samples.loaded31 (js "en")) (Samples.loaded40 (js "en"))
                  (Samples.browser (js "/about.html") ∅)
                  105%N 116%N eq_refl eq_refl) as (Hplain & _).
    refine (proj1 (proj2 (Hplain _))).
    by apply not_occurs_compute.
Defined.










(** X10: A configuration without reviews and with at most one language gives a
    menu of plain links only, in both variants: Home and About (and the
    privacy policy in v3.1), no Reviews dropdown and no language switcher,
    whatever the active language is. *)
Theorem bare_menu :
  forall (toUpperCase : jsstring -> jsstring)
         (w31 : V31.SmartNavigationMenu) (w40 : V40.SmartNavigationMenu)
         (data : Page.MenuConfiguration),
    V31.menuData w31 = Some data -> V40.menuData w40 = Some data ->
    Page.orEmpty (Page.reviews data) = [] ->
    length (Page.orEmpty (Page.languages data)) <= 1 ->
    anchors (V31.buildMenuHtml toUpperCase w31)
      = [(js "/", js "Home"); (js "/about.html", js "About");
         (js "/privacy-policy.html", js "Privacy Policy")] /\
    anchors (V40.buildMenuHtml w40)
      = [(js "/", js "Home"); (js "/about.html", js "About")] /\
    Forall (fun m => ~ occurs m (V31.buildMenuHtml toUpperCase w31) /\
                     ~ occurs m (V40.buildMenuHtml w40)) dropdownMarkers.
Proof.
  intros tu [id31 u31 md31 cl31] [id40 u40 md40 cl40 ct40] data.
  cbn [V31.menuData V40.menuData]. intros -> -> Hr Hl.
  assert (H31 : V31.buildMenuHtml tu (V31.mkMenu id31 u31 (Some data) cl31)
                = V31.buildMenuHtml tu
                    (V31.mkMenu id31 u31 (Some (Page.mkConfig None None)) cl31)).
  { unfold V31.buildMenuHtml. cbn [V31.menuData Page.reviews Page.languages].
    rewrite Hr. cbn [Page.orEmpty length Nat.ltb Nat.leb].
    destruct (Page.orEmpty (Page.languages data)) as [|l [|l' ls]];
      cbn [length Nat.ltb Nat.leb] in Hl |- *; [done|done|lia]. }
  assert (H40 : V40.buildMenuHtml (V40.mkMenu id40 u40 (Some data) cl40 ct40)
                = V40.buildMenuHtml
                    (V40.mkMenu id40 u40 (Some (Page.mkConfig None None)) cl40 ct40)).
  { unfold V40.buildMenuHtml. cbn [V40.menuData Page.reviews Page.languages].
    rewrite Hr. cbn [Page.orEmpty length Nat.ltb Nat.leb].
    destruct (Page.orEmpty (Page.languages data)) as [|l [|l' ls]];
      cbn [length Nat.ltb Nat.leb] in Hl |- *; [done|done|lia]. }
  rewrite H31, H40.
  split; [vm_compute; reflexivity|].
  split; [vm_compute; reflexivity|].
  unfold dropdownMarkers.
  repeat (apply List.Forall_cons;
          [split; apply not_occurs_compute; vm_compute; reflexivity|]).
  apply List.Forall_nil.
Qed.

Lemma bare_menu_witness :
  anchors (V40.buildMenuHtml
             (V40.setMenuData
                (Page.mkConfig (Some [])
                   (Some [Page.mkLanguage (js "en") (js "English") []]))
                (Samples.menu40 (js "fr"))))
  = [(js "/", js "Home"); (js "/about.html", js "About")].
Proof.
  refine (proj1 (proj2 (bare_menu Samples.asciiUpper
            (V31.setMenuData
               (Page.mkConfig (Some [])
                  (Some [Page.mkLanguage (js "en") (js "English") []]))
               (Samples.menu31 (js "fr")))
            (V40.setMenuData
               (Page.mkConfig (Some [])
                  (Some [Page.mkLanguage (js "en") (js "English") []]))
               (Samples.menu40 (js "fr")))
            (Page.mkConfig (Some [])
               (Some [Page.mkLanguage (js "en") (js "English") []]))
            eq_refl eq_refl eq_refl _))).
  cbn. lia.
Defined.





(** ** The matcher reports matches of the pattern only *)

Lemma star_sound g p k pos s caps res :
  star g p k pos s caps = Some res ->
  exists c rest,
    s = c ++ rest /\ Forall (fun x => p x = true) c /\
    k (MS (pos + length c) rest caps) = Some res.
Proof.
  revert pos. induction s as [|x s IH]; intros pos H; cbn [star] in H.
  - exists [], []. rewrite Nat.add_0_r. by repeat split.
  - destruct (p x) eqn:Hx.
    + assert (Hrec : star g p k (S pos) s caps = Some res ->
                     exists c rest,
                       x :: s = c ++ rest /\ Forall (fun x => p x = true) c /\
                       k (MS (pos + length c) rest caps) = Some res).
      { intros Hs. destruct (IH _ Hs) as (c & rest & -> & Hc & Hk).
        exists (x :: c), rest. cbn [length app].
        rewrite Nat.add_succ_r. by repeat split; [constructor|]. }
      assert (Hstop : k (MS pos (x :: s) caps) = Some res ->
                      exists c rest,
                        x :: s = c ++ rest /\ Forall (fun x => p x = true) c /\
                        k (MS (pos + length c) rest caps) = Some res).
      { intros Hk. exists [], (x :: s). cbn [length app].
        rewrite Nat.add_0_r. by repeat split. }
      destruct g.
      * destruct (star true p k (S pos) s caps) as [r|] eqn:E in H.
        -- apply Hrec. by rewrite E.
        -- by apply Hstop.
      * destruct (k (MS pos (x :: s) caps)) as [r|] eqn:E in H.
        -- apply Hstop. by rewrite E.
        -- by apply Hrec.
    + exists [], (x :: s). cbn [length app].
      rewrite Nat.add_0_r. by repeat split.
Qed.

Lemma rmatch_sound ic r :
  forall st k res,
    rmatch ic r st k = Some res ->
    exists c rest caps,
      ms_rest st = c ++ rest /\ accepts ic r (ms_pos st) c rest /\
      k (MS (ms_pos st + length c) rest caps) = Some res.
Proof.
  induction r as [|ch|p|a IHa b IHb|g p|i a IHa| |];
    intros [pos s caps] k res H; cbn [rmatch ms_rest ms_pos ms_caps] in H |- *.
  - exists [], s, caps. rewrite Nat.add_0_r. by repeat split.
  - destruct s as [|x tl]; [done|].
    destruct (charMatches ic ch x) eqn:E; [|done].
    exists [x], tl, caps. cbn [length app accepts].
    rewrite Nat.add_1_r. repeat split; [|done]. by exists x.
  - destruct s as [|x tl]; [done|].
    destruct (p x) eqn:E; [|done].
    exists [x], tl, caps. cbn [length app accepts].
    rewrite Nat.add_1_r. repeat split; [|done]. by exists x.
  - apply IHa in H as (c1 & rest1 & caps1 & E1 & A1 & H).
    apply IHb in H as (c2 & rest2 & caps2 & E2 & A2 & H).
    cbn [ms_rest ms_pos] in E1, E2, A1, A2, H.
    exists (c1 ++ c2), rest2, caps2. cbn [accepts].
    rewrite length_app, Nat.add_assoc, <- app_assoc, <- E2.
    repeat split; [done| |done].
    exists c1, c2. rewrite <- E2. by repeat split.
  - apply star_sound in H as (c & rest & -> & Hc & H).
    by exists c, rest, caps.
  - apply IHa in H as (c & rest & caps1 & E & A & H).
    cbn [ms_rest ms_pos ms_caps] in E, A, H.
    by eexists c, rest, _.
  - destruct (Nat.eqb pos 0) eqn:E; [|done].
    apply Nat.eqb_eq in E. exists [], s, caps.
    rewrite Nat.add_0_r. by repeat split.
  - destruct s; [|done]. exists [], [], caps.
    rewrite Nat.add_0_r. by repeat split.
Qed.

Lemma execFrom_sound re pos s m :
  execFrom re pos s = Some m ->
  exists pre c rest,
    s = pre ++ c ++ rest /\ index m = pos + length pre /\ matched m = c /\
    accepts (ignoreCase re) (body re) (index m) c rest.
Proof.
  revert pos. induction s as [|x s IH]; intros pos H; cbn [execFrom] in H.
  - destruct (rmatch _ _ (MS pos [] []) Some) as [st|] eqn:E; [|done].
    injection H as <-. cbn [index matched].
    apply rmatch_sound in E as (c & rest & caps & Es & A & Ek).
    cbn [ms_rest ms_pos] in Es, A, Ek. injection Ek as <-.
    exists [], c, rest. cbn [length app ms_pos]. rewrite Nat.add_0_r.
    repeat split; [done| |done].
    rewrite Es. replace (pos + length c - pos) with (length c) by lia.
    by rewrite take_app_length.
  - destruct (rmatch _ _ (MS pos (x :: s) []) Some) as [st|] eqn:E.
    + injection H as <-. cbn [index matched].
      apply rmatch_sound in E as (c & rest & caps & Es & A & Ek).
      cbn [ms_rest ms_pos] in Es, A, Ek. injection Ek as <-.
      exists [], c, rest. cbn [length app ms_pos]. rewrite Nat.add_0_r.
      repeat split; [done| |done].
      rewrite Es. replace (pos + length c - pos) with (length c) by lia.
      by rewrite take_app_length.
    + apply IH in H as (pre & c & rest & -> & Hi & Hm & A).
      exists (x :: pre), c, rest. cbn [length app].
      rewrite Nat.add_succ_r. by repeat split.
Qed.

(** A replacement of the first match only: the text is left alone, or one
    text of the pattern's language is replaced by the expansion. *)
Lemma replace_first_shape re repl s :
  global re = false ->
  replace re repl s = s \/
  exists pre c rest m,
    s = pre ++ c ++ rest /\
    accepts (ignoreCase re) (body re) (length pre) c rest /\
    replace re repl s = pre ++ substituted m s repl ++ rest.
Proof.
  intros Hg. unfold replace. rewrite Hg. unfold exec.
  destruct (execFrom re 0 s) as [m|] eqn:E; [right|by left].
  apply execFrom_sound in E as (pre & c & rest & Es & Hi & Hm & A).
  cbn [Nat.add] in Hi. rewrite Hi in A |- *.
  exists pre, c, rest, m. repeat split; [done|done|].
  rewrite Hm.
  assert (Ht : take (length pre) s = pre)
    by (by rewrite Es, take_app_length).
  assert (Hd : drop (length pre + length c) s = rest)
    by (by rewrite Es, app_assoc, <- length_app, drop_app_length).
  by rewrite Ht, Hd.
Qed.


(** ** A run leaves its anchors in place *)

Lemma GetSubstitution_head m s p caps a t :
  plain a ->
  GetSubstitution m s p caps (a ++ t) = a ++ GetSubstitution m s p caps t.
Proof.
  induction 1 as [|c a Hc _ IH]; [done|].
  cbn [app GetSubstitution].
  apply N.eqb_neq in Hc. rewrite Hc. cbn [negb]. by rewrite IH.
Qed.

Lemma GetSubstitution_tail m s p caps x b :
  plain (x :: b) -> x <> 96%N -> x <> 38%N -> x <> 39%N -> isDigit x = false ->
  forall n t, length t <= n ->
    exists X, GetSubstitution m s p caps (t ++ x :: b) = X ++ x :: b.
Proof.
  intros Hp H96 H38 H39 Hd.
  assert (H36 : (x =? 36)%N = false).
  { apply N.eqb_neq. by inversion Hp. }
  apply N.eqb_neq in H96, H38, H39.
  assert (Hb : GetSubstitution m s p caps (x :: b) = x :: b)
    by (by apply GetSubstitution_plain).
  induction n as [|n IH]; intros t Hl.
  { destruct t; [|cbn in Hl; lia]. by exists []. }
  destruct t as [|c t1]; [by exists []|].
  cbn [length] in Hl.
  destruct (c =? 36)%N eqn:Ec.
  2:{ destruct (IH t1 ltac:(lia)) as [X HX].
      exists (c :: X). cbn [app GetSubstitution]. rewrite Ec. cbn [negb].
      by rewrite HX. }
  destruct t1 as [|d t2].
  { exists [c]. cbn [app GetSubstitution]. rewrite Ec. cbn [negb].
    rewrite H36, H96, H38, H39, Hd. cbn [negb].
    rewrite GetSubstitution_plain; [done|by inversion Hp]. }
  cbn [length] in Hl.
  assert (IH2 : exists X, GetSubstitution m s p caps (t2 ++ x :: b) = X ++ x :: b)
    by (apply IH; lia).
  assert (IH1 : exists X, GetSubstitution m s p caps ((d :: t2) ++ x :: b)
                          = X ++ x :: b)
    by (apply IH; cbn [length]; lia).
  destruct IH2 as [X2 HX2]. destruct IH1 as [X1 HX1].
  cbn [app] in HX1.
  cbn [app GetSubstitution]. rewrite Ec. cbn [negb].
  destruct (d =? 36)%N; [exists (36%N :: X2); by rewrite HX2|].
  destruct (d =? 96)%N;
    [exists (take p s ++ X2); by rewrite HX2, <- app_assoc|].
  destruct (d =? 38)%N; [exists (m ++ X2); by rewrite HX2, <- app_assoc|].
  destruct (d =? 39)%N;
    [exists (drop (p + length m) s ++ X2); by rewrite HX2, <- app_assoc|].
  destruct (isDigit d).
  2:{ exists (c :: d :: X2). cbn [negb]. by rewrite HX2. }
  destruct t2 as [|e t3]; cbn [app] in HX2 |- *.
  - rewrite Hd, HX2. eexists (_ ++ X2). by rewrite <- app_assoc.
  - cbn [length] in Hl. destruct (IH t3 ltac:(lia)) as [X3 HX3].
    rewrite HX2, HX3.
    destruct (isDigit e); [|eexists (_ ++ X2); by rewrite <- app_assoc].
    destruct (_ <? _)%nat; [eexists (_ ++ X2); by rewrite <- app_assoc|].
    destruct (_ <=? _)%nat; [eexists (_ ++ X3); by rewrite <- app_assoc|].
    by exists (c :: d :: e :: X3).
Qed.

Lemma plain_compute t : forallb (fun c => negb (c =? 36)%N) t = true -> plain t.
Proof.
  intros H. apply Forall_forall. intros c Hc.
  rewrite forallb_forall in H. apply list_elem_of_In in Hc.
  specialize (H c Hc). apply negb_true_iff in H. by apply N.eqb_neq.
Qed.

Lemma renderedListing_markers rs content :
  listing_markers content -> listing_markers (renderedListing rs content).
Proof.
  intros Hm. unfold renderedListing.
  remember (join (js "," ++ Sync.nl) (map Sync.formatReview rs)) as F eqn:EF.
  clear EF.
  destruct (replace_first_shape Sync.marker
              (js "const reviewsData = [" ++ Sync.nl ++ F ++ Sync.nl
                 ++ js "    ]; // END REVIEWS DATA") content eq_refl)
    as [E | (pre & c & rest & m & Es & A & E)]; rewrite E; [done|].
  unfold substituted.
  rewrite GetSubstitution_head by (by apply plain_compute).
  rewrite (app_assoc Sync.nl).
  change (Sync.nl ++ js "    ]; // END REVIEWS DATA")
    with (10%N :: js "    ]; // END REVIEWS DATA").
  destruct (GetSubstitution_tail (matched m) content (index m) (captures m)
              10%N (js "    ]; // END REVIEWS DATA")
              ltac:(by apply plain_compute) ltac:(done) ltac:(done)
              ltac:(done) eq_refl (length (Sync.nl ++ F)) (Sync.nl ++ F)
              ltac:(done)) as [X HX].
  rewrite HX.
  exists pre, (X ++ 10%N :: js "    "), (js " "), rest. split.
  - change (js "    ]; // END REVIEWS DATA")
      with (js "    " ++ js "];" ++ js " " ++ js "// END REVIEWS DATA").
    rewrite <- !app_assoc. cbn [app]. by rewrite <- !app_assoc.
  - by repeat constructor.
Qed.













(** ** Updating the listing twice *)

Lemma tail_is_Some L1 L2 pos s caps :
  is_Some (rmatch false (rseq [lit L1; RStar true isWhiteSpace; lit L2])
             (MS pos s caps) Some) <->
  exists ws post,
    s = L1 ++ ws ++ L2 ++ post /\ Forall (fun c => isWhiteSpace c = true) ws.
Proof.
  cbn [rseq]. rewrite rmatch_lit_is_Some. split.
  - intros (r1 & -> & H).
    apply rmatch_star_is_Some in H as (ws & r2 & -> & Hws & H).
    apply rmatch_lit_is_Some in H as (post & -> & _).
    by exists ws, post.
  - intros (ws & post & -> & Hws). eexists. split; [done|].
    apply rmatch_star_is_Some. exists ws. eexists. split; [done|].
    split; [done|].
    apply rmatch_lit_is_Some. exists post. split; [done|]. done.
Qed.

Lemma tail_value L1 L2 x L2' pos post caps :
  L2 = x :: L2' -> isWhiteSpace x = false ->
  rmatch false (rseq [lit L1; RStar true isWhiteSpace; lit L2])
    (MS pos (L1 ++ js " " ++ L2 ++ post) caps) Some
  = Some (MS (pos + length L1 + 1 + length L2) post caps).
Proof.
  intros -> Hx. cbn [rseq]. rewrite rmatch_seq, rmatch_lit.
  rewrite (proj2 (litMatch_exact L1 _ _) eq_refl).
  rewrite rmatch_seq, rmatch_star.
  change (js " ") with [32%N]. cbn [app star].
  change (isWhiteSpace 32) with true. cbn iota. rewrite Hx.
  change (x :: L2' ++ post) with ((x :: L2') ++ post).
  rewrite rmatch_seq, rmatch_lit.
  rewrite (proj2 (litMatch_exact (x :: L2') _ _) eq_refl).
  cbn [rmatch]. do 2 f_equal. lia.
Qed.

Lemma star_lazy_skip p k pos W T caps :
  Forall (fun x => p x = true) W ->
  (forall W1 W2, W = W1 ++ W2 -> W2 <> [] ->
     k (MS (pos + length W1) (W2 ++ T) caps) = None) ->
  is_Some (k (MS (pos + length W) T caps)) ->
  star false p k pos (W ++ T) caps = k (MS (pos + length W) T caps).
Proof.
  intros HW. revert pos. induction HW as [|w W Hw HW IH]; intros pos Hk Hs.
  - cbn [app length] in *. rewrite Nat.add_0_r in *.
    destruct T as [|t T]; [done|]. cbn [star].
    destruct (p t); [|done]. by destruct Hs as [r ->].
  - cbn [app length] in Hs |- *. cbn [star]. rewrite Hw.
    pose proof (Hk [] (w :: W) eq_refl ltac:(done)) as H0.
    cbn [length app] in H0. rewrite Nat.add_0_r in H0. rewrite H0.
    rewrite Nat.add_succ_r in Hs |- *.
    apply (IH (S pos)); [|done].
    intros W1 W2 -> HW2.
    specialize (Hk (w :: W1) W2 eq_refl HW2).
    cbn [length] in Hk. by rewrite Nat.add_succ_r in Hk.
Qed.

Lemma execFrom_leftmost re pos s m :
  execFrom re pos s = Some m ->
  exists i st,
    index m = pos + i /\ i <= length s /\
    (forall j, j < i ->
       rmatch (ignoreCase re) (body re) (MS (pos + j) (drop j s) []) Some = None) /\
    rmatch (ignoreCase re) (body re) (MS (pos + i) (drop i s) []) Some = Some st /\
    matched m = take (ms_pos st - (pos + i)) (drop i s).
Proof.
  revert pos. induction s as [|x s IH]; intros pos H; cbn [execFrom] in H.
  - destruct (rmatch _ _ (MS pos [] []) Some) as [st|] eqn:E; [|done].
    injection H as <-. exists 0, st. cbn [index matched drop length].
    rewrite Nat.add_0_r. repeat split; [lia|intros j Hj; lia|done].
  - destruct (rmatch _ _ (MS pos (x :: s) []) Some) as [st|] eqn:E.
    + injection H as <-. exists 0, st. cbn [index matched drop length].
      rewrite Nat.add_0_r. repeat split; [lia|intros j Hj; lia|done].
    + apply IH in H as (i & st & Hi & Hle & Hno & Hat & Hm).
      exists (S i), st. cbn [drop length].
      rewrite Nat.add_succ_r. repeat split; [done|lia| |done|done].
      intros [|j] Hj.
      * by rewrite Nat.add_0_r.
      * rewrite Nat.add_succ_r. apply Hno. lia.
Qed.

Lemma execFrom_intro re i : forall pos s st,
  (forall j, j < i ->
     rmatch (ignoreCase re) (body re) (MS (pos + j) (drop j s) []) Some = None) ->
  i <= length s ->
  rmatch (ignoreCase re) (body re) (MS (pos + i) (drop i s) []) Some = Some st ->
  execFrom re pos s
  = Some (mkMatch (pos + i) (take (ms_pos st - (pos + i)) (drop i s))
                  (capturesOf (ncaps re) (ms_caps st))).
Proof.
  induction i as [|i IH]; intros pos s st Hno Hle Hat.
  - rewrite drop_0, Nat.add_0_r in Hat. rewrite drop_0, Nat.add_0_r.
    destruct s; cbn [execFrom]; by rewrite Hat.
  - destruct s as [|x s]; [cbn [length] in Hle; lia|].
    cbn [execFrom]. pose proof (Hno 0 ltac:(lia)) as H0.
    rewrite Nat.add_0_r in H0. cbn [drop] in H0. rewrite H0.
    cbn [drop] in Hat |- *. rewrite Nat.add_succ_r in Hat |- *.
    apply (IH (S pos) s st); [|cbn [length] in Hle; lia|done].
    intros j Hj. specialize (Hno (S j) ltac:(lia)).
    by rewrite Nat.add_succ_r in Hno.
Qed.

Lemma no_early_end F W1 W2 post pos caps :
  Sync.nl ++ F ++ Sync.nl ++ js "    " = W1 ++ W2 -> W2 <> [] ->
  ~ occurs (js "// END REVIEWS DATA") F ->
  rmatch false
    (rseq [lit (js "];"); RStar true isWhiteSpace;
           lit (js "// END REVIEWS DATA")])
    (MS pos (W2 ++ js "];" ++ js " " ++ js "// END REVIEWS DATA" ++ post) caps)
    Some = None.
Proof.
  intros EW HW2 HF.
  destruct (rmatch _ _ _ Some) as [r|] eqn:E; [exfalso|done].
  assert (Hs : is_Some
            (rmatch false
               (rseq [lit (js "];"); RStar true isWhiteSpace;
                      lit (js "// END REVIEWS DATA")])
               (MS pos (W2 ++ js "];" ++ js " " ++ js "// END REVIEWS DATA"
                           ++ post) caps) Some))
    by (by rewrite E).
  clear E. apply tail_is_Some in Hs as (wsr & z & Eq & Hws).
  assert (HE1 : exists E', js "// END REVIEWS DATA" = 47%N :: E')
    by (by eexists).
  assert (HE2 : ~ In 10%N (js "// END REVIEWS DATA")).
  { intros Hin. vm_compute in Hin. intuition discriminate. }
  remember (js "// END REVIEWS DATA") as END eqn:EEND. clear EEND.
  destruct HE1 as [E' HE1].
  change (js "];") with [93%N; 59%N] in Eq.
  change (js " ") with [32%N] in Eq.
  change Sync.nl with [10%N] in EW.
  change (js "    ") with [32%N; 32%N; 32%N; 32%N] in EW.
  destruct W2 as [|h W2]; [done|]. clear HW2.
  cbn [app] in Eq. injection Eq as -> Eq.
  (* the suffix starts inside the records *)
  assert (HF2 : exists F1 F2,
             F = F1 ++ 93%N :: F2 /\ W2 = F2 ++ [10; 32; 32; 32; 32]%N).
  { change ([10%N] ++ F ++ [10%N] ++ [32; 32; 32; 32]%N)
      with (([10%N] ++ F) ++ [10; 32; 32; 32; 32]%N) in EW.
    apply app_eq_inv in EW as [(k & E1 & E2)|(k & E1 & E2)].
    - destruct k as [|k0 k].
      + cbn [app] in E2. discriminate E2.
      + destruct W1 as [|w W1].
        * cbn [app] in E1. injection E1 as <- _. cbn [app] in E2.
          discriminate E2.
        * cbn [app] in E1. injection E1 as _ E1. cbn [app] in E2.
          injection E2 as <- E2. by exists W1, k.
    - exfalso.
      assert (Hin : In 93%N [10; 32; 32; 32; 32]%N).
      { rewrite E2. apply in_or_app. right. by left. }
      cbn [In] in Hin. intuition discriminate. }
  destruct HF2 as (F1 & F2 & -> & ->).
  clear EW.
  rewrite <- app_assoc in Eq. cbn [app] in Eq.
  rewrite (app_assoc wsr END z) in Eq.
  change (59%N :: (wsr ++ END) ++ z) with ((59%N :: wsr ++ END) ++ z) in Eq.
  apply app_eq_inv in Eq as [(k & E1 & E2)|(k & E1 & E2)].
  { (* the whole end pattern lies inside the records *)
    apply HF. exists (F1 ++ 93%N :: 59%N :: wsr), k.
    rewrite E1. rewrite <- !app_assoc. cbn [app].
    by rewrite <- !app_assoc. }
  destruct k as [|k0 k].
  { apply HF. exists (F1 ++ 93%N :: 59%N :: wsr), [].
    rewrite app_nil_r in E1. rewrite <- E1, <- !app_assoc. cbn [app].
    by rewrite app_nil_r. }
  cbn [app] in E2. injection E2 as <- E2.
  change (59%N :: wsr ++ END) with ((59%N :: wsr) ++ END) in E1.
  apply app_eq_inv in E1 as [(k2 & E3 & E4)|(k2 & E3 & E4)].
  2:{ apply HE2. rewrite E4. apply in_or_app. right. by left. }
  destruct k2 as [|k20 k2].
  { cbn [app] in E4. rewrite HE1 in E4. discriminate E4. }
  cbn [app] in E4. injection E4 as <- E4.
  destruct F2 as [|f F2]; [cbn [app] in E3; discriminate E3|].
  cbn [app] in E3. injection E3 as _ E3.
  rewrite E3 in Hws. apply Forall_app in Hws as [_ Hws].
  apply Forall_cons in Hws as [_ Hws].
  rewrite E4, HE1 in E2.
  destruct k2 as [|a [|b [|c [|d [|e k5]]]]]; cbn [app] in E2;
    try discriminate E2.
  injection E2 as _ _ _ _ <- _.
  do 4 (apply Forall_cons in Hws as [_ Hws]).
  apply Forall_cons in Hws as [He _]. discriminate He.
Qed.

Lemma marker_at_block F post pos :
  ~ occurs (js "// END REVIEWS DATA") F ->
  rmatch false (body Sync.marker)
    (MS pos ((js "const reviewsData = [" ++ Sync.nl ++ F ++ Sync.nl
                ++ js "    ]; // END REVIEWS DATA") ++ post) []) Some
  = Some (MS (pos + length (js "const reviewsData = [" ++ Sync.nl ++ F
                              ++ Sync.nl ++ js "    ]; // END REVIEWS DATA"))
             post []).
Proof.
  intros HF. unfold Sync.marker. cbn [body rseq].
  rewrite rmatch_seq, rmatch_lit.
  rewrite <- app_assoc.
  rewrite (proj2 (litMatch_exact (js "const reviewsData = [") _ _) eq_refl).
  rewrite rmatch_seq, rmatch_star.
  change (js "    ]; // END REVIEWS DATA")
    with (js "    " ++ js "];" ++ js " " ++ js "// END REVIEWS DATA").
  replace ((Sync.nl ++ F ++ Sync.nl
              ++ js "    " ++ js "];" ++ js " " ++ js "// END REVIEWS DATA")
             ++ post)
    with ((Sync.nl ++ F ++ Sync.nl ++ js "    ")
            ++ js "];" ++ js " " ++ js "// END REVIEWS DATA" ++ post)
    by (by rewrite <- !app_assoc).
  change (RSeq (lit (js "];"))
            (RSeq (RStar true isWhiteSpace)
               (RSeq (lit (js "// END REVIEWS DATA")) REmpty)))
    with (rseq [lit (js "];"); RStar true isWhiteSpace;
                lit (js "// END REVIEWS DATA")]).
  rewrite star_lazy_skip.
  - rewrite (tail_value (js "];") (js "// END REVIEWS DATA") 47%N
               (js "/ END REVIEWS DATA")) by done.
    f_equal. f_equal. rewrite !length_app.
    repeat match goal with
           | |- context [length (js ?s)] =>
               let n := eval vm_compute in (length (js s)) in
               change (length (js s)) with n
           end.
    change (length Sync.nl) with 1. lia.
  - apply Forall_forall. by intros x _.
  - intros W1 W2 EW HW2. by apply (no_early_end F W1 W2).
  - rewrite (tail_value (js "];") (js "// END REVIEWS DATA") 47%N
               (js "/ END REVIEWS DATA")) by done.
    done.
Qed.

Lemma replace_nonglobal re repl s :
  global re = false ->
  replace re repl s =
  match exec re s with
  | None => s
  | Some m =>
      take (index m) s ++ substituted m s repl
        ++ drop (index m + length (matched m)) s
  end.
Proof. intros H. unfold replace. by rewrite H. Qed.

Lemma replace_block_again F content :
  plain F -> ~ occurs (js "// END REVIEWS DATA") F ->
  replace Sync.marker
    (js "const reviewsData = [" ++ Sync.nl ++ F ++ Sync.nl
       ++ js "    ]; // END REVIEWS DATA")
    (replace Sync.marker
       (js "const reviewsData = [" ++ Sync.nl ++ F ++ Sync.nl
          ++ js "    ]; // END REVIEWS DATA") content)
  = replace Sync.marker
      (js "const reviewsData = [" ++ Sync.nl ++ F ++ Sync.nl
         ++ js "    ]; // END REVIEWS DATA") content.
Proof.
  intros HpF HF.
  remember (js "const reviewsData = [" ++ Sync.nl ++ F ++ Sync.nl
              ++ js "    ]; // END REVIEWS DATA") as NB eqn:ENB.
  assert (HpNB : plain NB).
  { rewrite ENB. unfold plain. rewrite !Forall_app.
    repeat split; try done; by apply plain_compute. }
  rewrite (replace_nonglobal Sync.marker NB content eq_refl).
  destruct (exec Sync.marker content) as [m|] eqn:Ex.
  2:{ by rewrite (replace_nonglobal Sync.marker NB content eq_refl), Ex. }
  unfold exec in Ex.
  apply execFrom_leftmost in Ex as (i & st & Hi & Hle & Hno & Hat & Hm).
  cbn [Nat.add] in Hi, Hno, Hat, Hm.
  change (ignoreCase Sync.marker) with false in Hno, Hat.
  unfold substituted. rewrite GetSubstitution_plain by done.
  rewrite Hi.
  remember (drop (i + length (matched m)) content) as post eqn:Epost.
  assert (Hpre : length (take i content) = i) by (rewrite length_take; lia).
  assert (Hshape : exists mid ws post0,
             drop i content
             = js "const reviewsData = [" ++ mid ++ js "];" ++ ws
                 ++ js "// END REVIEWS DATA" ++ post0 /\
             Forall (fun c => isWhiteSpace c = true) ws).
  { apply (marker_matches i). by rewrite Hat. }
  destruct Hshape as (mid & ws & post0 & Hshape & Hws).
  assert (Hex : exec Sync.marker (take i content ++ NB ++ post)
                = Some (mkMatch i NB
                          (capturesOf (ncaps Sync.marker) []))).
  { unfold exec.
    rewrite (execFrom_intro Sync.marker i 0 (take i content ++ NB ++ post)
               (MS (i + length NB) post [])).
    - cbn [Nat.add ms_pos ms_caps]. do 2 f_equal.
      rewrite (drop_app_length' _ _ i) by done.
      replace (i + length NB - i) with (length NB) by lia.
      by rewrite take_app_length.
    - intros j Hj. cbn [Nat.add].
      change (ignoreCase Sync.marker) with false.
      apply eq_None_not_Some. intros Hs.
      apply marker_matches in Hs as (mid' & ws' & post' & Hs & Hws').
      rewrite drop_app_le in Hs by lia.
      assert (Hd : drop j (take i content) <> []).
      { intros Hnil. apply (f_equal length) in Hnil.
        rewrite length_drop, Hpre in Hnil. cbn [length] in Hnil. lia. }
      remember (drop j (take i content)) as d eqn:Ed.
      assert (Hc : drop j content = d ++ drop i content).
      { rewrite <- (take_drop i content) at 1.
        rewrite drop_app_le by lia. by rewrite Ed. }
      assert (He : exists e, d ++ js "const reviewsData = ["
                             = js "const reviewsData = [" ++ e).
      { rewrite ENB in Hs.
        rewrite <- !app_assoc in Hs. rewrite app_assoc in Hs.
        apply app_eq_inv in Hs as [(k & E1 & E2)|(k & E1 & E2)].
        - by exists k.
        - exfalso. apply (f_equal length) in E1.
          rewrite !length_app in E1. destruct d; [done|].
          cbn [length] in E1. lia. }
      destruct He as [e He].
      specialize (Hno j Hj).
      assert (Hs2 : is_Some
                (rmatch false (body Sync.marker)
                   (MS j (drop j content) []) Some)).
      { apply marker_matches. exists (e ++ mid), ws, post0.
        split; [|done]. rewrite Hc, Hshape.
        rewrite app_assoc, He. by rewrite <- !app_assoc. }
      rewrite Hno in Hs2. by destruct Hs2.
    - pose proof (length_app (take i content) (NB ++ post)) as Hlen.
      rewrite Hpre in Hlen. lia.
    - cbn [Nat.add]. rewrite (drop_app_length' _ _ i) by done.
      rewrite ENB. by apply marker_at_block. }
  rewrite (replace_nonglobal Sync.marker NB _ eq_refl), Hex.
  cbn [index matched]. unfold substituted.
  rewrite GetSubstitution_plain by done.
  rewrite (take_app_length' _ _ i) by done.
  assert (Hdrop : drop (i + length NB) (take i content ++ NB ++ post) = post).
  { rewrite app_assoc. apply drop_app_length'. rewrite length_app. lia. }
  by rewrite Hdrop.
Qed.

Lemma updateIndex_unchanged reviews w :
  test Sync.marker (Sync.indexHtml w) = true ->
  renderedListing reviews (Sync.indexHtml w) = Sync.indexHtml w ->
  Sync.updateIndex reviews w =
  Sync.Returned false
    (Sync.mkWorld (Sync.reviewsDir w) (Sync.indexHtml w) (Sync.sitemapXml w)
       (Sync.now w) (Sync.stdout w ++ [js "index.html already up to date"])
       (Sync.stderr w) (Sync.writes w)).
Proof.
  intros H Hr. unfold renderedListing in Hr. unfold Sync.updateIndex.
  cbv beta iota delta [Sync.bind Sync.readFileSync Sync.console_error
                         Sync.process_exit Sync.ret Sync.writeFileSync
                         Sync.console_log].
  rewrite H. cbv beta iota delta [negb].
  rewrite Hr. unfold str_eqb. rewrite bool_decide_eq_true_2 by done.
  reflexivity.
Qed.

(** X13: Updating the listing a second time with the same records writes
    nothing, provided the text of the records has no dollar sign and does
    not contain the end comment of the data block: the second call finds
    the page as the first one left it, prints that it is up to date and
    returns false. *)
Theorem listing_update_settles :
  forall (reviews : list Sync.ReviewMetadata) (w w1 : Sync.World)
         (changed : bool),
    plain (recordsText reviews) ->
    ~ occurs (js "// END REVIEWS DATA") (recordsText reviews) ->
    Sync.updateIndex reviews w = Sync.Returned changed w1 ->
    exists w2,
      Sync.updateIndex reviews w1 = Sync.Returned false w2 /\
      Sync.indexHtml w2 = Sync.indexHtml w1 /\
      Sync.writes w2 = Sync.writes w1 /\
      Sync.stderr w2 = Sync.stderr w1 /\
      Sync.stdout w2 = Sync.stdout w1 ++ [js "index.html already up to date"].
Proof.
  intros rs w w1 changed Hp Hn Hu.
  destruct (test Sync.marker (Sync.indexHtml w)) eqn:Ht.
  2:{ rewrite updateIndex_missing in Hu by done. discriminate Hu. }
  destruct (updateIndex_present rs w Ht)
    as (c' & w' & Hu' & _ & _ & _ & _ & Hi & _).
  rewrite Hu in Hu'. injection Hu' as <- <-.
  assert (Ht1 : test Sync.marker (Sync.indexHtml w1) = true).
  { apply test_marker. rewrite Hi. apply renderedListing_markers.
    by apply test_marker. }
  assert (Hr1 : renderedListing rs (Sync.indexHtml w1) = Sync.indexHtml w1).
  { rewrite Hi. unfold renderedListing.
    by apply (replace_block_again (recordsText rs)). }
  eexists. split; [by apply updateIndex_unchanged|].
  by repeat split.
Qed.

Lemma listing_update_settles_witness :
  exists (changed : bool) (w1 : Sync.World),
    Sync.updateIndex (reviewsOf lexCompare SampleRepo.threeReviews)
                     SampleRepo.threeReviews
    = Sync.Returned changed w1 /\
    exists w2,
      Sync.updateIndex (reviewsOf lexCompare SampleRepo.threeReviews) w1
      = Sync.Returned false w2.
Proof.
  destruct (updateIndex_present (reviewsOf lexCompare SampleRepo.threeReviews)
              SampleRepo.threeReviews)
    as (changed & w1 & Hu & _); [vm_compute; reflexivity|].
  exists changed, w1. split; [exact Hu|].
  destruct (listing_update_settles
              (reviewsOf lexCompare SampleRepo.threeReviews)
              SampleRepo.threeReviews w1 changed)
    as (w2 & H2 & _).
  - apply plain_compute. vm_compute. reflexivity.
  - apply not_occurs_compute. vm_compute. reflexivity.
  - exact Hu.
  - by exists w2.
Defined.

(** ** White space in titles and excerpts *)

Lemma take_takeWhile p s : take (length (takeWhile p s)) s = takeWhile p s.
Proof.
  induction s as [|c s IH]; cbn [takeWhile]; [done|].
  destruct (p c); [|done]. cbn [length take]. by rewrite IH.
Qed.

Lemma drop_takeWhile p s : drop (length (takeWhile p s)) s = dropWhile p s.
Proof.
  induction s as [|c s IH]; cbn [takeWhile dropWhile]; [done|].
  destruct (p c); [|done]. cbn [length drop]. by rewrite IH.
Qed.

Lemma dropWhile_length p s : length (dropWhile p s) <= length s.
Proof.
  induction s as [|c s IH]; cbn [dropWhile]; [done|].
  destruct (p c); cbn [length]; lia.
Qed.

Lemma spaces_at pos s :
  rmatch false (body Sync.spacesRe) (MS pos s []) Some =
  match s with
  | c :: s' =>
      if isWhiteSpace c
      then Some (MS (S pos + length (takeWhile isWhiteSpace s'))
                    (dropWhile isWhiteSpace s') [])
      else None
  | [] => None
  end.
Proof.
  unfold Sync.spacesRe, plus. cbn [body]. rewrite rmatch_seq.
  destruct s as [|c s']; [done|]. rewrite rmatch_class.
  destruct (isWhiteSpace c); [|done].
  by rewrite rmatch_star, star_greedy_all.
Qed.

Lemma execFrom_spaces s : forall pos,
  execFrom Sync.spacesRe pos s =
  match dropWhile (fun c => negb (isWhiteSpace c)) s with
  | [] => None
  | c :: s' =>
      Some (mkMatch
              (pos + length (takeWhile (fun c => negb (isWhiteSpace c)) s))
              (c :: takeWhile isWhiteSpace s') [])
  end.
Proof.
  induction s as [|x s IH]; intros pos; cbn [execFrom].
  - change (ignoreCase Sync.spacesRe) with false. by rewrite spaces_at.
  - change (ignoreCase Sync.spacesRe) with false. rewrite spaces_at.
    cbn [dropWhile takeWhile]. destruct (isWhiteSpace x); cbn [negb].
    + cbn [length ms_pos ms_caps]. rewrite Nat.add_0_r. f_equal.
      unfold capturesOf. cbn [ncaps Sync.spacesRe seq map]. f_equal.
      replace (S pos + length (takeWhile isWhiteSpace s) - pos)
        with (S (length (takeWhile isWhiteSpace s))) by lia.
      cbn [take]. by rewrite take_takeWhile.
    + rewrite IH. destruct (dropWhile _ s); [done|].
      cbn [length]. by rewrite Nat.add_succ_r.
Qed.

Lemma collapse_inRun s :
  collapseFrom true s = collapseFrom false (dropWhile isWhiteSpace s).
Proof.
  induction s as [|c s IH]; cbn [collapseFrom dropWhile]; [done|].
  destruct (isWhiteSpace c) eqn:E; [done|].
  cbn [collapseFrom]. by rewrite E.
Qed.

Lemma collapse_split s :
  collapseFrom false s =
  takeWhile (fun c => negb (isWhiteSpace c)) s ++
  match dropWhile (fun c => negb (isWhiteSpace c)) s with
  | [] => []
  | _ :: s' => 32%N :: collapseFrom false (dropWhile isWhiteSpace s')
  end.
Proof.
  induction s as [|c s IH]; cbn [collapseFrom takeWhile dropWhile]; [done|].
  destruct (isWhiteSpace c) eqn:E; cbn [negb app].
  - by rewrite collapse_inRun.
  - by rewrite IH.
Qed.

Lemma replaceFrom_spaces fuel : forall whole pos s,
  length s < fuel ->
  replaceFrom fuel Sync.spacesRe (js " ") whole pos s = collapseFrom false s.
Proof.
  induction fuel as [|fuel IH]; intros whole pos s Hl; [lia|].
  cbn [replaceFrom]. rewrite execFrom_spaces, collapse_split.
  pose proof (takeWhile_dropWhile (fun c => negb (isWhiteSpace c)) s) as Hs.
  destruct (dropWhile (fun c => negb (isWhiteSpace c)) s) as [|c s'] eqn:E.
  - by rewrite app_nil_r in Hs |- *.
  - cbn [index matched length].
    replace (pos + length (takeWhile (fun c => negb (isWhiteSpace c)) s) - pos)
      with (length (takeWhile (fun c => negb (isWhiteSpace c)) s)) by lia.
    rewrite take_takeWhile.
    change (substituted _ whole (js " ")) with [32%N].
    rewrite <- app_assoc. cbn [app]. do 2 f_equal.
    assert (Hd : drop (length (takeWhile (fun c => negb (isWhiteSpace c)) s)
                       + S (length (takeWhile isWhiteSpace s'))) s
                 = dropWhile isWhiteSpace s').
    { remember (takeWhile (fun c => negb (isWhiteSpace c)) s) as P eqn:EP.
      clear EP. rewrite <- Hs. rewrite drop_app_add'; [|done].
      cbn [drop]. apply drop_takeWhile. }
    rewrite Hd. apply IH.
    apply (f_equal length) in Hs. rewrite length_app in Hs.
    cbn [length] in Hs. pose proof (dropWhile_length isWhiteSpace s'). lia.
Qed.

Lemma replace_spaces s :
  replace Sync.spacesRe (js " ") s = collapseFrom false s.
Proof.
  unfold replace. change (global Sync.spacesRe) with true. cbv iota.
  apply replaceFrom_spaces. lia.
Qed.

Lemma singleSpaced_collapse s : forall b,
  singleSpaced (collapseFrom b s) = true /\
  (b = true ->
   match collapseFrom b s with
   | d :: _ => isWhiteSpace d = false
   | [] => True
   end).
Proof.
  induction s as [|c s IH]; intros b; cbn [collapseFrom]; [done|].
  destruct (isWhiteSpace c) eqn:E.
  - destruct b.
    + apply IH.
    + split; [|done]. cbn [singleSpaced].
      change (isWhiteSpace 32) with true. cbv iota.
      change (32 =? 32)%N with true. cbn [andb].
      destruct (IH true) as [H1 H2]. rewrite H1, andb_true_r.
      specialize (H2 eq_refl).
      destruct (collapseFrom true s); [done|]. by rewrite H2.
  - split; [|done]. cbn [singleSpaced]. rewrite E. apply IH.
Qed.

Lemma singleSpaced_suffix a b :
  singleSpaced (a ++ b) = true -> singleSpaced b = true.
Proof.
  induction a as [|c a IH]; [done|]. cbn [app singleSpaced].
  intros H. apply andb_true_iff in H as [_ H]. by apply IH.
Qed.

Lemma singleSpaced_prefix a b :
  singleSpaced (a ++ b) = true -> singleSpaced a = true.
Proof.
  induction a as [|c a IH]; [done|]. cbn [app singleSpaced].
  intros H. apply andb_true_iff in H as [Hc H].
  apply andb_true_iff. split; [|by apply IH].
  destruct (isWhiteSpace c); [|done].
  apply andb_true_iff in Hc as [Hc1 Hc2]. rewrite Hc1. cbn [andb].
  by destruct a.
Qed.

Lemma singleSpaced_app a b :
  singleSpaced a = true -> singleSpaced b = true ->
  match b with d :: _ => isWhiteSpace d = false | [] => True end ->
  singleSpaced (a ++ b) = true.
Proof.
  intros Ha Hb Hd. induction a as [|c a IH]; [done|].
  cbn [app singleSpaced] in Ha |- *.
  apply andb_true_iff in Ha as [Hc Ha].
  apply andb_true_iff. split; [|by apply IH].
  destruct (isWhiteSpace c); [|done].
  apply andb_true_iff in Hc as [Hc1 Hc2]. rewrite Hc1. cbn [andb].
  destruct a as [|x a]; [|done]. cbn [app].
  destruct b as [|d b]; [done|]. by rewrite Hd.
Qed.

Lemma trim_infix s : exists a b, s = a ++ trim s ++ b.
Proof.
  unfold trim.
  destruct (dropWhile_suffix isWhiteSpace s) as [a Ha].
  destruct (dropWhile_suffix isWhiteSpace (rev (dropWhile isWhiteSpace s)))
    as [y Hy].
  exists a, (rev y). rewrite <- rev_app_distr, <- Hy, rev_involutive.
  exact Ha.
Qed.

Lemma singleSpaced_trim s : singleSpaced s = true -> singleSpaced (trim s) = true.
Proof.
  intros H. destruct (trim_infix s) as (a & b & E). rewrite E in H.
  by apply singleSpaced_suffix, singleSpaced_prefix in H.
Qed.

Lemma accepts_rseq_eol ic l : forall pos c rest,
  accepts ic (rseq (l ++ [REol])) pos c rest -> rest = [].
Proof.
  induction l as [|r l IH]; intros pos c rest; cbn [app rseq accepts].
  - intros (c1 & c2 & _ & (_ & H) & ->). exact H.
  - intros (c1 & c2 & _ & _ & H). by apply IH in H.
Qed.

Lemma accepts_rseq_bol ic l pos c rest :
  accepts ic (rseq (RBol :: l)) pos c rest -> pos = 0.
Proof. cbn [rseq accepts]. by intros (c1 & c2 & _ & (_ & H) & _). Qed.

Lemma replace_suffixRe_prefix s : exists t, s = replace Sync.suffixRe [] s ++ t.
Proof.
  destruct (replace_first_shape Sync.suffixRe [] s eq_refl)
    as [E | (pre & c & rest & m & Es & A & E)]; rewrite E.
  - exists []. by rewrite app_nil_r.
  - apply (accepts_rseq_eol true
             [RStar true isWhiteSpace; lit (js "Review");
              RStar true isWhiteSpace; lit (js "-");
              RStar true isWhiteSpace; lit (js "Smart Buy Reviews UK 2026");
              RStar true isWhiteSpace]) in A.
    subst rest. exists c. rewrite Es. unfold substituted. cbn [GetSubstitution].
    by rewrite !app_nil_r.
Qed.

Lemma replace_honestRe_suffix s : exists t, s = t ++ replace Sync.honestRe [] s.
Proof.
  destruct (replace_first_shape Sync.honestRe [] s eq_refl)
    as [E | (pre & c & rest & m & Es & A & E)]; rewrite E.
  - by exists [].
  - apply (accepts_rseq_bol true
             [lit (js "Honest review of "); plus false isDot; lit (js ".");
              RStar true isWhiteSpace]) in A.
    destruct pre; [|done]. exists c. rewrite Es.
    unfold substituted. by cbn [GetSubstitution app].
Qed.

Lemma singleSpaced_normalised content :
  singleSpaced (trim (replace Sync.spacesRe (js " ") content)) = true.
Proof.
  apply singleSpaced_trim. rewrite replace_spaces.
  apply singleSpaced_collapse.
Qed.

Lemma singleSpaced_excerptOf content :
  singleSpaced (Sync.excerptOf content) = true.
Proof.
  unfold Sync.excerptOf.
  pose proof (singleSpaced_normalised content) as Hn.
  remember (trim (replace Sync.spacesRe (js " ") content)) as e1 eqn:E1.
  clear E1.
  assert (H2 : singleSpaced
                 (match replace Sync.honestRe [] e1 with
                  | [] => e1
                  | _ :: _ => replace Sync.honestRe [] e1
                  end) = true).
  { destruct (replace_honestRe_suffix e1) as [t Ht].
    destruct (replace Sync.honestRe [] e1) eqn:E; [done|].
    rewrite Ht in Hn. by apply singleSpaced_suffix in Hn. }
  remember (match replace Sync.honestRe [] e1 with
            | [] => e1
            | _ :: _ => replace Sync.honestRe [] e1
            end) as e3 eqn:E3.
  clear E3. destruct (120 <? length e3)%nat; [|done].
  apply singleSpaced_app; [|done|done].
  rewrite <- (take_drop 117 e3) in H2. by apply singleSpaced_prefix in H2.
Qed.

(** X14: The title and the excerpt of every record are on one line: the only
    white space in them is the space character, and no two spaces follow
    each other, however the page breaks its lines and indents. *)
Theorem record_single_spaced :
  forall (today : jsstring) (f : Sync.DirEntry) (r : Sync.ReviewMetadata),
    Sync.extractMeta today f = Some r ->
    singleSpaced (Sync.title r) = true /\
    singleSpaced (Sync.excerpt r) = true.
Proof.
  intros today f r Hr. split.
  - destruct (extractMeta_fields today f r Hr) as (m & _ & -> & _).
    apply singleSpaced_trim.
    destruct (replace_suffixRe_prefix
                (replace Sync.spacesRe (js " ") (nthCapture (captures m) 1)))
      as [t Ht].
    apply (singleSpaced_prefix _ t). rewrite <- Ht, replace_spaces.
    apply singleSpaced_collapse.
  - rewrite (extractMeta_excerpt today f r Hr).
    destruct (exec Sync.descRe (Sync.d_html f)); [|done].
    apply singleSpaced_excerptOf.
Qed.

Lemma record_single_spaced_witness :
  exists r,
    Sync.extractMeta (js "2026-11-01") SampleRepo.blender = Some r /\
    singleSpaced (Sync.title r) = true /\
    singleSpaced (Sync.excerpt r) = true.
Proof.
  destruct (Sync.extractMeta (js "2026-11-01") SampleRepo.blender)
    as [r|] eqn:Er; [|vm_compute in Er; discriminate].
  exists r. split; [reflexivity|].
  exact (record_single_spaced (js "2026-11-01") SampleRepo.blender r Er).
Defined.

(** ** The dropdowns *)

Lemma atMostOneOpen_only (hidden : list bool) i :
  (forall j, hidden !! j = Some false -> j = i) -> atMostOneOpen hidden.
Proof. intros H j k Hj Hk. by rewrite (H j Hj), (H k Hk). Qed.

Lemma others_hidden (hidden : list bool) i j :
  imap (fun k h => if Nat.eqb k i then h else true) hidden !! j = Some false ->
  j = i.
Proof.
  rewrite list_lookup_imap. destruct (hidden !! j) as [h|]; [|done].
  cbn. destruct (Nat.eqb j i) eqn:E; [|done].
  intros _. by apply Nat.eqb_eq.
Qed.

Lemma all_hidden (hidden : list bool) j :
  ((fun _ => true) <$> hidden) !! j <> Some false.
Proof. rewrite list_lookup_fmap. by destruct (hidden !! j). Qed.

Lemma buttonClick31_open i hidden j :
  V31Events.buttonClick i hidden !! j = Some false -> j = i.
Proof.
  unfold V31Events.buttonClick. destruct (decide (i = j)) as [->|Hne]; [done|].
  rewrite list_lookup_alter_ne by done. apply others_hidden.
Qed.

Lemma handle31_invariant hidden e :
  atMostOneOpen hidden -> atMostOneOpen (V31Events.handle hidden e).
Proof.
  intros H. destruct e as [i|inside]; cbn [V31Events.handle].
  - apply (atMostOneOpen_only _ i). apply buttonClick31_open.
  - unfold V31Events.documentClick. destruct inside; cbn [negb]; [done|].
    intros j k Hj. by apply all_hidden in Hj.
Qed.

Lemma handle40_invariant s e :
  atMostOneOpen (V40Events.hidden (snd s)) ->
  atMostOneOpen (V40Events.hidden (snd (V40Events.handle s e))).
Proof.
  destruct s as [self d]. cbn [snd fst]. intros H.
  destruct e as [i|i|i|inside|id]; cbn [V40Events.handle fst snd].
  - unfold V40Events.mouseenter.
    destruct (V40.closeTimeout self); cbn [snd V40Events.hidden];
      apply (atMostOneOpen_only _ i); intros j Hj;
      destruct (decide (i = j)) as [->|Hne]; try done;
      rewrite list_lookup_insert_ne in Hj by done;
      by apply others_hidden in Hj.
  - done.
  - unfold V40Events.buttonClick. cbn [V40Events.hidden].
    destruct (match V40Events.hidden d !! i with
              | Some h => h
              | None => false
              end).
    + apply (atMostOneOpen_only _ i). intros j Hj.
      destruct (decide (i = j)) as [->|Hne]; [done|].
      rewrite list_lookup_insert_ne in Hj by done.
      by apply all_hidden in Hj.
    + intros j k Hj. by apply all_hidden in Hj.
  - unfold V40Events.documentClick.
    destruct inside; cbn [negb V40Events.hidden]; [done|].
    intros j k Hj. by apply all_hidden in Hj.
  - unfold V40Events.timerFires.
    destruct (V40Events.timers d !! id) as [k|]; [|done].
    cbn [V40Events.hidden]. intros j1 j2 H1 H2.
    apply list_lookup_insert_Some in H1 as [(_ & ? & _)|(_ & H1)]; [done|].
    apply list_lookup_insert_Some in H2 as [(_ & ? & _)|(_ & H2)]; [done|].
    by apply H.
Qed.

(** X15: However the visitor clicks and moves the pointer, and whenever the
    timers fire, at most one dropdown of the menu is shown, in both
    variants: every handler that shows a dropdown hides the others. *)
Theorem one_dropdown_open :
  forall (n : nat) (events31 : list V31Events.Event)
         (events40 : list V40Events.Event) (self : V40.SmartNavigationMenu),
    atMostOneOpen (fold_left V31Events.handle events31 (replicate n true)) /\
    atMostOneOpen
      (V40Events.hidden
         (snd (fold_left V40Events.handle events40 (self, rendered40 n)))).
Proof.
  intros n events31 events40 self.
  assert (H0 : atMostOneOpen (replicate n true)).
  { intros i j Hi. by apply lookup_replicate in Hi as [? _]. }
  split.
  - revert H0. generalize (replicate n true).
    induction events31 as [|e es IH]; intros hidden H; cbn [fold_left]; [done|].
    apply IH. by apply handle31_invariant.
  - assert (H1 : atMostOneOpen (V40Events.hidden (snd (self, rendered40 n))))
      by done.
    revert H1. generalize (self, rendered40 n).
    induction events40 as [|e es IH]; intros s H; cbn [fold_left]; [done|].
    apply IH. by apply handle40_invariant.
Qed.

(** X16: A click on the button of a dropdown has the same effect in both
    variants, though v3.1 toggles the class and v4.0 tests and removes it:
    the clicked dropdown is shown if it was hidden and hidden if it was
    shown, and every other dropdown is hidden. *)
Theorem button_click_toggles :
  forall (i : nat) (d : V40Events.Document),
    V40Events.hidden (V40Events.buttonClick i d)
      = V31Events.buttonClick i (V40Events.hidden d) /\
    V31Events.buttonClick i (V40Events.hidden d) !! i
      = negb <$> V40Events.hidden d !! i /\
    (forall j, j <> i -> j < length (V40Events.hidden d) ->
       V31Events.buttonClick i (V40Events.hidden d) !! j = Some true).
Proof.
  intros i [hidden timers next]. cbn [V40Events.hidden].
  assert (Hi : V31Events.buttonClick i hidden !! i = negb <$> hidden !! i).
  { unfold V31Events.buttonClick.
    rewrite list_lookup_alter_eq, list_lookup_imap.
    destruct (hidden !! i); [|done]. cbn. by rewrite Nat.eqb_refl. }
  assert (Hj : forall j, j <> i -> j < length hidden ->
                 V31Events.buttonClick i hidden !! j = Some true).
  { intros j Hne Hlt. unfold V31Events.buttonClick.
    rewrite list_lookup_alter_ne by done. rewrite list_lookup_imap.
    destruct (lookup_lt_is_Some_2 hidden j Hlt) as [h ->]. cbn.
    apply Nat.eqb_neq in Hne. by rewrite Hne. }
  split; [|done].
  apply list_eq. intros j.
  unfold V40Events.buttonClick. cbn [V40Events.hidden].
  destruct (decide (j = i)) as [->|Hne].
  - rewrite Hi. destruct (hidden !! i) as [[|]|] eqn:E; cbn.
    + rewrite list_lookup_insert_eq; [done|].
      rewrite length_fmap. by apply lookup_lt_Some in E.
    + rewrite list_lookup_fmap, E. done.
    + rewrite list_lookup_fmap, E. done.
  - destruct (decide (j < length hidden)) as [Hlt|Hge].
    + rewrite (Hj j Hne Hlt).
      destruct (lookup_lt_is_Some_2 hidden j Hlt) as [h Hh].
      destruct (match hidden !! i with Some h0 => h0 | None => false end).
      * rewrite list_lookup_insert_ne by done.
        by rewrite list_lookup_fmap, Hh.
      * by rewrite list_lookup_fmap, Hh.
    + assert (Hn : hidden !! j = None) by (apply lookup_ge_None; lia).
      assert (Hn31 : V31Events.buttonClick i hidden !! j = None).
      { unfold V31Events.buttonClick.
        rewrite list_lookup_alter_ne by done.
        by rewrite list_lookup_imap, Hn. }
      rewrite Hn31.
      destruct (match hidden !! i with Some h0 => h0 | None => false end).
      * rewrite list_lookup_insert_ne by done.
        by rewrite list_lookup_fmap, Hn.
      * by rewrite list_lookup_fmap, Hn.
Qed.

Lemma hover_invariant n i before : forall over s,
  i < n ->
  length (V40Events.hidden (snd s)) = n ->
  (forall id k, V40Events.timers (snd s) !! id = Some k ->
     V40.closeTimeout (fst s) = Some id) ->
  (over = true -> V40Events.timers (snd s) = ∅) ->
  physical over (before ++ [V40Events.MouseEnter i]) = true ->
  let s' := fold_left V40Events.handle (before ++ [V40Events.MouseEnter i]) s in
  V40Events.timers (snd s') = ∅ /\
  V40Events.hidden (snd s') !! i = Some false.
Proof.
  assert (Henter : forall j self d,
            (forall id k, V40Events.timers d !! id = Some k ->
               V40.closeTimeout self = Some id) ->
            V40Events.timers (snd (V40Events.mouseenter j self d)) = ∅ /\
            length (V40Events.hidden (snd (V40Events.mouseenter j self d)))
              = length (V40Events.hidden d) /\
            (j < length (V40Events.hidden d) ->
             V40Events.hidden (snd (V40Events.mouseenter j self d)) !! j
               = Some false)).
  { intros j self d Ht. unfold V40Events.mouseenter.
    destruct (V40.closeTimeout self) as [t|] eqn:Ec;
      cbn [snd V40Events.timers V40Events.hidden].
    - split; [|split].
      + apply map_empty. intros id. destruct (decide (id = t)) as [->|Hne].
        * apply lookup_delete_eq.
        * rewrite lookup_delete_ne by done.
          destruct (V40Events.timers d !! id) as [k|] eqn:E; [|done].
          apply Ht in E. congruence.
      + by rewrite length_insert, length_imap.
      + intros Hj. apply list_lookup_insert_eq. by rewrite length_imap.
    - split; [|split].
      + apply map_empty. intros id.
        destruct (V40Events.timers d !! id) as [k|] eqn:E; [|done].
        apply Ht in E. congruence.
      + by rewrite length_insert, length_imap.
      + intros Hj. apply list_lookup_insert_eq. by rewrite length_imap. }
  induction before as [|e before IH]; intros over [self d] Hi Hlen Ht Hover;
    cbn [app physical fold_left fst snd] in *.
  - intros _. cbn [V40Events.handle fst snd].
    destruct (Henter i self d Ht) as (H1 & _ & H3).
    split; [done|]. apply H3. lia.
  - destruct e as [j|j|j|inside|id]; intros Hph; cbn [V40Events.handle fst snd].
    + apply andb_true_iff in Hph as [_ Hph].
      destruct (Henter j self d Ht) as (H1 & H2 & _).
      apply (IH true); [done|by rewrite H2| |done|done].
      intros id k. by rewrite H1, lookup_empty.
    + apply andb_true_iff in Hph as [Ho Hph].
      specialize (Hover Ho).
      apply (IH false); [done|done| |done|done].
      cbn [V40Events.mouseleave fst snd V40Events.timers V40.closeTimeout
           V40Events.setCloseTimeout].
      intros id k. rewrite Hover.
      destruct (decide (id = V40Events.nextTimer d)) as [->|Hne]; [done|].
      by rewrite lookup_insert_ne, lookup_empty.
    + apply (IH over); [done| |done|done|done].
      cbn [fst snd]. unfold V40Events.buttonClick. cbn [V40Events.hidden].
      destruct (match V40Events.hidden d !! j with
                | Some h => h
                | None => false
                end); by rewrite ?length_insert, length_fmap.
    + apply (IH over); [done| | | |done]; cbn [fst snd].
      * unfold V40Events.documentClick.
        destruct inside; cbn [negb V40Events.hidden]; [done|].
        by rewrite length_fmap.
      * unfold V40Events.documentClick. by destruct inside.
      * unfold V40Events.documentClick. by destruct inside.
    + apply (IH over); [done| | | |done]; cbn [fst snd].
      * unfold V40Events.timerFires.
        destruct (V40Events.timers d !! id); [|done].
        cbn [V40Events.hidden]. by rewrite length_insert.
      * unfold V40Events.timerFires.
        destruct (V40Events.timers d !! id) as [k0|] eqn:E; [|done].
        cbn [V40Events.timers]. intros id' k Hl.
        destruct (decide (id' = id)) as [->|Hne].
        -- by rewrite lookup_delete_eq in Hl.
        -- rewrite lookup_delete_ne in Hl by done. by apply Ht in Hl.
      * intros Ho. specialize (Hover Ho). unfold V40Events.timerFires.
        by rewrite Hover, lookup_empty.
Qed.

Lemma timers_idle after : forall s,
  V40Events.timers (snd s) = ∅ ->
  Forall (fun e => exists id, e = V40Events.TimerFires id) after ->
  fold_left V40Events.handle after s = s.
Proof.
  induction after as [|e after IH]; intros [self d] Ht Ha; [done|].
  apply Forall_cons in Ha as [[id ->] Ha]. cbn [fold_left].
  assert (E : V40Events.handle (self, d) (V40Events.TimerFires id) = (self, d)).
  { cbn [V40Events.handle fst snd]. unfold V40Events.timerFires.
    cbn [snd] in Ht. by rewrite Ht, lookup_empty. }
  rewrite E. by apply IH.
Qed.

(** X17: In v4.0 a dropdown does not close under the pointer.  For a pointer
    that is over at most one item at a time: once it has entered the item
    of a dropdown, no timer is pending, so the dropdown stays shown
    whichever timers of earlier visits fire afterwards. *)
Theorem hover_keeps_dropdown_open :
  forall (n i : nat) (self : V40.SmartNavigationMenu)
         (before after : list V40Events.Event),
    i < n ->
    physical false (before ++ [V40Events.MouseEnter i]) = true ->
    Forall (fun e => exists id, e = V40Events.TimerFires id) after ->
    V40Events.hidden
      (snd (fold_left V40Events.handle
              (before ++ V40Events.MouseEnter i :: after)
              (self, rendered40 n))) !! i
    = Some false.
Proof.
  intros n i self before after Hi Hph Ha.
  change (before ++ V40Events.MouseEnter i :: after)
    with (before ++ [V40Events.MouseEnter i] ++ after).
  rewrite app_assoc, fold_left_app.
  destruct (hover_invariant n i before false (self, rendered40 n) Hi)
    as [Ht Hh]; [| | |done|].
  - cbn [snd rendered40 V40Events.hidden]. by rewrite length_replicate.
  - intros id k. cbn [snd rendered40 V40Events.timers].
    by rewrite lookup_empty.
  - done.
  - by rewrite timers_idle.
Qed.

Lemma hover_keeps_dropdown_open_witness :
  V40Events.hidden
    (snd (fold_left V40Events.handle
            [V40Events.MouseEnter 0; V40Events.MouseLeave 0;
             V40Events.MouseEnter 1; V40Events.TimerFires 1]
            (Samples.loaded40 (js "en"), rendered40 2))) !! 1
  = Some false.
Proof.
  refine (hover_keeps_dropdown_open 2 1 (Samples.loaded40 (js "en"))
            [V40Events.MouseEnter 0; V40Events.MouseLeave 0]
            [V40Events.TimerFires 1] _ eq_refl _).
  - lia.
  - repeat constructor. by exists 1.
Defined.

(** ** What the fields of a record can hold *)

Lemma rmatch_captured ic r :
  forall st k res,
    rmatch ic r st k = Some res ->
    exists c rest caps,
      ms_rest st = c ++ rest /\ captured ic r (ms_pos st) c rest caps /\
      k (MS (ms_pos st + length c) rest (caps ++ ms_caps st)) = Some res.
Proof.
  induction r as [|ch|p|a IHa b IHb|g p|i a IHa| |];
    intros [pos s caps] k res H; cbn [rmatch ms_rest ms_pos ms_caps] in H |- *.
  - exists [], s, []. rewrite Nat.add_0_r. by repeat split.
  - destruct s as [|x tl]; [done|].
    destruct (charMatches ic ch x) eqn:E; [|done].
    exists [x], tl, []. cbn [length app captured].
    rewrite Nat.add_1_r. repeat split; [|done]. by exists x.
  - destruct s as [|x tl]; [done|].
    destruct (p x) eqn:E; [|done].
    exists [x], tl, []. cbn [length app captured].
    rewrite Nat.add_1_r. repeat split; [|done]. by exists x.
  - apply IHa in H as (c1 & rest1 & k1 & E1 & A1 & H).
    apply IHb in H as (c2 & rest2 & k2 & E2 & A2 & H).
    cbn [ms_rest ms_pos ms_caps] in E1, E2, A1, A2, H.
    exists (c1 ++ c2), rest2, (k2 ++ k1). cbn [captured].
    rewrite length_app, Nat.add_assoc, <- !app_assoc, <- E2.
    repeat split; [done| |done].
    exists c1, c2, k1, k2. rewrite <- E2. by repeat split.
  - apply star_sound in H as (c & rest & -> & Hc & H).
    by exists c, rest, [].
  - apply IHa in H as (c & rest & k1 & E & A & H).
    cbn [ms_rest ms_pos ms_caps] in E, A, H.
    exists c, rest, ((i, c) :: k1). cbn [captured app].
    split; [done|]. split; [by exists k1|].
    rewrite E in H.
    replace (pos + length c - pos) with (length c) in H by lia.
    by rewrite take_app_length in H.
  - destruct (Nat.eqb pos 0) eqn:E; [|done].
    apply Nat.eqb_eq in E. exists [], s, [].
    rewrite Nat.add_0_r. by repeat split.
  - destruct s; [|done]. exists [], [], [].
    rewrite Nat.add_0_r. by repeat split.
Qed.

Lemma execFrom_captured re pos s m :
  execFrom re pos s = Some m ->
  exists pre c rest caps,
    s = pre ++ c ++ rest /\
    captured (ignoreCase re) (body re) (index m) c rest caps /\
    captures m = capturesOf (ncaps re) caps.
Proof.
  revert pos. induction s as [|x s IH]; intros pos H; cbn [execFrom] in H.
  - destruct (rmatch _ _ (MS pos [] []) Some) as [st|] eqn:E; [|done].
    injection H as <-. cbn [index captures].
    apply rmatch_captured in E as (c & rest & caps & Es & A & Ek).
    cbn [ms_rest ms_pos ms_caps] in Es, A, Ek. injection Ek as <-.
    exists [], c, rest, caps. cbn [app ms_caps]. by rewrite app_nil_r.
  - destruct (rmatch _ _ (MS pos (x :: s) []) Some) as [st|] eqn:E.
    + injection H as <-. cbn [index captures].
      apply rmatch_captured in E as (c & rest & caps & Es & A & Ek).
      cbn [ms_rest ms_pos ms_caps] in Es, A, Ek. injection Ek as <-.
      exists [], c, rest, caps. cbn [app ms_caps]. by rewrite app_nil_r.
    + apply IH in H as (pre & c & rest & caps & -> & A & Hc).
      by exists (x :: pre), c, rest, caps.
Qed.

Lemma captured_lit ic l : forall pos c rest caps,
  captured ic (lit l) pos c rest caps ->
  Forall2 (fun p q => charMatches ic p q = true) l c /\ caps = [].
Proof.
  induction l as [|ch l IH]; intros pos c rest caps; cbn [lit captured].
  - intros [-> ->]. by split; [constructor|].
  - intros (c1 & c2 & k1 & k2 & -> & ((x & -> & Hx) & ->) & A & ->).
    apply IH in A as [A ->]. split; [by constructor|done].
Qed.

Lemma captured_plus ic g p pos c rest caps :
  captured ic (plus g p) pos c rest caps ->
  c <> [] /\ Forall (fun x => p x = true) c /\ caps = [].
Proof.
  unfold plus. cbn [captured].
  intros (c1 & c2 & k1 & k2 & -> & ((x & -> & Hx) & ->) & (HX & ->) & ->).
  split; [done|]. split; [by constructor|done].
Qed.

Lemma captured_star ic g p pos c rest caps :
  captured ic (RStar g p) pos c rest caps -> caps = [].
Proof. by intros [_ ->]. Qed.

Lemma title_shape T TE pos c rest caps :
  captured true (rseq [lit T; RGroup 1 (plus true (isNot 60)); lit TE])
    pos c rest caps ->
  exists cg, caps = [(1, cg)] /\ Forall (fun x => isNot 60 x = true) cg.
Proof.
  cbn [rseq captured].
  intros (c1 & c2 & k1 & k2 & -> & A1
          & (c3 & c4 & k3 & k4 & -> & (k & A2 & ->)
             & (c5 & c6 & k5 & k6 & -> & A3 & (-> & ->) & ->) & ->) & ->).
  apply captured_lit in A1 as [_ ->]. apply captured_lit in A3 as [_ ->].
  apply captured_plus in A2 as (_ & H & ->).
  by exists c3.
Qed.

Lemma img_shape SRC PREFIX Q pos c rest caps :
  captured true
    (rseq [lit SRC;
           RGroup 1 (RSeq (lit PREFIX) (plus true (isNot 34)));
           lit Q])
    pos c rest caps ->
  exists p q,
    caps = [(1, p ++ q)] /\ sameAnyCase PREFIX p /\ q <> [] /\
    Forall (fun x => isNot 34 x = true) q.
Proof.
  cbn [rseq captured].
  intros (c1 & c2 & k1 & k2 & -> & A1
          & (c3 & c4 & k3 & k4 & ->
             & (k & (p & q & kp & kq & -> & Ap & Aq & ->) & ->)
             & (c5 & c6 & k5 & k6 & -> & A3 & (-> & ->) & ->) & ->) & ->).
  apply captured_lit in A1 as [_ ->]. apply captured_lit in A3 as [_ ->].
  apply captured_lit in Ap as [Hp ->].
  apply captured_plus in Aq as (Hq & HX & ->).
  by exists p, q.
Qed.

Lemma badge_shape CB Q GT SPAN pos c rest caps :
  captured true
    (rseq [lit CB; RStar true (isNot 34); lit Q; RStar true (isNot 62);
           lit GT; RStar true isWhiteSpace;
           RGroup 1 (plus false (isNot 60));
           RStar true isWhiteSpace; lit SPAN])
    pos c rest caps ->
  exists cg, caps = [(1, cg)] /\ Forall (fun x => isNot 60 x = true) cg.
Proof.
  cbn [rseq captured].
  intros (? & ? & ? & ? & -> & A1
          & (? & ? & ? & ? & -> & (_ & ->)
          & (? & ? & ? & ? & -> & A2
          & (? & ? & ? & ? & -> & (_ & ->)
          & (? & ? & ? & ? & -> & A3
          & (? & ? & ? & ? & -> & (_ & ->)
          & (cg & ? & ? & ? & -> & (k & Ag & ->)
          & (? & ? & ? & ? & -> & (_ & ->)
          & (? & ? & ? & ? & -> & A4 & (-> & ->) & ->)
          & ->) & ->) & ->) & ->) & ->) & ->) & ->) & ->).
  apply captured_lit in A1 as [_ ->]. apply captured_lit in A2 as [_ ->].
  apply captured_lit in A3 as [_ ->]. apply captured_lit in A4 as [_ ->].
  apply captured_plus in Ag as (_ & H & ->).
  by exists cg.
Qed.

Lemma desc_shape META NAME CONTENT Q pos c rest caps :
  captured true
    (rseq [lit META; plus true isWhiteSpace; lit NAME;
           plus true isWhiteSpace; lit CONTENT;
           RGroup 1 (plus true (isNot 34)); lit Q])
    pos c rest caps ->
  exists cg, caps = [(1, cg)] /\ Forall (fun x => isNot 34 x = true) cg.
Proof.
  cbn [rseq captured]. fold (plus true isWhiteSpace). fold (plus true (isNot 34)).
  intros (? & ? & ? & ? & -> & A1
          & (? & ? & ? & ? & -> & P1
          & (? & ? & ? & ? & -> & A2
          & (? & ? & ? & ? & -> & P2
          & (? & ? & ? & ? & -> & A3
          & (cg & ? & ? & ? & -> & (k & Ag & ->)
          & (? & ? & ? & ? & -> & A4 & (-> & ->) & ->)
          & ->) & ->) & ->) & ->) & ->) & ->).
  apply captured_lit in A1 as [_ ->]. apply captured_lit in A2 as [_ ->].
  apply captured_lit in A3 as [_ ->]. apply captured_lit in A4 as [_ ->].
  apply captured_plus in P1 as (_ & _ & ->).
  apply captured_plus in P2 as (_ & _ & ->).
  apply captured_plus in Ag as (_ & H & ->).
  by exists cg.
Qed.

Lemma extractMeta_category_image today f r :
  Sync.extractMeta today f = Some r ->
  Sync.category r =
    match exec Sync.badgeRe (Sync.d_html f) with
    | Some catMatch => trim (nthCapture (captures catMatch) 1)
    | None => js "General"
    end /\
  Sync.image r =
    match exec Sync.imgRe (Sync.d_html f) with
    | Some imgMatch => nthCapture (captures imgMatch) 1
    | None => []
    end.
Proof.
  unfold Sync.extractMeta. cbv zeta.
  destruct (match exec Sync.titleRe (Sync.d_html f) with
            | Some _ => _
            | None => _
            end); [done|].
  by intros [= <-].
Qed.

Lemma Forall_collapse (P : N -> Prop) s : forall b,
  P 32%N -> Forall P s -> Forall P (collapseFrom b s).
Proof.
  induction s as [|c s IH]; intros b H32 Hs; cbn [collapseFrom]; [done|].
  apply Forall_cons in Hs as [Hc Hs].
  destruct (isWhiteSpace c); [destruct b|]; repeat constructor; try done;
    by apply IH.
Qed.

Lemma Forall_trim (P : N -> Prop) s : Forall P s -> Forall P (trim s).
Proof.
  intros H. destruct (trim_infix s) as (a & b & E). rewrite E in H.
  by apply Forall_app in H as [_ [H _]%Forall_app].
Qed.

Lemma Forall_excerptOf (P : N -> Prop) content :
  P 32%N -> P 46%N -> Forall P content -> Forall P (Sync.excerptOf content).
Proof.
  intros H32 H46 Hc. unfold Sync.excerptOf.
  assert (Hn : Forall P (trim (replace Sync.spacesRe (js " ") content))).
  { apply Forall_trim. rewrite replace_spaces. by apply Forall_collapse. }
  remember (trim (replace Sync.spacesRe (js " ") content)) as e1 eqn:E1.
  clear E1.
  assert (H2 : Forall P (match replace Sync.honestRe [] e1 with
                         | [] => e1
                         | _ :: _ => replace Sync.honestRe [] e1
                         end)).
  { destruct (replace_honestRe_suffix e1) as [t Ht].
    destruct (replace Sync.honestRe [] e1) eqn:E; [done|].
    rewrite Ht in Hn. by apply Forall_app in Hn as [_ Hn]. }
  remember (match replace Sync.honestRe [] e1 with
            | [] => e1
            | _ :: _ => replace Sync.honestRe [] e1
            end) as e3 eqn:E3.
  clear E3. destruct (120 <? length e3)%nat; [|done].
  apply Forall_app. split; [by apply Forall_take|].
  by repeat constructor.
Qed.

Lemma isNot_neq x s :
  Forall (fun c => isNot x c = true) s -> Forall (fun c => c <> x) s.
Proof.
  intros H. eapply Forall_impl; [exact H|]. intros c Hc. unfold isNot in Hc.
  apply negb_true_iff in Hc. by apply N.eqb_neq.
Qed.

(** X18: What the fields of a record can hold.  The title and the category
    never contain [<], and the excerpt never contains a double quote: they
    end where the markup they are taken from ends.  The image is empty or
    an address that starts with the address of the bucket, in any letter
    case, goes on with at least one more character and has no double quote
    after that start. *)
Theorem record_fields_clean :
  forall (today : jsstring) (f : Sync.DirEntry) (r : Sync.ReviewMetadata),
    Sync.extractMeta today f = Some r ->
    Forall (fun c => c <> 60%N) (Sync.title r) /\
    Forall (fun c => c <> 60%N) (Sync.category r) /\
    Forall (fun c => c <> 34%N) (Sync.excerpt r) /\
    (Sync.image r = [] \/
     exists p q,
       Sync.image r = p ++ q /\
       sameAnyCase (js "https://smartbuyreviews-instructions-2026.s3") p /\
       q <> [] /\ Forall (fun c => c <> 34%N) q).
Proof.
  intros today f r Hr.
  destruct (extractMeta_fields today f r Hr) as (tm & Ht & Etitle & _).
  destruct (extractMeta_category_image today f r Hr) as [Ecat Eimg].
  pose proof (extractMeta_excerpt today f r Hr) as Eexc.
  split; [|split; [|split]].
  - rewrite Etitle. apply Forall_trim.
    destruct (replace_suffixRe_prefix
                (replace Sync.spacesRe (js " ") (nthCapture (captures tm) 1)))
      as [t Hpre].
    assert (Hall : Forall (fun c => c <> 60%N)
                     (replace Sync.spacesRe (js " ")
                        (nthCapture (captures tm) 1))).
    { rewrite replace_spaces. apply Forall_collapse; [done|].
      unfold exec in Ht.
      apply execFrom_captured in Ht as (pre & c & rest & caps & _ & A & ->).
      apply (title_shape (js "<title>") (js "</title>")) in A
        as (cg & -> & Hcg).
      by apply isNot_neq. }
    rewrite Hpre in Hall. by apply Forall_app in Hall as [Hall _].
  - rewrite Ecat.
    destruct (exec Sync.badgeRe (Sync.d_html f)) as [m|] eqn:Em.
    + apply Forall_trim. unfold exec in Em.
      apply execFrom_captured in Em as (pre & c & rest & caps & _ & A & ->).
      apply (badge_shape (dq "class='badge") (dq "'") (js ">") (js "</span>"))
        in A as (cg & -> & Hcg).
      by apply isNot_neq.
    + apply isNot_neq, Forall_forall. intros c Hc.
      apply list_elem_of_In in Hc.
      assert (Hb : forallb (isNot 60) (js "General") = true) by reflexivity.
      rewrite forallb_forall in Hb. by apply Hb.
  - rewrite Eexc.
    destruct (exec Sync.descRe (Sync.d_html f)) as [m|] eqn:Em; [|done].
    apply Forall_excerptOf; [done|done|].
    unfold exec in Em.
    apply execFrom_captured in Em as (pre & c & rest & caps & _ & A & ->).
    apply (desc_shape (js "<meta") (dq "name='description'") (dq "content='")
             (dq "'")) in A as (cg & -> & Hcg).
    by apply isNot_neq.
  - rewrite Eimg.
    destruct (exec Sync.imgRe (Sync.d_html f)) as [m|] eqn:Em; [|by left].
    right. unfold exec in Em.
    apply execFrom_captured in Em as (pre & c & rest & caps & _ & A & ->).
    apply (img_shape (dq "src='")
             (js "https://smartbuyreviews-instructions-2026.s3") (dq "'"))
      in A as (p & q & -> & Hp & Hq & HX).
    exists p, q. repeat split; [done|done|]. by apply isNot_neq.
Qed.

Lemma record_fields_clean_witness :
  exists r,
    Sync.extractMeta (js "2026-11-01") SampleRepo.kettle = Some r /\
    Forall (fun c => c <> 60%N) (Sync.title r) /\
    Forall (fun c => c <> 60%N) (Sync.category r) /\
    Forall (fun c => c <> 34%N) (Sync.excerpt r).
Proof.
  destruct (Sync.extractMeta (js "2026-11-01") SampleRepo.kettle)
    as [r|] eqn:Er; [|vm_compute in Er; discriminate].
  exists r. split; [reflexivity|].
  pose proof (record_fields_clean (js "2026-11-01") SampleRepo.kettle r Er)
    as (H1 & H2 & H3 & _).
  by repeat split.
Defined.

(** ** What a run prints *)





